(** * slingshot-stats: the deal classification and aggregation engine

    A shallow embedding of [main.go] (the [rollup] command,
    [getAndParseProjectList] and [getAndParseRestore]) together with the properties of the
    specification that are stated about it.

    Conventions of the embedding:
    - [address.Address] and [cid.Cid] are comparable values that the
      program only ever compares, uses as map keys and prints with
      [String()]; both are identified with their string rendering.
    - [abi.ChainEpoch] and [int64] are [Z] with the 64-bit wrap-around of
      every addition and subtraction written out ([wrap64]). The counters
      of type [int] go up by one at most once for a deal of the slice
      [orderedDealList], whose length is an [int]: they cannot wrap and
      are plain integers.
    - Go maps are stdpp [gmap]s; [m[k]] on a missing key is the zero value.
    - The body of the loop over [orderedDealList] is the function
      [processDeal] on an explicit loop state; a [continue] is an early
      return of the state reached so far. *)

From Stdlib Require Import ZArith Lia Ascii String DecimalString DecimalZ.
From stdpp Require Import base strings gmap list sorting.

Local Open Scope string_scope.
Local Open Scope Z_scope.
Local Open Scope list_scope.

(** ** Machine integers *)

(** The value of a Go [int64] expression whose mathematical value is [z]. *)
Definition wrap64 (z : Z) : Z := (z + 2 ^ 63) mod 2 ^ 64 - 2 ^ 63.

Definition add64 (a b : Z) : Z := wrap64 (a + b).
Definition sub64 (a b : Z) : Z := wrap64 (a - b).

(** [int64(x)] for [x] of type [abi.PaddedPieceSize] (a [uint64]). *)
Definition int64_of_uint64 (z : Z) : Z := wrap64 z.

Definition in_int64 (z : Z) : Prop := - 2 ^ 63 <= z < 2 ^ 63.

(** ** The ledger snapshot ([api.MarketDeal]) *)

Abbreviation Address := string (only parsing).
Abbreviation Cid := string (only parsing).

Record DealProposal := {
  PieceCID : Cid;
  PieceSize : Z;
  VerifiedDeal : bool;
  Client : Address;
  Provider : Address;
  Label : string;
  StartEpoch : Z;
  EndEpoch : Z
}.

Record DealState := {
  SectorStartEpoch : Z;
  LastUpdatedEpoch : Z;
  SlashEpoch : Z
}.

Record MarketDeal := {
  Proposal : DealProposal;
  State : DealState
}.

(** The zero value of [api.MarketDeal], what [deals[id]] yields for an id
    that is not a key of the map. *)
Definition zeroDeal : MarketDeal :=
  {| Proposal := {| PieceCID := ""; PieceSize := 0; VerifiedDeal := false;
                    Client := ""; Provider := ""; Label := "";
                    StartEpoch := 0; EndEpoch := 0 |};
     State := {| SectorStartEpoch := 0; LastUpdatedEpoch := 0; SlashEpoch := 0 |} |}.

Definition lookupDeal (deals : gmap string MarketDeal) (dealID : string) : MarketDeal :=
  default zeroDeal (deals !! dealID).

(** [m[k]] for a [map[K]int] or [map[K]int64]. *)
Definition getZ (m : gmap string Z) (k : string) : Z := default 0 (m !! k).

(** [len(m)] *)
Definition len {V} (m : gmap string V) : Z := Z.of_nat (size m).

(** ** Output structures *)

(** contents of basic_stats.json *)
Record competitionTotal := {
  UniqueCids : Z;
  UniqueProviders : Z;
  UniqueProjects : Z;
  UniqueClients : Z;
  TotalDeals : Z;
  TotalBytes : Z;
  FilplusTotalDeals : Z;
  FilplusTotalBytes : Z;
  seenProject : gmap string bool;
  seenClient : gmap Address bool;
  seenProvider : gmap Address bool;
  seenPieceCid : gmap Cid bool
}.

Record clientAggregateStats := {
  cs_Client : string;
  cs_DataSize : Z;
  cs_NumCids : Z;
  cs_NumDeals : Z;
  cs_NumProviders : Z;
  cs_providers : gmap Address bool;
  cs_cids : gmap Cid bool
}.

(** contents of client_stats.json *)
Record projectAggregateStats := {
  ps_ProjectID : string;
  ps_DataSizeMaxProvider : Z;
  ps_HighestCidDealCount : Z;
  ps_DataSize : Z;
  ps_NumCids : Z;
  ps_NumDeals : Z;
  ps_NumProviders : Z;
  ps_ClientStats : gmap string clientAggregateStats;
  ps_dataPerProvider : gmap Address Z;
  ps_timesSeenPieceCid : gmap Cid Z;
  ps_timesSeenPieceCidAllTime : gmap Cid Z
}.

(** contents of deals_list_{{projid}}.json *)
Record individualDeal := {
  id_ProjectID : string;
  id_Client : string;
  id_DealID : string;
  id_DealStartEpoch : Z;
  id_MinerID : string;
  id_PayloadCID : string;
  id_PaddedSize : Z
}.

(** contents of recovery_deallist.json *)
Record recoveredDeal := {
  rd_DealID : string;
  rd_ClientAddress : string;
  rd_MinerID : string;
  rd_PieceCID : string;
  rd_Label : string;
  rd_PayloadCIDb32 : string;
  rd_PaddedPieceSize : Z;
  rd_DataSize : Z;
  rd_DealStartEpoch : Z;
  rd_DealEndEpoch : Z;
  rd_RecoveryType : Z
}.

(** ** [strconv.ParseInt(s, 10, 64)]

    The program calls it as [didi, _ := strconv.ParseInt(id, 10, 64)]: the
    error is dropped and the returned value is used whatever it is. The
    function follows the documented behaviour of the Go library: on a
    syntax error the value is 0, on a range error it is the int64 of the
    largest magnitude and of the sign of the input. *)

Inductive NumError := ErrSyntax | ErrRange.

Definition digitVal (c : ascii) : option Z :=
  let n := Z.of_nat (nat_of_ascii c) in
  if (48 <=? n) && (n <=? 57) then Some (n - 48) else None.

(** The loop of [strconv.ParseUint] for the base 10 and 64 bits, from
    the number [n] read so far: a character that is no digit is a syntax
    error; a number that leaves the range is a range error, reported
    where the loop stands, before the characters that follow are read. *)
Fixpoint parseUintLoop (n : Z) (s : string) : Z * option NumError :=
  match s with
  | EmptyString => (n, None)
  | String c rest =>
      match digitVal c with
      | None => (0, Some ErrSyntax)
      | Some d =>
          if (2 ^ 64 - 1) / 10 + 1 <=? n then (2 ^ 64 - 1, Some ErrRange)
          else
            let n1 := n * 10 + d in
            if 2 ^ 64 - 1 <? n1 then (2 ^ 64 - 1, Some ErrRange)
            else parseUintLoop n1 rest
      end
  end.

(** [strconv.ParseUint(s, 10, 64)] *)
Definition ParseUint (s : string) : Z * option NumError :=
  match s with
  | EmptyString => (0, Some ErrSyntax)
  | _ => parseUintLoop 0 s
  end.

(** [strconv.ParseInt(s, 10, 64)] *)
Definition ParseInt (s : string) : Z * option NumError :=
  match s with
  | EmptyString => (0, Some ErrSyntax)
  | String c rest =>
      let neg := Ascii.eqb c "-"%char in
      let s' := if Ascii.eqb c "+"%char || Ascii.eqb c "-"%char then rest else s in
      match ParseUint s' with
      | (_, Some ErrSyntax) => (0, Some ErrSyntax)
      | (un, _) =>
          let cutoff := 2 ^ 63 in
          if negb neg && (cutoff <=? un) then (cutoff - 1, Some ErrRange)
          else if neg && (cutoff <? un) then (- cutoff, Some ErrRange)
          else (if neg then - un else un, None)
      end
  end.

(** The decimal rendering of an integer, [strconv.FormatInt(z, 10)]: the
    form in which the node gives the ids of the deals. *)
Definition FormatInt (z : Z) : string := NilZero.string_of_int (Z.to_int z).

(** The number that the digits [d] continue from the number [acc]. *)
Fixpoint uintVal (acc : Z) (d : Decimal.uint) : Z :=
  match d with
  | Decimal.Nil => acc
  | Decimal.D0 d => uintVal (10 * acc) d
  | Decimal.D1 d => uintVal (10 * acc + 1) d
  | Decimal.D2 d => uintVal (10 * acc + 2) d
  | Decimal.D3 d => uintVal (10 * acc + 3) d
  | Decimal.D4 d => uintVal (10 * acc + 4) d
  | Decimal.D5 d => uintVal (10 * acc + 5) d
  | Decimal.D6 d => uintVal (10 * acc + 6) d
  | Decimal.D7 d => uintVal (10 * acc + 7) d
  | Decimal.D8 d => uintVal (10 * acc + 8) d
  | Decimal.D9 d => uintVal (10 * acc + 9) d
  end.

(** ** Package-level constants *)

Definition defaultPhaseStart : Z := 1623840.
Definition recoveryStart : Z := 1381920.

(** [if cctx.Int64("phasestart-epoch") > 0 { currentPhaseStart = ... }] *)
Definition phaseStartOf (phasestartEpochFlag : Z) : Z :=
  if 0 <? phasestartEpochFlag then phasestartEpochFlag else defaultPhaseStart.

(** The wallet of the TEMP WORKAROUND in the loop. *)
Definition workaroundWallet : string := "f17ia7m5mvizrdug3sqtevqw3tifiqvxqr3kdaeuq".

(** ** [sort.Slice]

    The program sorts with [sort.Slice(x, less)] of the Go library, where
    every [less(i, j)] it passes compares the elements found at positions
    [i] and [j]. What the library promises is taken as an interface:
    the result is a rearrangement of the slice, it is in order when [less]
    is the transitive ordering the library asks for, and the library looks
    at the data through [less] on the elements of the slice only. The
    library does not promise a stable sort. *)

(** The ordering the library asks of [less]: nothing is less than
    itself; if [less x y] and [less y z] then [less x z]; and if neither
    [less x y] nor [less y z] then not [less x z]. *)
Record StrictWeakOrder {A : Type} (less : A → A → bool) : Prop := {
  swo_irrefl : ∀ x, less x x = false;
  swo_trans : ∀ x y z, less x y = true → less y z = true → less x z = true;
  swo_incomp : ∀ x y z, less x y = false → less y z = false → less x z = false
}.

Class SliceSorter := {
  sort_Slice : ∀ {A : Type}, (A → A → bool) → list A → list A
}.

Record SliceSorterLaws (sorter : SliceSorter) : Prop := {
  sort_Slice_Permutation :
    ∀ {A : Type} (less : A → A → bool) (l : list A), sort_Slice less l ≡ₚ l;
  sort_Slice_Sorted :
    ∀ {A : Type} (less : A → A → bool) (l : list A),
      StrictWeakOrder less →
      StronglySorted (λ x y, less y x = false) (sort_Slice less l);
  sort_Slice_ext :
    ∀ {A : Type} (less less' : A → A → bool) (l : list A),
      (∀ x y, x ∈ l → y ∈ l → less x y = less' x y) →
      sort_Slice less l = sort_Slice less' l
}.

Arguments sort_Slice_Permutation {sorter} _ {A} less l.
Arguments sort_Slice_Sorted {sorter} _ {A} less l _.
Arguments sort_Slice_ext {sorter} _ {A} less less' l _.

(** ** The state of the loop over [orderedDealList] *)

Record loopState := {
  resolvedWallets : gmap Address Address;
  recoveredDeals : list recoveredDeal;
  projStats : gmap string projectAggregateStats;
  projDealLists : gmap string (list individualDeal);
  grandTotals : competitionTotal
}.

Definition withResolvedWallets (st : loopState) (m : gmap Address Address) : loopState :=
  {| resolvedWallets := m; recoveredDeals := recoveredDeals st;
     projStats := projStats st; projDealLists := projDealLists st;
     grandTotals := grandTotals st |}.

Definition withRecoveredDeals (st : loopState) (l : list recoveredDeal) : loopState :=
  {| resolvedWallets := resolvedWallets st; recoveredDeals := l;
     projStats := projStats st; projDealLists := projDealLists st;
     grandTotals := grandTotals st |}.

Definition withProjStats (st : loopState) (m : gmap string projectAggregateStats) : loopState :=
  {| resolvedWallets := resolvedWallets st; recoveredDeals := recoveredDeals st;
     projStats := m; projDealLists := projDealLists st;
     grandTotals := grandTotals st |}.

Definition withGrandTotals (st : loopState) (gt : competitionTotal) : loopState :=
  {| resolvedWallets := resolvedWallets st; recoveredDeals := recoveredDeals st;
     projStats := projStats st; projDealLists := projDealLists st;
     grandTotals := gt |}.

(** [grandTotals.seenProject[projID] = true] *)
Definition markProject (gt : competitionTotal) (projID : string) : competitionTotal :=
  {| UniqueCids := UniqueCids gt; UniqueProviders := UniqueProviders gt;
     UniqueProjects := UniqueProjects gt; UniqueClients := UniqueClients gt;
     TotalDeals := TotalDeals gt; TotalBytes := TotalBytes gt;
     FilplusTotalDeals := FilplusTotalDeals gt;
     FilplusTotalBytes := FilplusTotalBytes gt;
     seenProject := <[projID := true]> (seenProject gt);
     seenClient := seenClient gt; seenProvider := seenProvider gt;
     seenPieceCid := seenPieceCid gt |}.

(** The entry made for a project on its first participant-matched deal. *)
Definition newProjStat (projID : string) : projectAggregateStats :=
  {| ps_ProjectID := projID; ps_DataSizeMaxProvider := 0;
     ps_HighestCidDealCount := 0; ps_DataSize := 0; ps_NumCids := 0;
     ps_NumDeals := 0; ps_NumProviders := 0; ps_ClientStats := ∅;
     ps_dataPerProvider := ∅; ps_timesSeenPieceCid := ∅;
     ps_timesSeenPieceCidAllTime := ∅ |}.

Definition newClientStat (clientAddr : string) : clientAggregateStats :=
  {| cs_Client := clientAddr; cs_DataSize := 0; cs_NumCids := 0;
     cs_NumDeals := 0; cs_NumProviders := 0; cs_providers := ∅; cs_cids := ∅ |}.

(** [projStatEntry.timesSeenPieceCidAllTime[pieceCID]++] *)
Definition bumpAllTime (e : projectAggregateStats) (pieceCID : Cid) : projectAggregateStats :=
  {| ps_ProjectID := ps_ProjectID e;
     ps_DataSizeMaxProvider := ps_DataSizeMaxProvider e;
     ps_HighestCidDealCount := ps_HighestCidDealCount e;
     ps_DataSize := ps_DataSize e; ps_NumCids := ps_NumCids e;
     ps_NumDeals := ps_NumDeals e; ps_NumProviders := ps_NumProviders e;
     ps_ClientStats := ps_ClientStats e;
     ps_dataPerProvider := ps_dataPerProvider e;
     ps_timesSeenPieceCid := ps_timesSeenPieceCid e;
     ps_timesSeenPieceCidAllTime :=
       <[pieceCID := getZ (ps_timesSeenPieceCidAllTime e) pieceCID + 1]>
         (ps_timesSeenPieceCidAllTime e) |}.

(** [dealInfo.Proposal.EndEpoch - dealInfo.Proposal.StartEpoch] *)
Definition dealDuration (d : MarketDeal) : Z :=
  sub64 (EndEpoch (Proposal d)) (StartEpoch (Proposal d)).

(** The test of the first loop, under which a deal is not appended to
    [orderedDealList]. *)
Definition notLive (height : Z) (d : MarketDeal) : bool :=
  (SectorStartEpoch (State d) <=? 0)
  || (height <? SectorStartEpoch (State d))
  || (-1 <? SlashEpoch (State d)).

Section Rollup.

Context {sorter : SliceSorter}.

(** [builtin.EpochsInDay] of specs-actors, a constant of a dependency. *)
Variable EpochsInDay : Z.

(** [api.StateAccountKey(ctx, client, ts.Key())]; [None] is an error. *)
Variable StateAccountKey : Address → option Address.

(** [cid.Parse(label)]: on success the pair of [c.String()] and
    [cid.NewCidV1(c.Type(), c.Hash()).String()]; [None] is an error. *)
Variable cid_Parse : string → option (string * string).

(** [ts.Height()], [currentPhaseStart] as left by the flag, and the two
    registries. *)
Variable height : Z.
Variable currentPhaseStart : Z.
Variable knownAddrMap : gmap Address string.
Variable knownRestoreClients : gmap Address unit.

(** [deals], the result of [api.StateMarketDeals]. *)
Variable deals : gmap string MarketDeal.

(** *** The first loop and the sort *)

Definition liveIDs (order : list string) : list string :=
  filter (λ dealID, notLive height (lookupDeal deals dealID) = false) order.

(** The [less] closure given to [sort.Slice(orderedDealList, ...)], on
    the elements at the two positions. *)
Definition dealLess (idi idj : string) : bool :=
  let di := lookupDeal deals idi in
  let dj := lookupDeal deals idj in
  if negb (SectorStartEpoch (State di) =? SectorStartEpoch (State dj)) then
    SectorStartEpoch (State di) <? SectorStartEpoch (State dj)
  else if negb (StartEpoch (Proposal di) =? StartEpoch (Proposal dj)) then
    StartEpoch (Proposal di) <? StartEpoch (Proposal dj)
  else
    let didi := fst (ParseInt idi) in
    let didj := fst (ParseInt idj) in
    didi <? didj.

(** [orderedDealList] as the second loop iterates it; [order] is the
    order in which [range deals] yields the keys. *)
Definition orderedDealList (order : list string) : list string :=
  sort_Slice dealLess (liveIDs order).

(** *** The body of the second loop *)

(** Lines 307-312: the payload cids of a deal, "unknown" when the label
    does not decode. *)
Definition payloadCids (dealInfo : MarketDeal) : string * string :=
  match cid_Parse (Label (Proposal dealInfo)) with
  | Some cc => cc
  | None => ("unknown", "unknown")
  end.

(** Lines 314-324: the cache of resolved wallets, then the node. *)
Definition resolveClient (st : loopState) (client : Address)
  : option (Address * loopState) :=
  match resolvedWallets st !! client with
  | Some clientAddr => Some (clientAddr, st)
  | None =>
      match StateAccountKey client with
      | None => None
      | Some clientAddr =>
          Some (clientAddr,
                withResolvedWallets st (<[client := clientAddr]> (resolvedWallets st)))
      end
  end.

(** Lines 326-328 *)
Definition isRecover (clientAddr : Address) (dealInfo : MarketDeal) : bool :=
  bool_decide (is_Some (knownRestoreClients !! clientAddr))
  && (recoveryStart <=? SectorStartEpoch (State dealInfo))
  && (EpochsInDay * 499 <? dealDuration dealInfo).

Definition mkRecoveredDeal (dealID : string) (clientAddr : Address)
    (payloadCidB32 : string) (dealInfo : MarketDeal) : recoveredDeal :=
  {| rd_DealID := dealID;
     rd_ClientAddress := clientAddr;
     rd_MinerID := Provider (Proposal dealInfo);
     rd_PieceCID := PieceCID (Proposal dealInfo);
     rd_Label := Label (Proposal dealInfo);
     rd_PayloadCIDb32 := payloadCidB32;
     rd_PaddedPieceSize := PieceSize (Proposal dealInfo);
     rd_DataSize := PieceSize (Proposal dealInfo);
     rd_DealStartEpoch := StartEpoch (Proposal dealInfo);
     rd_DealEndEpoch := EndEpoch (Proposal dealInfo);
     rd_RecoveryType := 1 |}.

(** Lines 345-347, the TEMP WORKAROUND *)
Definition isWorkaround (clientAddr : Address) (dealInfo : MarketDeal) : bool :=
  String.eqb clientAddr workaroundWallet
  && (recoveryStart <=? SectorStartEpoch (State dealInfo)).

(** Lines 383-423: the deal is folded into the totals. [projStatEntry]
    is the entry of the project as it stands in [projStats]. *)
Definition countDeal (st : loopState) (dealID projID : string)
    (clientAddr : Address) (payloadCid : string) (dealInfo : MarketDeal)
    (projStatEntry : projectAggregateStats) : loopState :=
  let prop := Proposal dealInfo in
  let size := int64_of_uint64 (PieceSize prop) in
  let gt := grandTotals st in
  let clientStatEntry :=
    match ps_ClientStats projStatEntry !! clientAddr with
    | Some e => e
    | None => newClientStat clientAddr
    end in
  let gt' :=
    {| UniqueCids := UniqueCids gt; UniqueProviders := UniqueProviders gt;
       UniqueProjects := UniqueProjects gt; UniqueClients := UniqueClients gt;
       TotalDeals := TotalDeals gt + 1;
       TotalBytes := add64 (TotalBytes gt) size;
       FilplusTotalDeals :=
         if VerifiedDeal prop then FilplusTotalDeals gt + 1
         else FilplusTotalDeals gt;
       FilplusTotalBytes :=
         if VerifiedDeal prop then add64 (FilplusTotalBytes gt) size
         else FilplusTotalBytes gt;
       seenProject := seenProject gt;
       seenClient := <[clientAddr := true]> (seenClient gt);
       seenProvider := <[Provider prop := true]> (seenProvider gt);
       seenPieceCid := <[PieceCID prop := true]> (seenPieceCid gt) |} in
  let cs' :=
    {| cs_Client := cs_Client clientStatEntry;
       cs_DataSize := add64 (cs_DataSize clientStatEntry) size;
       cs_NumCids := cs_NumCids clientStatEntry;
       cs_NumDeals := cs_NumDeals clientStatEntry + 1;
       cs_NumProviders := cs_NumProviders clientStatEntry;
       cs_providers := <[Provider prop := true]> (cs_providers clientStatEntry);
       cs_cids := <[PieceCID prop := true]> (cs_cids clientStatEntry) |} in
  let ps' :=
    {| ps_ProjectID := ps_ProjectID projStatEntry;
       ps_DataSizeMaxProvider := ps_DataSizeMaxProvider projStatEntry;
       ps_HighestCidDealCount := ps_HighestCidDealCount projStatEntry;
       ps_DataSize := add64 (ps_DataSize projStatEntry) size;
       ps_NumCids := ps_NumCids projStatEntry;
       ps_NumDeals := ps_NumDeals projStatEntry + 1;
       ps_NumProviders := ps_NumProviders projStatEntry;
       ps_ClientStats := <[clientAddr := cs']> (ps_ClientStats projStatEntry);
       ps_dataPerProvider :=
         <[Provider prop :=
             add64 (getZ (ps_dataPerProvider projStatEntry) (Provider prop)) size]>
           (ps_dataPerProvider projStatEntry);
       ps_timesSeenPieceCid :=
         <[PieceCID prop :=
             getZ (ps_timesSeenPieceCid projStatEntry) (PieceCID prop) + 1]>
           (ps_timesSeenPieceCid projStatEntry);
       ps_timesSeenPieceCidAllTime := ps_timesSeenPieceCidAllTime projStatEntry |} in
  {| resolvedWallets := resolvedWallets st;
     recoveredDeals := recoveredDeals st;
     projStats := <[projID := ps']> (projStats st);
     projDealLists :=
       <[projID := (default [] (projDealLists st !! projID) ++
                   [ {| id_ProjectID := projID;
                        id_Client := clientAddr;
                        id_DealID := dealID;
                        id_DealStartEpoch := SectorStartEpoch (State dealInfo);
                        id_MinerID := Provider prop;
                        id_PayloadCID := payloadCid;
                        id_PaddedSize := size |} ])%list]>
         (projDealLists st);
     grandTotals := gt' |}.

(** Lines 326-423: the rest of the iteration, once the client of the
    deal is resolved to [clientAddr]. *)
Definition processResolved (st : loopState) (dealID : string)
    (clientAddr : Address) (payloadCid payloadCidB32 : string)
    (dealInfo : MarketDeal) : loopState :=
  let st :=
    if isRecover clientAddr dealInfo then
      withRecoveredDeals st
        (recoveredDeals st ++
         [mkRecoveredDeal dealID clientAddr payloadCidB32 dealInfo])
    else st in
  if isWorkaround clientAddr dealInfo then st else
  match knownAddrMap !! clientAddr with
  | None => st
  | Some projID =>
      let projStatEntry :=
        match projStats st !! projID with
        | Some e => e
        | None => newProjStat projID
        end in
      let pieceCID := PieceCID (Proposal dealInfo) in
      let projStatEntry := bumpAllTime projStatEntry pieceCID in
      let st := withProjStats st (<[projID := projStatEntry]> (projStats st)) in
      if SectorStartEpoch (State dealInfo) <? currentPhaseStart then st else
      if dealDuration dealInfo <? EpochsInDay * 360 then st else
      let st := withGrandTotals st (markProject (grandTotals st) projID) in
      if 10 <=? getZ (ps_timesSeenPieceCidAllTime projStatEntry) pieceCID then st
      else countDeal st dealID projID clientAddr payloadCid dealInfo projStatEntry
  end.

(** Lines 303-424, one iteration. *)
Definition processDeal (st : loopState) (dealID : string) : loopState :=
  let dealInfo := lookupDeal deals dealID in
  let '(payloadCid, payloadCidB32) := payloadCids dealInfo in
  match resolveClient st (Client (Proposal dealInfo)) with
  | None => st
  | Some (clientAddr, st) =>
      processResolved st dealID clientAddr payloadCid payloadCidB32 dealInfo
  end.

Definition processDeals (st : loopState) (l : list string) : loopState :=
  foldl processDeal st l.

(** *** After the loop *)

(** [sort.Slice(dl, func(i, j) { return dl[j].PaddedSize < dl[i].PaddedSize })] *)
Definition sizeLess (di dj : individualDeal) : bool :=
  id_PaddedSize dj <? id_PaddedSize di.

(** [for _, v := range m { if acc < v { acc = v } }] *)
Definition maxOver (acc : Z) (m : gmap string Z) : Z :=
  map_fold (λ _ v acc, if acc <? v then v else acc) acc m.

Definition finalizeClient (cs : clientAggregateStats) : clientAggregateStats :=
  {| cs_Client := cs_Client cs; cs_DataSize := cs_DataSize cs;
     cs_NumCids := len (cs_cids cs);
     cs_NumDeals := cs_NumDeals cs;
     cs_NumProviders := len (cs_providers cs);
     cs_providers := cs_providers cs; cs_cids := cs_cids cs |}.

(** Lines 490-508 for one project. *)
Definition finalizeProject (ps : projectAggregateStats) : projectAggregateStats :=
  {| ps_ProjectID := ps_ProjectID ps;
     ps_DataSizeMaxProvider :=
       maxOver (ps_DataSizeMaxProvider ps) (ps_dataPerProvider ps);
     ps_HighestCidDealCount :=
       maxOver (ps_HighestCidDealCount ps) (ps_timesSeenPieceCid ps);
     ps_DataSize := ps_DataSize ps;
     ps_NumCids := len (ps_timesSeenPieceCid ps);
     ps_NumDeals := ps_NumDeals ps;
     ps_NumProviders := len (ps_dataPerProvider ps);
     ps_ClientStats := finalizeClient <$> ps_ClientStats ps;
     ps_dataPerProvider := ps_dataPerProvider ps;
     ps_timesSeenPieceCid := ps_timesSeenPieceCid ps;
     ps_timesSeenPieceCidAllTime := ps_timesSeenPieceCidAllTime ps |}.

(** Lines 461-464 *)
Definition finalizeTotals (gt : competitionTotal) : competitionTotal :=
  {| UniqueCids := len (seenPieceCid gt);
     UniqueProviders := len (seenProvider gt);
     UniqueProjects := len (seenProject gt);
     UniqueClients := len (seenClient gt);
     TotalDeals := TotalDeals gt; TotalBytes := TotalBytes gt;
     FilplusTotalDeals := FilplusTotalDeals gt;
     FilplusTotalBytes := FilplusTotalBytes gt;
     seenProject := seenProject gt; seenClient := seenClient gt;
     seenProvider := seenProvider gt; seenPieceCid := seenPieceCid gt |}.

Definition emptyTotals : competitionTotal :=
  {| UniqueCids := 0; UniqueProviders := 0; UniqueProjects := 0;
     UniqueClients := 0; TotalDeals := 0; TotalBytes := 0;
     FilplusTotalDeals := 0; FilplusTotalBytes := 0;
     seenProject := ∅; seenClient := ∅; seenProvider := ∅; seenPieceCid := ∅ |}.

(** The state in which the loop starts: [resolvedWallets] is the
    package-level map, empty when the process starts. *)
Definition initialState : loopState :=
  {| resolvedWallets := ∅; recoveredDeals := []; projStats := ∅;
     projDealLists := ∅; grandTotals := emptyTotals |}.

(** The state after the loop over [orderedDealList]. *)
Definition finalState (order : list string) : loopState :=
  processDeals initialState (orderedDealList order).

End Rollup.

(** What the four kinds of output files carry as payload. *)
Record rollupOutput := {
  basic_stats : competitionTotal;
  client_stats : gmap string projectAggregateStats;
  deals_list : gmap string (list individualDeal);
  recovery_deallist : list recoveredDeal
}.

Section RollupOutput.

Context {sorter : SliceSorter}.
Variable EpochsInDay : Z.
Variable StateAccountKey : Address → option Address.
Variable cid_Parse : string → option (string * string).

(** The [Action] of the [rollup] command from the first loop on. *)
Definition rollup (height currentPhaseStart : Z)
    (knownAddrMap : gmap Address string)
    (knownRestoreClients : gmap Address unit)
    (deals : gmap string MarketDeal) (order : list string) : rollupOutput :=
  let st := finalState EpochsInDay StateAccountKey cid_Parse height
              currentPhaseStart knownAddrMap knownRestoreClients deals order in
  {| basic_stats := finalizeTotals (grandTotals st);
     client_stats := finalizeProject <$> projStats st;
     deals_list := sort_Slice sizeLess <$> projDealLists st;
     recovery_deallist := recoveredDeals st |}.

End RollupOutput.

(** ** [getAndParseProjectList]

    One element of the "payload" array of the project list as the JSON
    document holds it. [pe_curatedDataset] is [None] when the field is
    not a collection, for which [Children()] returns an error. *)
Record projectEntry := {
  pe_project : string;
  pe_address : string;
  pe_curatedDataset : option (list string)
}.

Section ProjectList.

(** [address.NewFromString]; [None] is an error. *)
Variable address_NewFromString : string → option Address.

(** The loop labelled [knownProject], on the map [ret] built so far;
    [None] is the error return. *)
Fixpoint knownProject (proj : list projectEntry) (ret : gmap Address string)
  : option (gmap Address string) :=
  match proj with
  | [] => Some ret
  | p :: proj =>
      match address_NewFromString (pe_address p) with
      | None => None
      | Some a =>
          match pe_curatedDataset p with
          | None => None
          | Some dsets =>
              if existsb (λ dset, String.eqb dset "landsat-8") dsets
              then knownProject proj ret
              else knownProject proj (<[a := pe_project p]> ret)
          end
      end
  end.

Definition getAndParseProjectList (proj : list projectEntry)
  : option (gmap Address string) :=
  match knownProject proj ∅ with
  | None => None
  | Some ret => if len ret =? 0 then None else Some ret
  end.

End ProjectList.

(** ** The order of [range deals]

    The first loop ranges over the map [deals]; Go leaves the order of
    that iteration open. A run is given this order as the list of the
    keys, each once. *)
Definition rangeOrder (deals : gmap string MarketDeal) (order : list string) : Prop :=
  NoDup order ∧ dom deals = list_to_set order.

(** ** A sorter: the small-slice path of the Go library

    For a slice of at most twelve elements, [sort.Slice] of the Go
    version the module declares ([go 1.15]) runs one pass of exchanges
    at distance 6 and then an insertion sort, both through
    [data.Less(i, j)] and [data.Swap(i, j)] on positions. The functions
    below are these loops; run on a list of any length they still sort,
    so they are a [SliceSorter]. *)

Module GoSort.

Section WithLess.

Context {A : Type} (less : A → A → bool).

(** [data.Less(i, j)] and [data.Swap(i, j)]; the loops below keep every
    position inside the slice. *)
Definition Less (data : list A) (i j : nat) : bool :=
  match data !! i, data !! j with
  | Some x, Some y => less x y
  | _, _ => false
  end.

Definition Swap (data : list A) (i j : nat) : list A :=
  match data !! i, data !! j with
  | Some x, Some y => <[j := x]> (<[i := y]> data)
  | _, _ => data
  end.

(** [for j := i; j > a && data.Less(j, j-1); j-- { data.Swap(j, j-1) }] *)
Fixpoint sink (data : list A) (j : nat) : list A :=
  match j with
  | O => data
  | S j' => if Less data j j' then sink (Swap data j j') j' else data
  end.

(** [for i := a + 1; i < b; i++ { ... }], with [n] iterations to go. *)
Fixpoint insertionFrom (data : list A) (i n : nat) : list A :=
  match n with
  | O => data
  | S n' => insertionFrom (sink data i) (S i) n'
  end.

Definition insertionSort_func (data : list A) : list A :=
  insertionFrom data 1 (length data - 1).

(** [for i := a + 6; i < b; i++ { if data.Less(i, i-6) { data.Swap(i, i-6) } }] *)
Fixpoint shellFrom (data : list A) (i n : nat) : list A :=
  match n with
  | O => data
  | S n' =>
      shellFrom (if Less data i (i - 6) then Swap data i (i - 6) else data) (S i) n'
  end.

Definition shellPass (data : list A) : list A :=
  shellFrom data 6 (length data - 6).

(** [if b-a > 1 { shell pass; insertionSort_func(data, a, b) }] *)
Definition quickSort_small (data : list A) : list A :=
  if decide (1 < length data)%nat then insertionSort_func (shellPass data)
  else data.

End WithLess.

End GoSort.

(** The sorter of the Go version the module declares, on its small-slice
    path. *)
#[export] Instance go115_small : SliceSorter := {|
  sort_Slice := @GoSort.quickSort_small
|}.

(** ** Notions used in the statements *)

(** Two orderings agree on the elements of a list. *)
Definition agreeOn {A : Type} (less less' : A → A → bool) (data : list A) : Prop :=
  ∀ x y, x ∈ data → y ∈ data → less x y = less' x y.

(** The participant's all-time seen-count of a piece cid in a loop state. *)
Definition allTimeTally (st : loopState) (projID : string) (pieceCID : Cid) : Z :=
  match projStats st !! projID with
  | Some e => getZ (ps_timesSeenPieceCidAllTime e) pieceCID
  | None => 0
  end.

(** The cache of resolved wallets holds answers of the node only. *)
Definition cacheOK (StateAccountKey : Address → option Address) (st : loopState) : Prop :=
  ∀ h w, resolvedWallets st !! h = Some w → StateAccountKey h = Some w.

(** The sort key of a deal id: sector start, proposal start, parsed id. *)
Definition dealKey (deals : gmap string MarketDeal) (dealID : string) : Z * Z * Z :=
  (SectorStartEpoch (State (lookupDeal deals dealID)),
   StartEpoch (Proposal (lookupDeal deals dealID)),
   fst (ParseInt dealID)).

(** The lexicographic order on the keys. *)
Definition keyLe (k1 k2 : Z * Z * Z) : Prop :=
  let '(a1, b1, c1) := k1 in
  let '(a2, b2, c2) := k2 in
  a1 < a2 ∨ (a1 = a2 ∧ (b1 < b2 ∨ (b1 = b2 ∧ c1 <= c2))).

(** The sort key as the specification words it: a deal id that fails to
    parse has the numeric key 0. *)
Definition statedKey (deals : gmap string MarketDeal) (dealID : string) : Z * Z * Z :=
  (SectorStartEpoch (State (lookupDeal deals dealID)),
   StartEpoch (Proposal (lookupDeal deals dealID)),
   match (ParseInt dealID).2 with
   | None => (ParseInt dealID).1
   | Some _ => 0
   end).

(** Every live deal id is the decimal rendering of an [int64]. *)
Definition canonicalIDs (height : Z) (deals : gmap string MarketDeal)
    (order : list string) : Prop :=
  ∀ dealID, dealID ∈ liveIDs height deals order →
            ∃ z, in_int64 z ∧ dealID = FormatInt z.

(** No two live deals share the three parts of the sort key. *)
Definition distinctKeys (height : Z) (deals : gmap string MarketDeal)
    (order : list string) : Prop :=
  ∀ a b, a ∈ liveIDs height deals order → b ∈ liveIDs height deals order →
         dealKey deals a = dealKey deals b → a = b.

(** The order of deals of one piece size is the same in two lists: what
    a stable sort by piece size keeps. *)
Definition sameOrderOnTies (acc dl : list individualDeal) : Prop :=
  ∀ size, filter (λ x, id_PaddedSize x = size) dl
          = filter (λ x, id_PaddedSize x = size) acc.

(** The deals counted for a piece cid never exceed the all-time tally of
    that piece cid nor 9, and the maximum is not set before the end. *)
Definition tallyInv (st : loopState) : Prop :=
  ∀ projID e, projStats st !! projID = Some e →
    ps_HighestCidDealCount e = 0 ∧
    ∀ c, getZ (ps_timesSeenPieceCid e) c <= getZ (ps_timesSeenPieceCidAllTime e) c ∧
         getZ (ps_timesSeenPieceCid e) c <= 9.

(** What one iteration appends to [recoveredDeals]. *)
Definition recoveryOf (EpochsInDay : Z)
    (StateAccountKey : Address → option Address)
    (cid_Parse : string → option (string * string))
    (knownRestoreClients : gmap Address unit)
    (deals : gmap string MarketDeal) (dealID : string) : list recoveredDeal :=
  let d := lookupDeal deals dealID in
  match StateAccountKey (Client (Proposal d)) with
  | None => []
  | Some w =>
      if isRecover EpochsInDay knownRestoreClients w d
      then [mkRecoveredDeal dealID w (payloadCids cid_Parse d).2 d]
      else []
  end.

(** The deals counted for a participant, and the ids of the deals of its
    accumulated deal list, in a loop state. *)
Definition numDealsOf (st : loopState) (projID : string) : Z :=
  match projStats st !! projID with
  | Some e => ps_NumDeals e
  | None => 0
  end.

Definition dealIDsOf (st : loopState) (projID : string) : list string :=
  id_DealID <$> default [] (projDealLists st !! projID).

(** A deal of the participant [projID] and of the piece [pieceCID] that
    passes every gate before the cap. *)
Definition qualifies (EpochsInDay : Z)
    (StateAccountKey : Address → option Address) (currentPhaseStart : Z)
    (knownAddrMap : gmap Address string) (deals : gmap string MarketDeal)
    (projID : string) (pieceCID : Cid) (dealID : string) : Prop :=
  ∃ w,
    StateAccountKey (Client (Proposal (lookupDeal deals dealID))) = Some w ∧
    isWorkaround w (lookupDeal deals dealID) = false ∧
    knownAddrMap !! w = Some projID ∧
    PieceCID (Proposal (lookupDeal deals dealID)) = pieceCID ∧
    currentPhaseStart <= SectorStartEpoch (State (lookupDeal deals dealID)) ∧
    EpochsInDay * 360 <= dealDuration (lookupDeal deals dealID).

(** The loop state after the deals [seen], all of which qualify, when no
    other deal was processed. *)
Definition capInv (StateAccountKey : Address → option Address)
    (projID : string) (pieceCID : Cid) (seen : list string)
    (st : loopState) : Prop :=
  cacheOK StateAccountKey st ∧
  allTimeTally st projID pieceCID = Z.of_nat (length seen) ∧
  TotalDeals (grandTotals st) = Z.min (Z.of_nat (length seen)) 9 ∧
  numDealsOf st projID = Z.min (Z.of_nat (length seen)) 9 ∧
  dealIDsOf st projID = take 9 seen.

(** ** Concrete data for the examples *)

Module Scenario.

Definition EpochsInDay : Z := 2880.

Definition mkDeal (piece : Cid) (size : Z) (client provider : Address)
    (startEpoch endEpoch sectorStart slash : Z) : MarketDeal :=
  {| Proposal := {| PieceCID := piece; PieceSize := size; VerifiedDeal := false;
                    Client := client; Provider := provider; Label := "label";
                    StartEpoch := startEpoch; EndEpoch := endEpoch |};
     State := {| SectorStartEpoch := sectorStart; LastUpdatedEpoch := 0;
                 SlashEpoch := slash |} |}.

(** The node resolves the id address f0100 to the wallet f1alice, f0200
    to f1bob, f0300 to the wallet of the workaround, and nothing else. *)
Definition StateAccountKey (client : Address) : option Address :=
  if String.eqb client "f0100" then Some "f1alice"
  else if String.eqb client "f0200" then Some "f1bob"
  else if String.eqb client "f0300" then Some workaroundWallet
  else None.

(** No label decodes to a cid. *)
Definition cid_Parse (label : string) : option (string * string) := None.

Definition height : Z := 2000000.

Definition knownAddrMap : gmap Address string := {["f1alice" := "projA"]}.

Definition knownRestoreClients : gmap Address unit := {["f1bob" := tt]}.

(** A deal of 32 GiB that lasts exactly 360 days and whose sector starts
    exactly at the start of the phase. *)
Definition boundaryDeal : MarketDeal :=
  mkDeal "piece1" 34359738368 "f0100" "f01000"
    1623000 (1623000 + 360 * 2880) defaultPhaseStart (-1).

Definition boundaryDeals : gmap string MarketDeal := {["7" := boundaryDeal]}.

End Scenario.

Module OrderScenario.

Import Scenario.

(** Two deals of one sector start and one proposal start; the id of the
    second is a decimal numeral one above the largest [int64]. *)
Definition bigIdDeals : gmap string MarketDeal :=
  {[ "5" := mkDeal "piece1" 1024 "f0100" "f01000" 1700000 2800000 1700000 (-1);
     "9223372036854775808" :=
       mkDeal "piece2" 1024 "f0100" "f01000" 1700000 2800000 1700000 (-1) ]}.

Definition bigIdOrder : list string := ["9223372036854775808"; "5"].

(** Three deals with ids that parse, in two iteration orders. *)
Definition plainDeals : gmap string MarketDeal :=
  {[ "1" := mkDeal "piece1" 1024 "f0100" "f01000" 1700000 2800000 1700000 (-1);
     "2" := mkDeal "piece2" 2048 "f0100" "f01000" 1700000 2800000 1700000 (-1);
     "3" := mkDeal "piece3" 1024 "f0200" "f01000" 1700000 3200000 1700000 (-1) ]}.

Definition plainOrder1 : list string := ["1"; "2"; "3"].
Definition plainOrder2 : list string := ["3"; "1"; "2"].

(** Two deals that differ in nothing but their ids, neither of which
    parses. *)
Definition tieDeals : gmap string MarketDeal :=
  {[ "a" := mkDeal "piece1" 1024 "f0100" "f01000" 1700000 2800000 1700000 (-1);
     "b" := mkDeal "piece1" 1024 "f0100" "f01000" 1700000 2800000 1700000 (-1) ]}.

End OrderScenario.

Module ListScenario.

Import Scenario.

(** Seven counted deals of one participant, classified in the order of
    their ids; the first six of 1 GiB, the last of 2 GiB. *)
Definition sevenDeals : gmap string MarketDeal :=
  {[ "1" := mkDeal "piece1" 1073741824 "f0100" "f01000" 1700000 2800000 1700001 (-1);
     "2" := mkDeal "piece2" 1073741824 "f0100" "f01000" 1700000 2800000 1700002 (-1);
     "3" := mkDeal "piece3" 1073741824 "f0100" "f01000" 1700000 2800000 1700003 (-1);
     "4" := mkDeal "piece4" 1073741824 "f0100" "f01000" 1700000 2800000 1700004 (-1);
     "5" := mkDeal "piece5" 1073741824 "f0100" "f01000" 1700000 2800000 1700005 (-1);
     "6" := mkDeal "piece6" 1073741824 "f0100" "f01000" 1700000 2800000 1700006 (-1);
     "7" := mkDeal "piece7" 2147483648 "f0100" "f01000" 1700000 2800000 1700007 (-1) ]}.

Definition sevenOrder : list string := ["1"; "2"; "3"; "4"; "5"; "6"; "7"].

End ListScenario.

Module LiveScenario.

Import Scenario.

(** One live deal (1) and three that are not: the sector of 2 has not
    started, the sector of 3 starts after the height of the tipset, and
    the sector of 4 is terminated. *)
Definition mixedDeals : gmap string MarketDeal :=
  {[ "1" := mkDeal "piece1" 1024 "f0100" "f01000" 1700000 2800000 1700000 (-1);
     "2" := mkDeal "piece1" 1024 "f0100" "f01000" 1700000 2800000 0 (-1);
     "3" := mkDeal "piece1" 1024 "f0200" "f01000" 1700000 3200000 2000001 (-1);
     "4" := mkDeal "piece1" 1024 "f0200" "f01000" 1700000 3200000 1700000 0 ]}.

Definition mixedOrder : list string := ["4"; "3"; "2"; "1"].

End LiveScenario.

Module RecoveryScenario.

Import Scenario.

(** A deal of 500 days of a wallet of the recovery registry that is no
    participant. *)
Definition recoveryDeals : gmap string MarketDeal :=
  {[ "11" := mkDeal "piece1" 1024 "f0200" "f01000"
               1700000 (1700000 + 500 * 2880) 1700000 (-1) ]}.

(** A deal of 500 days of the wallet of the workaround, which is in both
    registries here. *)
Definition excludedDeals : gmap string MarketDeal :=
  {[ "12" := mkDeal "piece1" 1024 "f0300" "f01000"
               1700000 (1700000 + 500 * 2880) 1700000 (-1) ]}.

Definition bothRegistries : gmap Address string * gmap Address unit :=
  ({[workaroundWallet := "projW"]}, {[workaroundWallet := tt]}).

End RecoveryScenario.

Module CapScenario.

Import Scenario.

Definition capIDs : list string :=
  ["1"; "2"; "3"; "4"; "5"; "6"; "7"; "8"; "9"; "10"; "11"].

(** The deal number [i] of a client: one piece cid for all, 360 days and
    more, sector started at [sectorStart + i]. *)
Definition capDeal (client : Address) (sectorStart i : Z) : MarketDeal :=
  mkDeal "piece1" 1024 client "f01000" 1700000 2800000 (sectorStart + i) (-1).

(** Eleven deals of one client with one piece cid, all in the phase. *)
Definition capDeals (client : Address) : gmap string MarketDeal :=
  list_to_map
    (zip capIDs (capDeal client 1700000 <$> [1; 2; 3; 4; 5; 6; 7; 8; 9; 10; 11])).

(** A registry in which the wallet of the workaround is a participant. *)
Definition workaroundAddrMap : gmap Address string :=
  {[workaroundWallet := "projW"]}.

(** Ten deals of one client with one piece cid: the sectors of the first
    nine started before the phase, the sector of the tenth in it. *)
Definition shadowDeals : gmap string MarketDeal :=
  list_to_map
    (zip (take 10 capIDs)
       ((capDeal "f0100" 1600000 <$> [1; 2; 3; 4; 5; 6; 7; 8; 9])
        ++ [capDeal "f0100" 1700000 10])).

End CapScenario.

Module RegistryScenario.

(** Every string is an address. *)
Definition address_NewFromString (s : string) : option Address := Some s.

(** One wallet in two entries, the first of which has the tag. *)
Definition twoEntries : list projectEntry :=
  [ {| pe_project := "projL"; pe_address := "f1alice";
       pe_curatedDataset := Some ["landsat-8"] |};
    {| pe_project := "projB"; pe_address := "f1alice";
       pe_curatedDataset := Some ["other"] |} ].

(** A wallet with the tag and another wallet without it. *)
Definition plainEntries : list projectEntry :=
  [ {| pe_project := "projL"; pe_address := "f1alice";
       pe_curatedDataset := Some ["sentinel-2"; "landsat-8"] |};
    {| pe_project := "projB"; pe_address := "f1bob";
       pe_curatedDataset := Some ["other"] |} ].

End RegistryScenario.

(** The list emitted for the participant of the seven deals. *)
Definition sevenEmitted : list individualDeal :=
  Eval vm_compute in
    default []
      (deals_list (rollup (sorter := go115_small) Scenario.EpochsInDay
         Scenario.StateAccountKey Scenario.cid_Parse Scenario.height
         defaultPhaseStart Scenario.knownAddrMap Scenario.knownRestoreClients
         ListScenario.sevenDeals ListScenario.sevenOrder) !! "projA").

(** The statistics of the participant of the eleven deals after the run. *)
Definition capStats : projectAggregateStats :=
  Eval vm_compute in
    default (newProjStat "")
      (client_stats (rollup (sorter := go115_small) Scenario.EpochsInDay
         Scenario.StateAccountKey Scenario.cid_Parse Scenario.height
         defaultPhaseStart Scenario.knownAddrMap Scenario.knownRestoreClients
         (CapScenario.capDeals "f0100") CapScenario.capIDs) !! "projA").

(** ** Notions used in the further properties *)

(** The sum of a list of integers. *)
Definition sumZ (l : list Z) : Z := foldr Z.add 0 l.

(** The sum of [f] over the values of a map. *)
Definition mapSum {V : Type} (f : V → Z) (m : gmap string V) : Z :=
  map_fold (λ _ v acc, f v + acc) 0 m.

(** Lines 415-423: the entry appended to the deal list of a participant. *)
Definition mkIndividualDeal (dealID projID : string) (clientAddr : Address)
    (payloadCid : string) (dealInfo : MarketDeal) : individualDeal :=
  {| id_ProjectID := projID;
     id_Client := clientAddr;
     id_DealID := dealID;
     id_DealStartEpoch := SectorStartEpoch (State dealInfo);
     id_MinerID := Provider (Proposal dealInfo);
     id_PayloadCID := payloadCid;
     id_PaddedSize := int64_of_uint64 (PieceSize (Proposal dealInfo)) |}.

(** Lines 383-408: the statistics of a wallet, of a participant and of
    the competition after one more deal is counted. *)
Definition countedClient (cs : clientAggregateStats) (dealInfo : MarketDeal)
  : clientAggregateStats :=
  {| cs_Client := cs_Client cs;
     cs_DataSize :=
       add64 (cs_DataSize cs) (int64_of_uint64 (PieceSize (Proposal dealInfo)));
     cs_NumCids := cs_NumCids cs;
     cs_NumDeals := cs_NumDeals cs + 1;
     cs_NumProviders := cs_NumProviders cs;
     cs_providers := <[Provider (Proposal dealInfo) := true]> (cs_providers cs);
     cs_cids := <[PieceCID (Proposal dealInfo) := true]> (cs_cids cs) |}.

Definition countedEntry (e : projectAggregateStats) (clientAddr : Address)
    (dealInfo : MarketDeal) : projectAggregateStats :=
  let prop := Proposal dealInfo in
  let size := int64_of_uint64 (PieceSize prop) in
  {| ps_ProjectID := ps_ProjectID e;
     ps_DataSizeMaxProvider := ps_DataSizeMaxProvider e;
     ps_HighestCidDealCount := ps_HighestCidDealCount e;
     ps_DataSize := add64 (ps_DataSize e) size;
     ps_NumCids := ps_NumCids e;
     ps_NumDeals := ps_NumDeals e + 1;
     ps_NumProviders := ps_NumProviders e;
     ps_ClientStats :=
       <[clientAddr :=
           countedClient
             (default (newClientStat clientAddr) (ps_ClientStats e !! clientAddr))
             dealInfo]> (ps_ClientStats e);
     ps_dataPerProvider :=
       <[Provider prop := add64 (getZ (ps_dataPerProvider e) (Provider prop)) size]>
         (ps_dataPerProvider e);
     ps_timesSeenPieceCid :=
       <[PieceCID prop := getZ (ps_timesSeenPieceCid e) (PieceCID prop) + 1]>
         (ps_timesSeenPieceCid e);
     ps_timesSeenPieceCidAllTime := ps_timesSeenPieceCidAllTime e |}.

Definition countedTotals (gt : competitionTotal) (clientAddr : Address)
    (dealInfo : MarketDeal) : competitionTotal :=
  let prop := Proposal dealInfo in
  let size := int64_of_uint64 (PieceSize prop) in
  {| UniqueCids := UniqueCids gt; UniqueProviders := UniqueProviders gt;
     UniqueProjects := UniqueProjects gt; UniqueClients := UniqueClients gt;
     TotalDeals := TotalDeals gt + 1;
     TotalBytes := add64 (TotalBytes gt) size;
     FilplusTotalDeals :=
       if VerifiedDeal prop then FilplusTotalDeals gt + 1 else FilplusTotalDeals gt;
     FilplusTotalBytes :=
       if VerifiedDeal prop then add64 (FilplusTotalBytes gt) size
       else FilplusTotalBytes gt;
     seenProject := seenProject gt;
     seenClient := <[clientAddr := true]> (seenClient gt);
     seenProvider := <[Provider prop := true]> (seenProvider gt);
     seenPieceCid := <[PieceCID prop := true]> (seenPieceCid gt) |}.

(** The entry of a participant as the loop finds it: the one of
    [projStats], or a new one. *)
Definition entryOf (st : loopState) (projID : string) : projectAggregateStats :=
  default (newProjStat projID) (projStats st !! projID).

Section Declarative.

Variable EpochsInDay : Z.
Variable StateAccountKey : Address → option Address.
Variable cid_Parse : string → option (string * string).
Variable currentPhaseStart : Z.
Variable knownAddrMap : gmap Address string.
Variable deals : gmap string MarketDeal.

(** The wallet and the participant of a deal that reaches the tally of
    its piece cid: the client resolves, the workaround does not stop the
    deal, and the wallet is in the registry. *)
Definition matchOf (dealID : string) : option (Address * string) :=
  let d := lookupDeal deals dealID in
  match StateAccountKey (Client (Proposal d)) with
  | None => None
  | Some w =>
      if isWorkaround w d then None
      else match knownAddrMap !! w with
           | None => None
           | Some projID => Some (w, projID)
           end
  end.

(** The deal is one of the participant [projID] and of the piece [c]. *)
Definition talliedFor (projID : string) (c : Cid) (dealID : string) : bool :=
  match matchOf dealID with
  | None => false
  | Some (_, p) =>
      String.eqb p projID
      && String.eqb (PieceCID (Proposal (lookupDeal deals dealID))) c
  end.

(** How many of the deals [pre] are deals of [projID] and of [c]. *)
Definition tallyOf (pre : list string) (projID : string) (c : Cid) : Z :=
  Z.of_nat (length (filter (λ y, talliedFor projID c y = true) pre)).

(** The deal is past the gates of the phase start and of the duration. *)
Definition pastGates (dealID : string) : bool :=
  let d := lookupDeal deals dealID in
  (currentPhaseStart <=? SectorStartEpoch (State d))
  && (EpochsInDay * 360 <=? dealDuration d).

(** The deal is counted when it comes after the deals [pre]: it is a deal
    of a participant, past the two gates, and fewer than nine deals of
    [pre] are deals of its participant and of its piece cid. *)
Definition countedAfter (pre : list string) (dealID : string) : bool :=
  match matchOf dealID with
  | None => false
  | Some (_, projID) =>
      pastGates dealID
      && (tallyOf pre projID (PieceCID (Proposal (lookupDeal deals dealID))) <? 9)
  end.

(** The deals of [l] that are counted, when [l] comes after [pre]. *)
Fixpoint countedFrom (pre l : list string) : list string :=
  match l with
  | [] => []
  | x :: l =>
      (if countedAfter pre x then [x] else []) ++ countedFrom (pre ++ [x]) l
  end.

(** The entry of the deal list that a counted deal gets. *)
Definition listedAs (dealID : string) : option individualDeal :=
  match matchOf dealID with
  | None => None
  | Some (w, projID) =>
      Some (mkIndividualDeal dealID projID w
              (payloadCids cid_Parse (lookupDeal deals dealID)).1
              (lookupDeal deals dealID))
  end.

(** The entries of the counted deals of [l], in the order of [l]. *)
Definition countedDeals (l : list string) : list individualDeal :=
  omap listedAs (countedFrom [] l).

End Declarative.

(** [Some l] for a list with an element. *)
Definition nonempty {A : Type} (l : list A) : option (list A) :=
  match l with [] => None | _ => Some l end.

(** *** A list seen by key

    The maps that the loop fills hold, for a key, the sum, the number or
    the presence of the counted deals with this key. *)

Definition sumBy {A : Type} (key : A → string) (val : A → Z) (l : list A)
    (k : string) : option Z :=
  if decide (k ∈ key <$> l)
  then Some (wrap64 (sumZ (val <$> filter (λ x, key x = k) l)))
  else None.

Definition countBy {A : Type} (key : A → string) (l : list A) (k : string)
  : option Z :=
  if decide (k ∈ key <$> l)
  then Some (Z.of_nat (length (filter (λ x, key x = k) l)))
  else None.

Definition keysOf {A : Type} (key : A → string) (l : list A) (k : string)
  : option bool :=
  if decide (k ∈ key <$> l) then Some true else None.

(** The number of different keys in a list. *)
Definition distinct {A : Type} (key : A → string) (l : list A) : Z :=
  Z.of_nat (size (list_to_set (key <$> l) : gset string)).

(** The piece cid and the verified flag of the deal of an entry of a deal
    list, as the snapshot has them. *)
Definition pieceOf (deals : gmap string MarketDeal) (x : individualDeal) : Cid :=
  PieceCID (Proposal (lookupDeal deals (id_DealID x))).

Definition verifiedOf (deals : gmap string MarketDeal) (x : individualDeal) : bool :=
  VerifiedDeal (Proposal (lookupDeal deals (id_DealID x))).

(** The statistics of a wallet agree with the list [dl] of its counted
    deals. *)
Record clientAgrees (deals : gmap string MarketDeal) (w : Address)
    (cs : clientAggregateStats) (dl : list individualDeal) : Prop := {
  ca_Client : cs_Client cs = w;
  ca_NumDeals : cs_NumDeals cs = Z.of_nat (length dl);
  ca_DataSize : cs_DataSize cs = wrap64 (sumZ (id_PaddedSize <$> dl));
  ca_providers : ∀ p, cs_providers cs !! p = keysOf id_MinerID dl p;
  ca_cids : ∀ c, cs_cids cs !! c = keysOf (pieceOf deals) dl c;
  ca_NumCids : cs_NumCids cs = 0;
  ca_NumProviders : cs_NumProviders cs = 0
}.

(** The statistics of a participant agree with the list [dl] of its
    counted deals; the four fields of the finalization are not set. *)
Record entryAgrees (deals : gmap string MarketDeal) (projID : string)
    (e : projectAggregateStats) (dl : list individualDeal) : Prop := {
  ea_ProjectID : ps_ProjectID e = projID;
  ea_NumDeals : ps_NumDeals e = Z.of_nat (length dl);
  ea_DataSize : ps_DataSize e = wrap64 (sumZ (id_PaddedSize <$> dl));
  ea_dataPerProvider :
    ∀ p, ps_dataPerProvider e !! p = sumBy id_MinerID id_PaddedSize dl p;
  ea_timesSeenPieceCid :
    ∀ c, ps_timesSeenPieceCid e !! c = countBy (pieceOf deals) dl c;
  ea_ClientStats :
    ∀ w, match ps_ClientStats e !! w with
         | Some cs =>
             w ∈ id_Client <$> dl ∧
             clientAgrees deals w cs (filter (λ x, id_Client x = w) dl)
         | None => w ∉ id_Client <$> dl
         end;
  ea_NumCids : ps_NumCids e = 0;
  ea_NumProviders : ps_NumProviders e = 0;
  ea_HighestCidDealCount : ps_HighestCidDealCount e = 0;
  ea_DataSizeMaxProvider : ps_DataSizeMaxProvider e = 0
}.

(** Every participant with statistics has them in agreement with its
    deal list, and no other participant has a deal list. *)
Definition entriesInv (deals : gmap string MarketDeal) (st : loopState) : Prop :=
  ∀ projID,
    match projStats st !! projID with
    | Some e => entryAgrees deals projID e (default [] (projDealLists st !! projID))
    | None => projDealLists st !! projID = None
    end.

(** The totals agree with the list [all] of the counted deals; the four
    fields of the finalization are not set. *)
Record totalsAgree (deals : gmap string MarketDeal) (gt : competitionTotal)
    (all : list individualDeal) : Prop := {
  ta_TotalDeals : TotalDeals gt = Z.of_nat (length all);
  ta_TotalBytes : TotalBytes gt = wrap64 (sumZ (id_PaddedSize <$> all));
  ta_FilplusTotalDeals :
    FilplusTotalDeals gt
    = Z.of_nat (length (filter (λ x, verifiedOf deals x = true) all));
  ta_FilplusTotalBytes :
    FilplusTotalBytes gt
    = wrap64 (sumZ (id_PaddedSize <$> filter (λ x, verifiedOf deals x = true) all));
  ta_seenClient : ∀ a, seenClient gt !! a = keysOf id_Client all a;
  ta_seenProvider : ∀ a, seenProvider gt !! a = keysOf id_MinerID all a;
  ta_seenPieceCid : ∀ c, seenPieceCid gt !! c = keysOf (pieceOf deals) all c
}.

Section Projects.

Variable EpochsInDay : Z.
Variable StateAccountKey : Address → option Address.
Variable currentPhaseStart : Z.
Variable knownAddrMap : gmap Address string.
Variable deals : gmap string MarketDeal.

(** The participants of the deals of [pre] that reach the tally, and of
    those that are past the gates of the phase start and of the
    duration as well. *)
Definition matchedProjects (pre : list string) : list string :=
  omap (λ y, snd <$> matchOf StateAccountKey knownAddrMap deals y) pre.

Definition markedProjects (pre : list string) : list string :=
  omap (λ y, if pastGates EpochsInDay currentPhaseStart deals y
             then snd <$> matchOf StateAccountKey knownAddrMap deals y
             else None) pre.

End Projects.

(** *** What the loop keeps, by the deals processed so far *)

Section LoopHistory.

Variable EpochsInDay : Z.
Variable StateAccountKey : Address → option Address.
Variable cid_Parse : string → option (string * string).
Variable currentPhaseStart : Z.
Variable knownAddrMap : gmap Address string.
Variable deals : gmap string MarketDeal.

(** The all-time tally counts the deals of the participant and of the
    piece cid among the deals processed so far. *)
Definition tallyInvH (pre : list string) (st : loopState) : Prop :=
  ∀ projID c,
    allTimeTally st projID c
    = tallyOf StateAccountKey knownAddrMap deals pre projID c.

(** The deal lists hold the entries of the deals counted so far, by
    participant. *)
Definition listsInvH (pre : list string) (st : loopState) : Prop :=
  ∀ projID,
    projDealLists st !! projID
    = nonempty (filter (λ x, id_ProjectID x = projID)
                  (countedDeals EpochsInDay StateAccountKey cid_Parse
                     currentPhaseStart knownAddrMap deals pre)).

(** The totals agree with the entries of the deals counted so far. *)
Definition totalsInvH (pre : list string) (st : loopState) : Prop :=
  totalsAgree deals (grandTotals st)
    (countedDeals EpochsInDay StateAccountKey cid_Parse currentPhaseStart
       knownAddrMap deals pre).

(** The participants with statistics are those of the deals that reached
    the tally, the participants seen are those of the deals that are past
    the two gates as well. *)
Definition projectsInvH (pre : list string) (st : loopState) : Prop :=
  (∀ p, is_Some (projStats st !! p)
        ↔ p ∈ matchedProjects StateAccountKey knownAddrMap deals pre) ∧
  (∀ p, seenProject (grandTotals st) !! p
        = keysOf id (markedProjects EpochsInDay StateAccountKey
                       currentPhaseStart knownAddrMap deals pre) p).

(** The cache holds the answers of the node for the clients of the deals
    processed so far. *)
Definition cacheInvH (pre : list string) (st : loopState) : Prop :=
  ∀ h w, resolvedWallets st !! h = Some w ↔
         StateAccountKey h = Some w ∧
         ∃ x, x ∈ pre ∧ Client (Proposal (lookupDeal deals x)) = h.

End LoopHistory.

(** The entries of all the deal lists. *)
Definition allListed (m : gmap string (list individualDeal)) : list individualDeal :=
  mjoin (snd <$> map_to_list m).

(** ** [getAndParseRestore]

    The "payload" array of the list of recovery clients as the JSON
    document holds it, an array of strings; a document without the field
    leaves [fl.Payload] empty. [json.Decode] decodes every element with
    [address.Address.UnmarshalJSON], which parses the string as
    [address.NewFromString] does and whose error is the error of the
    call. *)

Section RestoreList.

Variable address_NewFromString : string → option Address.

(** The decoding of the array into [fl.Payload]; [None] is the error. *)
Fixpoint decodePayload (payload : list string) : option (list Address) :=
  match payload with
  | [] => Some []
  | s :: payload =>
      match address_NewFromString s with
      | None => None
      | Some a =>
          match decodePayload payload with
          | None => None
          | Some l => Some (a :: l)
          end
      end
  end.

(** [for _, a := range fl.Payload { ret[a] = struct{}{} }] *)
Definition restoreSet (l : list Address) : gmap Address unit :=
  foldl (λ ret a, <[a := tt]> ret) ∅ l.

Definition getAndParseRestore (payload : list string) : option (gmap Address unit) :=
  match decodePayload payload with
  | None => None
  | Some l => Some (restoreSet l)
  end.

End RestoreList.

(** An entry of the project list has the tag of the workaround among its
    datasets. *)
Definition isTagged (p : projectEntry) : bool :=
  match pe_curatedDataset p with
  | Some dsets => existsb (λ dset, String.eqb dset "landsat-8") dsets
  | None => false
  end.

Module StatsScenario.

Import Scenario.

(** The deal [d] as a verified deal. *)
Definition verified (d : MarketDeal) : MarketDeal :=
  {| Proposal := {| PieceCID := PieceCID (Proposal d);
                    PieceSize := PieceSize (Proposal d);
                    VerifiedDeal := true;
                    Client := Client (Proposal d);
                    Provider := Provider (Proposal d);
                    Label := Label (Proposal d);
                    StartEpoch := StartEpoch (Proposal d);
                    EndEpoch := EndEpoch (Proposal d) |};
     State := State d |}.

(** Two participants, with one wallet each. *)
Definition statsAddrMap : gmap Address string :=
  {[ "f1alice" := "projA"; "f1bob" := "projB" ]}.

(** Seven live deals: 1, 2 and 3 of the wallet of projA (1 is verified, 1
    and 2 have one piece cid and two providers), 4 of the wallet of
    projB, 5 of projA with a sector started before the phase, 6 of a
    client that does not resolve, 7 of projA and too short. *)
Definition statsDeals : gmap string MarketDeal :=
  {[ "1" := verified
              (mkDeal "piece1" 1073741824 "f0100" "f01000" 1700000 2800000 1700001 (-1));
     "2" := mkDeal "piece1" 2147483648 "f0100" "f02000" 1700000 2800000 1700002 (-1);
     "3" := mkDeal "piece2" 1073741824 "f0100" "f01000" 1700000 2800000 1700003 (-1);
     "4" := mkDeal "piece3" 4294967296 "f0200" "f01000" 1700000 2800000 1700004 (-1);
     "5" := mkDeal "piece1" 1073741824 "f0100" "f01000" 1500000 2800000 1600000 (-1);
     "6" := mkDeal "piece4" 1073741824 "f0900" "f01000" 1700000 2800000 1700006 (-1);
     "7" := mkDeal "piece5" 1073741824 "f0100" "f03000" 1700000 1700100 1700007 (-1) ]}.

Definition statsOrder : list string := ["7"; "6"; "5"; "4"; "3"; "2"; "1"].

End StatsScenario.

(** The statistics of the participant projA after the run on these deals. *)
Definition statsA : projectAggregateStats :=
  Eval vm_compute in
    default (newProjStat "")
      (client_stats (rollup (sorter := go115_small) Scenario.EpochsInDay
         Scenario.StateAccountKey Scenario.cid_Parse Scenario.height
         defaultPhaseStart StatsScenario.statsAddrMap Scenario.knownRestoreClients
         StatsScenario.statsDeals StatsScenario.statsOrder) !! "projA").

(** * Properties *)

(** ** The sorter *)

Module GoSortFacts.

Import GoSort.

Section Facts.

Context {A : Type}.
Implicit Types (less : A → A → bool) (data : list A).

Lemma Swap_Permutation data i j : Swap data i j ≡ₚ data.
Proof.
  unfold Swap.
  destruct (data !! i) as [x|] eqn:Hi; [|done].
  destruct (data !! j) as [y|] eqn:Hj; [|done].
  by apply Permutation_insert_swap.
Qed.

Lemma Swap_length data i j : length (Swap data i j) = length data.
Proof. apply Permutation_length, Swap_Permutation. Qed.

Lemma sink_Permutation less data j : sink less data j ≡ₚ data.
Proof.
  revert data. induction j as [|j IH]; intros data; simpl; [done|].
  destruct (Less less data (S j) j); [|done].
  by rewrite IH, Swap_Permutation.
Qed.

Lemma insertionFrom_Permutation less data i n :
  insertionFrom less data i n ≡ₚ data.
Proof.
  revert data i. induction n as [|n IH]; intros data i; simpl; [done|].
  by rewrite IH, sink_Permutation.
Qed.

Lemma shellFrom_Permutation less data i n : shellFrom less data i n ≡ₚ data.
Proof.
  revert data i. induction n as [|n IH]; intros data i; simpl; [done|].
  rewrite IH. destruct (Less less data i (i - 6)); [|done].
  apply Swap_Permutation.
Qed.

Lemma quickSort_small_Permutation less data :
  quickSort_small less data ≡ₚ data.
Proof.
  unfold quickSort_small, insertionSort_func, shellPass.
  case_decide; [|done].
  by rewrite insertionFrom_Permutation, shellFrom_Permutation.
Qed.

(** The sorter reads the data through [less] on its elements only. *)

Lemma agreeOn_Permutation less less' data data' :
  data ≡ₚ data' → agreeOn less less' data → agreeOn less less' data'.
Proof. intros Hp H x y Hx Hy. apply H; by rewrite Hp. Qed.

Lemma Less_ext less less' data i j :
  agreeOn less less' data → Less less data i j = Less less' data i j.
Proof.
  intros H. unfold Less.
  destruct (data !! i) as [x|] eqn:Hi; [|done].
  destruct (data !! j) as [y|] eqn:Hj; [|done].
  apply H; eapply list_elem_of_lookup_2; eauto.
Qed.

Lemma sink_ext less less' data j :
  agreeOn less less' data → sink less data j = sink less' data j.
Proof.
  revert data. induction j as [|j IH]; intros data H; simpl; [done|].
  rewrite (Less_ext less less') by done.
  destruct (Less less' data (S j) j); [|done].
  apply IH. eapply agreeOn_Permutation; [|done].
  symmetry. apply Swap_Permutation.
Qed.

Lemma insertionFrom_ext less less' data i n :
  agreeOn less less' data →
  insertionFrom less data i n = insertionFrom less' data i n.
Proof.
  revert data i. induction n as [|n IH]; intros data i H; simpl; [done|].
  rewrite (sink_ext less less') by done.
  apply IH. eapply agreeOn_Permutation; [|done].
  symmetry. apply sink_Permutation.
Qed.

Lemma shellFrom_ext less less' data i n :
  agreeOn less less' data → shellFrom less data i n = shellFrom less' data i n.
Proof.
  revert data i. induction n as [|n IH]; intros data i H; simpl; [done|].
  rewrite (Less_ext less less') by done.
  apply IH. destruct (Less less' data i (i - 6)); [|done].
  eapply agreeOn_Permutation; [|done].
  symmetry. apply Swap_Permutation.
Qed.

Lemma quickSort_small_ext less less' data :
  agreeOn less less' data →
  quickSort_small less data = quickSort_small less' data.
Proof.
  intros H. unfold quickSort_small, insertionSort_func, shellPass.
  case_decide; [|done].
  rewrite (shellFrom_ext less less') by done.
  rewrite !(Permutation_length (shellFrom_Permutation _ _ _ _)).
  apply insertionFrom_ext.
  eapply agreeOn_Permutation; [|done].
  symmetry. apply shellFrom_Permutation.
Qed.

(** One run of the inner loop of the insertion sort moves the element
    at position [length pre] to the left, past the elements above it. *)
Lemma sink_spec less pre x post :
  ∃ l1 l2,
    pre = l1 ++ l2 ∧
    sink less (pre ++ x :: post) (length pre) = l1 ++ x :: l2 ++ post ∧
    Forall (λ y, less x y = true) l2 ∧
    (∀ z, last l1 = Some z → less x z = false).
Proof.
  revert post. induction pre as [|y p IH] using rev_ind; intros post.
  { exists [], []. by repeat split. }
  rewrite length_app, Nat.add_1_r. simpl.
  assert (Hx : ((p ++ [y]) ++ x :: post) !! S (length p) = Some x).
  { rewrite <- (assoc_L (++)). simpl.
    rewrite lookup_app_r by lia.
    by replace (S (length p) - length p)%nat with 1%nat by lia. }
  assert (Hy : ((p ++ [y]) ++ x :: post) !! length p = Some y).
  { rewrite <- (assoc_L (++)). simpl. by apply list_lookup_middle. }
  unfold Less at 1. rewrite Hx, Hy.
  destruct (less x y) eqn:Hlt.
  - assert (Hswap : Swap ((p ++ [y]) ++ x :: post) (S (length p)) (length p)
                    = p ++ x :: y :: post).
    { unfold Swap. rewrite Hx, Hy. rewrite <- (assoc_L (++)). simpl.
      rewrite (insert_app_r_alt p _ (S (length p))) by lia.
      replace (S (length p) - length p)%nat with 1%nat by lia. simpl.
      rewrite (insert_app_r_alt p _ (length p)) by lia.
      by rewrite Nat.sub_diag. }
    rewrite Hswap.
    destruct (IH (y :: post)) as (l1 & l2 & -> & Hs & Hall & Hlast).
    exists l1, (l2 ++ [y]). repeat split.
    + by rewrite (assoc_L (++)).
    + rewrite Hs. by rewrite <- (assoc_L (++) l2).
    + apply Forall_app. split; [done|]. by constructor.
    + done.
  - exists (p ++ [y]), []. repeat split.
    + by rewrite (right_id_L [] (++)).
    + constructor.
    + intros z. rewrite last_snoc. by intros [= <-].
Qed.

End Facts.

Section Sorted.

Context {A : Type} (less : A → A → bool) (Hless : StrictWeakOrder less).

Let R : relation A := λ x y, less y x = false.

Lemma less_asym x y : less x y = true → less y x = false.
Proof.
  intros Hxy. destruct (less y x) eqn:Hyx; [|done].
  by rewrite <- (swo_irrefl less Hless x), <- (swo_trans less Hless x y x Hxy Hyx).
Qed.

Lemma sink_Sorted pre x post :
  StronglySorted R pre →
  ∃ pre', sink less (pre ++ x :: post) (length pre) = pre' ++ post ∧
          length pre' = S (length pre) ∧ StronglySorted R pre'.
Proof.
  intros Hpre.
  destruct (sink_spec less pre x post) as (l1 & l2 & -> & Hs & Hall & Hlast).
  exists (l1 ++ x :: l2). split; [|split].
  - rewrite Hs. by rewrite <- (assoc_L (++)).
  - rewrite !length_app. simpl. lia.
  - apply StronglySorted_app in Hpre as (H12 & H1 & H2).
    apply StronglySorted_app. split; [|split; [done|]].
    + intros a b Ha [->|Hb]%elem_of_cons; [|by apply H12].
      destruct (last l1) as [z|] eqn:Hz.
      * specialize (Hlast z eq_refl).
        apply last_Some in Hz as [l1' ->].
        apply elem_of_app in Ha as [Ha|Ha%list_elem_of_singleton].
        -- apply StronglySorted_app in H1 as (H1 & _ & _).
           eapply (swo_incomp less Hless); [exact Hlast|].
           apply H1; [done|]. by apply list_elem_of_singleton.
        -- by subst.
      * apply last_None in Hz. subst. by apply elem_of_nil in Ha.
    + constructor; [done|].
      eapply Forall_impl; [exact Hall|]. intros b Hb. by apply less_asym.
Qed.

Lemma insertionFrom_Sorted rest pre :
  StronglySorted R pre →
  StronglySorted R (insertionFrom less (pre ++ rest) (length pre) (length rest)).
Proof.
  revert pre. induction rest as [|x rest IH]; intros pre Hpre; simpl.
  { by rewrite (right_id_L [] (++)). }
  destruct (sink_Sorted pre x rest Hpre) as (pre' & -> & Hlen & Hpre').
  rewrite <- Hlen. by apply IH.
Qed.

Lemma insertionSort_func_Sorted data :
  StronglySorted R (insertionSort_func less data).
Proof.
  unfold insertionSort_func. destruct data as [|x rest]; simpl.
  { constructor. }
  rewrite Nat.sub_0_r.
  apply (insertionFrom_Sorted rest [x]). repeat constructor.
Qed.

Lemma quickSort_small_Sorted data :
  StronglySorted R (quickSort_small less data).
Proof.
  unfold quickSort_small. case_decide.
  - apply insertionSort_func_Sorted.
  - destruct data as [|x [|y data]]; simpl in *; [constructor| |lia].
    repeat constructor.
Qed.

End Sorted.

End GoSortFacts.

Example quickSort_small_examples :
  GoSort.quickSort_small Z.ltb [3; 1; 2] = [1; 2; 3] ∧
  GoSort.quickSort_small Z.ltb [13; 12; 11; 10; 9; 8; 7; 6; 5; 4; 3; 2; 1]
  = [1; 2; 3; 4; 5; 6; 7; 8; 9; 10; 11; 12; 13] ∧
  GoSort.quickSort_small (λ x y : Z * string, x.1 <? y.1)
    [(2, "a"); (2, "b"); (2, "c"); (2, "d"); (2, "e"); (2, "f"); (1, "g")]
  = [(1, "g"); (2, "b"); (2, "c"); (2, "d"); (2, "e"); (2, "f"); (2, "a")].
Proof. repeat split; reflexivity. Qed.

Lemma go115_small_laws : SliceSorterLaws go115_small.
Proof.
  split; simpl.
  - intros A less l. apply GoSortFacts.quickSort_small_Permutation.
  - intros A less l H. by apply GoSortFacts.quickSort_small_Sorted.
  - intros A less less' l H. by apply GoSortFacts.quickSort_small_ext.
Qed.

(** ** Machine integers *)

Lemma wrap64_id z : in_int64 z → wrap64 z = z.
Proof.
  unfold in_int64, wrap64. intros Hz.
  rewrite Z.mod_small by lia. lia.
Qed.

Lemma wrap64_range z : in_int64 (wrap64 z).
Proof.
  unfold in_int64, wrap64.
  pose proof (Z.mod_pos_bound (z + 2 ^ 63) (2 ^ 64) ltac:(lia)). lia.
Qed.

(** Without overflow the duration is the difference of the two epochs. *)
Lemma dealDuration_exact d :
  in_int64 (EndEpoch (Proposal d) - StartEpoch (Proposal d)) →
  dealDuration d = EndEpoch (Proposal d) - StartEpoch (Proposal d).
Proof. apply wrap64_id. Qed.

Example wrap64_examples :
  wrap64 5 = 5 ∧ wrap64 (2 ^ 63) = - 2 ^ 63 ∧ wrap64 (- 2 ^ 63 - 1) = 2 ^ 63 - 1 ∧
  sub64 (2 ^ 63 - 1) (-1) = - 2 ^ 63 ∧ int64_of_uint64 (2 ^ 64 - 1) = -1.
Proof. repeat split; reflexivity. Qed.

Example phaseStartOf_examples :
  phaseStartOf 0 = 1623840 ∧ phaseStartOf (-5) = 1623840 ∧
  phaseStartOf 912480 = 912480.
Proof. repeat split; reflexivity. Qed.

Example ParseInt_examples :
  ParseInt "42" = (42, None) ∧
  ParseInt "-7" = (-7, None) ∧
  ParseInt "+17" = (17, None) ∧
  ParseInt "007" = (7, None) ∧
  ParseInt "" = (0, Some ErrSyntax) ∧
  ParseInt "-" = (0, Some ErrSyntax) ∧
  ParseInt "12a" = (0, Some ErrSyntax) ∧
  ParseInt "1_000" = (0, Some ErrSyntax) ∧
  ParseInt "9223372036854775807" = (2 ^ 63 - 1, None) ∧
  ParseInt "9223372036854775808" = (2 ^ 63 - 1, Some ErrRange) ∧
  ParseInt "-9223372036854775808" = (- 2 ^ 63, None) ∧
  ParseInt "-9223372036854775809" = (- 2 ^ 63, Some ErrRange) ∧
  ParseInt "99999999999999999999999" = (2 ^ 63 - 1, Some ErrRange) ∧
  ParseInt "99999999999999999999999x" = (2 ^ 63 - 1, Some ErrRange) ∧
  ParseInt "-99999999999999999999999x" = (- 2 ^ 63, Some ErrRange) ∧
  ParseInt "9x9999999999999999999999" = (0, Some ErrSyntax).
Proof. repeat split; reflexivity. Qed.

Example FormatInt_examples :
  FormatInt 0 = "0" ∧ FormatInt 1234567 = "1234567" ∧ FormatInt (-12) = "-12".
Proof. repeat split; reflexivity. Qed.

(** ** The two orderings given to [sort.Slice] *)

Ltac zbool :=
  repeat match goal with
  | H : context [?a =? ?b] |- _ => destruct (Z.eqb_spec a b); simpl in H
  | H : context [?a <? ?b] |- _ => destruct (Z.ltb_spec a b); simpl in H
  | |- context [?a =? ?b] => destruct (Z.eqb_spec a b); simpl
  | |- context [?a <? ?b] => destruct (Z.ltb_spec a b); simpl
  | |- context [?a <=? ?b] => destruct (Z.leb_spec a b); simpl
  | H : context [?a <=? ?b] |- _ => destruct (Z.leb_spec a b); simpl in H
  end;
  try done; try lia.

Lemma dealLess_false_keyLe deals a b :
  dealLess deals b a = false ↔ keyLe (dealKey deals a) (dealKey deals b).
Proof.
  unfold dealLess, dealKey, keyLe.
  generalize (SectorStartEpoch (State (lookupDeal deals a)))
             (SectorStartEpoch (State (lookupDeal deals b)))
             (StartEpoch (Proposal (lookupDeal deals a)))
             (StartEpoch (Proposal (lookupDeal deals b)))
             (ParseInt a).1 (ParseInt b).1.
  intros a1 a2 b1 b2 c1 c2. split.
  - intros H. zbool.
  - intros H. zbool.
Qed.

Lemma dealLess_StrictWeakOrder deals : StrictWeakOrder (dealLess deals).
Proof.
  split.
  - intros x. unfold dealLess. zbool.
  - intros x y z. unfold dealLess.
    generalize (SectorStartEpoch (State (lookupDeal deals x)))
               (SectorStartEpoch (State (lookupDeal deals y)))
               (SectorStartEpoch (State (lookupDeal deals z)))
               (StartEpoch (Proposal (lookupDeal deals x)))
               (StartEpoch (Proposal (lookupDeal deals y)))
               (StartEpoch (Proposal (lookupDeal deals z)))
               (ParseInt x).1 (ParseInt y).1 (ParseInt z).1.
    intros a1 a2 a3 b1 b2 b3 c1 c2 c3 H1 H2. zbool.
  - intros x y z. rewrite !dealLess_false_keyLe. unfold keyLe, dealKey. lia.
Qed.

Lemma sizeLess_StrictWeakOrder : StrictWeakOrder sizeLess.
Proof.
  unfold sizeLess. split.
  - intros x. zbool.
  - intros x y z H1 H2. zbool.
  - intros x y z H1 H2. zbool.
Qed.

(** ** The loop body *)

Section LoopFacts.

Variable EpochsInDay : Z.
Variable StateAccountKey : Address → option Address.
Variable cid_Parse : string → option (string * string).
Variable currentPhaseStart : Z.
Variable knownAddrMap : gmap Address string.
Variable knownRestoreClients : gmap Address unit.
Variable deals : gmap string MarketDeal.

Local Abbreviation processDeal' :=
  (processDeal EpochsInDay StateAccountKey cid_Parse currentPhaseStart
     knownAddrMap knownRestoreClients deals).
Local Abbreviation processResolved' :=
  (processResolved EpochsInDay currentPhaseStart knownAddrMap knownRestoreClients).

Lemma cacheOK_initial : cacheOK StateAccountKey initialState.
Proof. intros h w. simpl. by rewrite lookup_empty. Qed.

Lemma resolveClient_inv st h w st' :
  resolveClient StateAccountKey st h = Some (w, st') →
  resolvedWallets st' !! h = Some w ∧
  ∃ m, st' = withResolvedWallets st m.
Proof.
  unfold resolveClient. intros H.
  destruct (resolvedWallets st !! h) as [a|] eqn:Hc.
  - injection H as <- <-. split; [done|].
    exists (resolvedWallets st). by destruct st.
  - destruct (StateAccountKey h) as [a|]; [|done].
    injection H as <- <-. split; [apply lookup_insert_eq|]. eauto.
Qed.

Lemma resolveClient_None st h :
  cacheOK StateAccountKey st → StateAccountKey h = None →
  resolveClient StateAccountKey st h = None.
Proof.
  intros Hc Hn. unfold resolveClient.
  destruct (resolvedWallets st !! h) as [a|] eqn:E.
  - apply Hc in E. congruence.
  - by rewrite Hn.
Qed.

Lemma resolveClient_Some st h w :
  cacheOK StateAccountKey st → StateAccountKey h = Some w →
  ∃ m, resolveClient StateAccountKey st h = Some (w, withResolvedWallets st m)
       ∧ cacheOK StateAccountKey (withResolvedWallets st m).
Proof.
  intros Hc Hs. unfold resolveClient.
  destruct (resolvedWallets st !! h) as [a|] eqn:E.
  - apply Hc in E. assert (a = w) as -> by congruence.
    exists (resolvedWallets st). by destruct st.
  - rewrite Hs. eexists. split; [done|].
    intros h' w'. simpl. rewrite lookup_insert.
    case_decide; [|by apply Hc]. naive_solver.
Qed.

(** The rest of the body neither reads nor writes the cache. *)
Lemma processResolved_cache st m dealID w pc pc32 d :
  processResolved' (withResolvedWallets st m) dealID w pc pc32 d
  = withResolvedWallets (processResolved' st dealID w pc pc32 d) m.
Proof.
  destruct st as [rw rd ps pdl gt].
  unfold processResolved, countDeal, withResolvedWallets. simpl.
  destruct (isRecover _ _ w d); simpl;
    (destruct (isWorkaround w d); [done|]);
    (destruct (knownAddrMap !! w) as [projID|]; [|done]);
    simpl; repeat case_match; done.
Qed.

Lemma processResolved_resolvedWallets st dealID w pc pc32 d :
  resolvedWallets (processResolved' st dealID w pc pc32 d) = resolvedWallets st.
Proof.
  unfold processResolved, countDeal.
  repeat case_match; done.
Qed.

Lemma processDeal_unresolved st dealID :
  cacheOK StateAccountKey st →
  StateAccountKey (Client (Proposal (lookupDeal deals dealID))) = None →
  processDeal' st dealID = st.
Proof.
  intros Hc Hn. unfold processDeal.
  rewrite (resolveClient_None _ _ Hc Hn). by destruct (payloadCids cid_Parse _).
Qed.

Lemma processDeal_resolved st dealID w :
  cacheOK StateAccountKey st →
  StateAccountKey (Client (Proposal (lookupDeal deals dealID))) = Some w →
  ∃ m, cacheOK StateAccountKey (withResolvedWallets st m) ∧
    processDeal' st dealID =
    withResolvedWallets
      (processResolved' st dealID w (payloadCids cid_Parse (lookupDeal deals dealID)).1
         (payloadCids cid_Parse (lookupDeal deals dealID)).2 (lookupDeal deals dealID)) m.
Proof.
  intros Hc Hs. unfold processDeal.
  destruct (resolveClient_Some _ _ _ Hc Hs) as (m & -> & Hc').
  exists m. split; [done|].
  destruct (payloadCids cid_Parse _).
  apply processResolved_cache.
Qed.

Lemma processDeal_cacheOK st dealID :
  cacheOK StateAccountKey st → cacheOK StateAccountKey (processDeal' st dealID).
Proof.
  intros Hc.
  destruct (StateAccountKey (Client (Proposal (lookupDeal deals dealID)))) as [w|] eqn:E.
  - destruct (processDeal_resolved st dealID w Hc E) as (m & Hc' & ->). done.
  - by rewrite processDeal_unresolved.
Qed.

Lemma processDeals_cacheOK st l :
  cacheOK StateAccountKey st →
  cacheOK StateAccountKey
    (processDeals EpochsInDay StateAccountKey cid_Parse currentPhaseStart
       knownAddrMap knownRestoreClients deals st l).
Proof.
  revert st. induction l as [|x l IH]; intros st Hc; simpl; [done|].
  apply IH, processDeal_cacheOK, Hc.
Qed.

End LoopFacts.

Section StepFacts.

Variable EpochsInDay : Z.
Variable currentPhaseStart : Z.
Variable knownAddrMap : gmap Address string.
Variable knownRestoreClients : gmap Address unit.

Local Abbreviation processResolved' :=
  (processResolved EpochsInDay currentPhaseStart knownAddrMap knownRestoreClients).

Lemma getZ_insert_eq (m : gmap string Z) k v : getZ (<[k := v]> m) k = v.
Proof. unfold getZ. by rewrite lookup_insert_eq. Qed.

Lemma getZ_insert_ne (m : gmap string Z) k k' v :
  k ≠ k' → getZ (<[k := v]> m) k' = getZ m k'.
Proof. intros. unfold getZ. by rewrite lookup_insert_ne. Qed.

Lemma getZ_empty k : getZ ∅ k = 0.
Proof. unfold getZ. by rewrite lookup_empty. Qed.

Lemma allTimeTally_countDeal st dealID projID w pc d e piece :
  allTimeTally (countDeal st dealID projID w pc d e) projID piece
  = getZ (ps_timesSeenPieceCidAllTime e) piece.
Proof. unfold allTimeTally, countDeal. simpl. by rewrite lookup_insert_eq. Qed.

(** A deal stopped by the workaround or by the participant lookup leaves
    the totals, the statistics and the deal lists as they are. *)
Lemma processResolved_unmatched st dealID w pc pc32 d :
  isWorkaround w d = true ∨ knownAddrMap !! w = None →
  let st' := processResolved' st dealID w pc pc32 d in
  grandTotals st' = grandTotals st ∧ projStats st' = projStats st ∧
  projDealLists st' = projDealLists st.
Proof.
  intros H. unfold processResolved.
  destruct (isRecover _ _ w d); simpl;
    (destruct (isWorkaround w d); [done|]);
    (destruct H as [H|H]; [done|rewrite H]); done.
Qed.

(** A participant-matched deal: the all-time tally goes up by one, and
    the deal is counted exactly when it passes the three last gates. *)
Lemma processResolved_matched st dealID w pc pc32 d projID :
  isWorkaround w d = false → knownAddrMap !! w = Some projID →
  let st' := processResolved' st dealID w pc pc32 d in
  let piece := PieceCID (Proposal d) in
  allTimeTally st' projID piece = allTimeTally st projID piece + 1 ∧
  ((currentPhaseStart <= SectorStartEpoch (State d) ∧
    EpochsInDay * 360 <= dealDuration d ∧
    allTimeTally st' projID piece < 10 ∧
    TotalDeals (grandTotals st') = TotalDeals (grandTotals st) + 1)
   ∨
   (¬ (currentPhaseStart <= SectorStartEpoch (State d) ∧
       EpochsInDay * 360 <= dealDuration d ∧
       allTimeTally st' projID piece < 10) ∧
    TotalDeals (grandTotals st') = TotalDeals (grandTotals st))).
Proof.
  intros Hw Hk. unfold processResolved. rewrite Hw, Hk.
  set (st0 := if isRecover _ _ w d then _ else st).
  assert (Hps : projStats st0 = projStats st) by (subst st0; by case_match).
  assert (Hgt : grandTotals st0 = grandTotals st) by (subst st0; by case_match).
  set (e := match projStats st0 !! projID with Some e => e | None => _ end).
  assert (He : getZ (ps_timesSeenPieceCidAllTime e) (PieceCID (Proposal d))
               = allTimeTally st projID (PieceCID (Proposal d))).
  { subst e. unfold allTimeTally. rewrite Hps.
    destruct (projStats st !! projID); [done|]. apply getZ_empty. }
  assert (Hbump : getZ (ps_timesSeenPieceCidAllTime
                          (bumpAllTime e (PieceCID (Proposal d))))
                    (PieceCID (Proposal d))
                  = allTimeTally st projID (PieceCID (Proposal d)) + 1).
  { simpl. by rewrite getZ_insert_eq, He. }
  rewrite Hbump.
  assert (Htally : ∀ rw rd pdl gt,
    allTimeTally
      {| resolvedWallets := rw; recoveredDeals := rd;
         projStats := <[projID := bumpAllTime e (PieceCID (Proposal d))]> (projStats st0);
         projDealLists := pdl; grandTotals := gt |} projID (PieceCID (Proposal d))
    = allTimeTally st projID (PieceCID (Proposal d)) + 1).
  { intros. unfold allTimeTally at 1. simpl. by rewrite lookup_insert_eq. }
  destruct (Z.ltb_spec (SectorStartEpoch (State d)) currentPhaseStart); simpl.
  { unfold withProjStats. rewrite Htally. simpl. rewrite Hgt.
    split; [done|]. right. split; [lia|done]. }
  destruct (Z.ltb_spec (dealDuration d) (EpochsInDay * 360)); simpl.
  { unfold withProjStats. rewrite Htally. simpl. rewrite Hgt.
    split; [done|]. right. split; [lia|done]. }
  destruct (Z.leb_spec 10 (allTimeTally st projID (PieceCID (Proposal d)) + 1)); simpl.
  { unfold withGrandTotals, withProjStats. simpl. rewrite Htally. simpl.
    rewrite Hgt. split; [done|]. right. split; [lia|done]. }
  rewrite allTimeTally_countDeal, Hbump. simpl. rewrite Hgt.
  split; [done|]. left. repeat split; lia || done.
Qed.

End StepFacts.

(** ** Invariants of the loop *)

Section LoopInvariants.

Variable EpochsInDay : Z.
Variable StateAccountKey : Address → option Address.
Variable cid_Parse : string → option (string * string).
Variable currentPhaseStart : Z.
Variable knownAddrMap : gmap Address string.
Variable knownRestoreClients : gmap Address unit.
Variable deals : gmap string MarketDeal.

Local Abbreviation processDeal' :=
  (processDeal EpochsInDay StateAccountKey cid_Parse currentPhaseStart
     knownAddrMap knownRestoreClients deals).
Local Abbreviation processDeals' :=
  (processDeals EpochsInDay StateAccountKey cid_Parse currentPhaseStart
     knownAddrMap knownRestoreClients deals).
Local Abbreviation processResolved' :=
  (processResolved EpochsInDay currentPhaseStart knownAddrMap knownRestoreClients).

(** A property of the loop state that does not look at the cache and
    that the rest of the body keeps is kept by the whole loop. *)
Lemma processDeal_invariant (P : loopState → Prop) :
  (∀ st m, P st → P (withResolvedWallets st m)) →
  (∀ st dealID w pc pc32 d, P st → P (processResolved' st dealID w pc pc32 d)) →
  ∀ st dealID, P st → P (processDeal' st dealID).
Proof.
  intros Hcache Hstep st dealID HP. unfold processDeal.
  destruct (payloadCids cid_Parse _) as [pc pc32].
  destruct (resolveClient StateAccountKey st _) as [[w st1]|] eqn:Hres; [|done].
  apply resolveClient_inv in Hres as [_ [m ->]].
  rewrite processResolved_cache. by apply Hcache, Hstep.
Qed.

Lemma processDeals_invariant (P : loopState → Prop) :
  (∀ st m, P st → P (withResolvedWallets st m)) →
  (∀ st dealID w pc pc32 d, P st → P (processResolved' st dealID w pc pc32 d)) →
  ∀ l st, P st → P (processDeals' st l).
Proof.
  intros Hcache Hstep l. induction l as [|x l IH]; intros st HP; simpl; [done|].
  by apply IH, processDeal_invariant.
Qed.

Lemma tallyInv_initial : tallyInv initialState.
Proof. intros projID e. simpl. by rewrite lookup_empty. Qed.

Lemma tallyInv_processResolved st dealID w pc pc32 d :
  tallyInv st → tallyInv (processResolved' st dealID w pc pc32 d).
Proof.
  intros Hinv.
  destruct (isWorkaround w d) eqn:Hw.
  { destruct (processResolved_unmatched EpochsInDay currentPhaseStart knownAddrMap
      knownRestoreClients st dealID w pc pc32 d) as (_ & Hps & _); [by left|].
    unfold tallyInv. by rewrite Hps. }
  destruct (knownAddrMap !! w) as [P|] eqn:Hk.
  2:{ destruct (processResolved_unmatched EpochsInDay currentPhaseStart knownAddrMap
        knownRestoreClients st dealID w pc pc32 d) as (_ & Hps & _); [by right|].
      unfold tallyInv. by rewrite Hps. }
  unfold processResolved. rewrite Hw, Hk.
  set (st0 := if isRecover _ _ w d then _ else st).
  assert (Hps : projStats st0 = projStats st) by (subst st0; by case_match).
  rewrite Hps.
  set (e := match projStats st !! P with Some e => e | None => _ end).
  assert (He : ps_HighestCidDealCount e = 0 ∧
    ∀ c, getZ (ps_timesSeenPieceCid e) c <= getZ (ps_timesSeenPieceCidAllTime e) c ∧
         getZ (ps_timesSeenPieceCid e) c <= 9).
  { subst e. destruct (projStats st !! P) as [e|] eqn:E; [by apply (Hinv P)|].
    simpl. split; [done|]. intros c. rewrite !getZ_empty. lia. }
  destruct He as [Hmax He].
  set (c0 := PieceCID (Proposal d)).
  assert (Hbump : ∀ projID e',
    <[P := bumpAllTime e c0]> (projStats st) !! projID = Some e' →
    ps_HighestCidDealCount e' = 0 ∧
    ∀ c, getZ (ps_timesSeenPieceCid e') c <= getZ (ps_timesSeenPieceCidAllTime e') c ∧
         getZ (ps_timesSeenPieceCid e') c <= 9).
  { intros projID e'. rewrite lookup_insert. case_decide as Hd.
    - intros [= <-]. simpl. split; [done|]. intros c.
      destruct (decide (c0 = c)) as [->|Hne].
      + rewrite getZ_insert_eq. specialize (He c). lia.
      + rewrite getZ_insert_ne by done. apply He.
    - apply Hinv. }
  repeat case_match; try exact Hbump.
  intros projID e'. unfold countDeal. simpl. rewrite lookup_insert.
  case_decide as Hd; [|apply Hbump].
  intros [= <-]. simpl. split; [done|]. intros c. fold c0.
  match goal with H : (10 <=? _) = false |- _ =>
    simpl in H; fold c0 in H; rewrite getZ_insert_eq in H;
    apply Z.leb_gt in H end.
  destruct (decide (c0 = c)) as [->|Hne].
  - rewrite !getZ_insert_eq. specialize (He c). lia.
  - rewrite !getZ_insert_ne by done. apply He.
Qed.

Lemma tallyInv_processDeals st l : tallyInv st → tallyInv (processDeals' st l).
Proof.
  apply (processDeals_invariant tallyInv); [done|].
  intros. by apply tallyInv_processResolved.
Qed.

End LoopInvariants.

Lemma maxOver_le (b acc : Z) (m : gmap string Z) :
  acc <= b → (∀ k v, m !! k = Some v → v <= b) → maxOver acc m <= b.
Proof.
  intros Hacc. unfold maxOver.
  apply (map_fold_weak_ind
    (λ r m, (∀ k v, m !! k = Some v → v <= b) → r <= b)); [done|].
  intros k v m' r Hk IH Hall.
  assert (v <= b) by (apply (Hall k); by rewrite lookup_insert_eq).
  assert (r <= b).
  { apply IH. intros k' v' Hk'. apply (Hall k').
    rewrite lookup_insert_ne; [done|]. intros ->. congruence. }
  case_match; lia.
Qed.

(** ** The classification order *)

Lemma StronglySorted_mono {A : Type} (R1 R2 : relation A) (l : list A) :
  (∀ x y, R1 x y → R2 x y) → StronglySorted R1 l → StronglySorted R2 l.
Proof.
  intros HR. induction 1 as [|x l Hl IH Hx]; constructor; [done|].
  eapply Forall_impl; [exact Hx|]. intros y. apply HR.
Qed.

Lemma digitVal_range (c : ascii) (d : Z) : digitVal c = Some d → 0 <= d <= 9.
Proof.
  unfold digitVal.
  destruct (Z.leb_spec 48 (Z.of_nat (nat_of_ascii c))); simpl; [|done].
  destruct (Z.leb_spec (Z.of_nat (nat_of_ascii c)) 57); [|done].
  intros [= <-]. lia.
Qed.

Lemma parseUintLoop_cases (s : string) (n : Z) :
  0 <= n < 2 ^ 64 →
  (∃ v, parseUintLoop n s = (v, None) ∧ 0 <= v < 2 ^ 64) ∨
  parseUintLoop n s = (0, Some ErrSyntax) ∨
  parseUintLoop n s = (2 ^ 64 - 1, Some ErrRange).
Proof.
  revert n. induction s as [|c s IH]; intros n Hn; simpl.
  { left. eauto. }
  destruct (digitVal c) as [d|] eqn:Hd; [|auto].
  apply digitVal_range in Hd.
  destruct (Z.leb_spec ((2 ^ 64 - 1) / 10 + 1) n); [auto|].
  destruct (Z.ltb_spec (2 ^ 64 - 1) (n * 10 + d)); [auto|].
  apply IH. lia.
Qed.

Section Order.

Context {sorter : SliceSorter} (laws : SliceSorterLaws sorter).
Variable height : Z.
Variable deals : gmap string MarketDeal.

Lemma orderedDealList_Permutation order :
  orderedDealList height deals order ≡ₚ liveIDs height deals order.
Proof. apply (sort_Slice_Permutation laws). Qed.

Lemma orderedDealList_Sorted order :
  StronglySorted (λ a b, keyLe (dealKey deals a) (dealKey deals b))
    (orderedDealList height deals order).
Proof.
  eapply StronglySorted_mono;
    [|apply (sort_Slice_Sorted laws (dealLess deals)), dealLess_StrictWeakOrder].
  intros a b H. simpl in H. by apply dealLess_false_keyLe.
Qed.

Lemma elem_of_liveIDs order dealID :
  dealID ∈ liveIDs height deals order ↔
  dealID ∈ order ∧ notLive height (lookupDeal deals dealID) = false.
Proof. unfold liveIDs. rewrite list_elem_of_filter. tauto. Qed.

Lemma rangeOrder_Permutation order1 order2 :
  rangeOrder deals order1 → rangeOrder deals order2 → order1 ≡ₚ order2.
Proof.
  intros [Hnd1 Hd1] [Hnd2 Hd2]. apply NoDup_Permutation; [done..|].
  intros x. rewrite <- !(elem_of_list_to_set (C := gset string)).
  by rewrite <- Hd1, <- Hd2.
Qed.

Lemma keyLe_antisym k1 k2 : keyLe k1 k2 → keyLe k2 k1 → k1 = k2.
Proof.
  destruct k1 as [[a1 b1] c1], k2 as [[a2 b2] c2]. unfold keyLe.
  intros H1 H2. f_equal; [f_equal|]; lia.
Qed.

(** With distinct keys the classification order does not depend on the
    order in which the map of deals is iterated. *)
Lemma orderedDealList_unique order1 order2 :
  order1 ≡ₚ order2 → distinctKeys height deals order1 →
  orderedDealList height deals order1 = orderedDealList height deals order2.
Proof.
  intros Hp Hdist.
  apply (StronglySorted_unique_strong
           (λ a b, keyLe (dealKey deals a) (dealKey deals b)));
    [|apply orderedDealList_Sorted..|].
  - intros a b Ha Hb H1 H2. apply Hdist.
    + by rewrite <- orderedDealList_Permutation.
    + rewrite orderedDealList_Permutation in Hb.
      unfold liveIDs in *. by rewrite Hp.
    + by apply keyLe_antisym.
  - rewrite !orderedDealList_Permutation. unfold liveIDs. by rewrite Hp.
Qed.

End Order.

Lemma ParseUint_cases (s : string) :
  (∃ n, ParseUint s = (n, None) ∧ 0 <= n < 2 ^ 64) ∨
  ParseUint s = (0, Some ErrSyntax) ∨
  ParseUint s = (2 ^ 64 - 1, Some ErrRange).
Proof.
  unfold ParseUint. destruct s as [|c s]; [auto|].
  apply parseUintLoop_cases. lia.
Qed.

(** The value [strconv.ParseInt] returns with an error. *)
Lemma ParseInt_error (s : string) :
  ((ParseInt s).2 = Some ErrSyntax → (ParseInt s).1 = 0) ∧
  ((ParseInt s).2 = Some ErrRange →
   (ParseInt s).1 = 2 ^ 63 - 1 ∨ (ParseInt s).1 = - 2 ^ 63).
Proof.
  unfold ParseInt. destruct s as [|c rest]; simpl; [split; [done|discriminate]|].
  set (s' := if _ : bool then rest else String c rest).
  destruct (ParseUint_cases s') as [(n & -> & Hn)|[->| ->]]; simpl.
  - repeat case_match; simpl; split; try discriminate; auto.
  - split; [done|discriminate].
  - repeat case_match; simpl; split; try discriminate; auto.
Qed.

(** Without an error the value is an [int64]. *)
Lemma ParseInt_range (s : string) :
  (ParseInt s).2 = None → in_int64 (ParseInt s).1.
Proof.
  unfold ParseInt, in_int64. destruct s as [|c rest]; simpl; [discriminate|].
  set (s' := if _ : bool then rest else String c rest).
  destruct (ParseUint_cases s') as [(n & -> & Hn)|[->| ->]]; simpl.
  - destruct (Ascii.eqb c "-"); simpl; zbool.
  - discriminate.
  - destruct (Ascii.eqb c "-"); simpl; discriminate.
Qed.

(** *** Ids as the node renders them *)

Lemma uintVal_ge (d : Decimal.uint) (acc : Z) : 0 <= acc → acc <= uintVal acc d.
Proof.
  revert acc. induction d as [|d IH|d IH|d IH|d IH|d IH|d IH|d IH|d IH|d IH|d IH];
    intros acc Hacc; simpl; [lia|..];
    match goal with |- _ <= uintVal ?a _ => specialize (IH a); lia end.
Qed.

Lemma parseUintLoop_string_of_uint (d : Decimal.uint) (n : Z) :
  0 <= n → uintVal n d < 2 ^ 64 →
  parseUintLoop n (NilEmpty.string_of_uint d) = (uintVal n d, None).
Proof.
  revert n. induction d as [|d IH|d IH|d IH|d IH|d IH|d IH|d IH|d IH|d IH|d IH];
    intros n Hn Hv; [done|..];
    cbn [NilEmpty.string_of_uint parseUintLoop uintVal] in Hv |- *;
    match goal with |- context [digitVal ?c] =>
      let v := eval vm_compute in (digitVal c) in
      change (digitVal c) with v end;
    cbv iota;
    match type of Hv with uintVal ?a _ < _ =>
      pose proof (uintVal_ge d a ltac:(lia)) end;
    change ((2 ^ 64 - 1) / 10 + 1) with 1844674407370955162;
    (destruct (Z.leb_spec 1844674407370955162 n); [lia|]);
    cbv zeta;
    match goal with |- context [_ <? ?m] =>
      destruct (Z.ltb_spec (2 ^ 64 - 1) m); [lia|] end;
    match type of Hv with uintVal ?a _ < _ =>
      match goal with |- parseUintLoop ?b _ = _ =>
        replace b with a by lia end end;
    apply IH; lia.
Qed.

Lemma uintVal_pos (d : Decimal.uint) (acc : positive) :
  uintVal (Z.pos acc) d = Z.pos (Pos.of_uint_acc d acc).
Proof.
  revert acc. induction d; intros acc; simpl; try done.
  all: try (rewrite <- IHd; f_equal; lia).
Qed.

Lemma uintVal_0 (d : Decimal.uint) : uintVal 0 d = Z.of_uint d.
Proof.
  unfold Z.of_uint. induction d; simpl; try done.
  all: try (change (10 * 0 + 1) with 1; apply uintVal_pos).
Qed.

Lemma ParseUint_NilZero (d : Decimal.uint) :
  Z.of_uint d < 2 ^ 64 →
  ∃ c rest, NilZero.string_of_uint d = String c rest ∧
            Ascii.eqb c "+" = false ∧ Ascii.eqb c "-" = false ∧
            ParseUint (String c rest) = (Z.of_uint d, None).
Proof.
  intros Hd.
  assert (Hp : parseUintLoop 0 (NilEmpty.string_of_uint d) = (Z.of_uint d, None)).
  { rewrite parseUintLoop_string_of_uint; rewrite ?uintVal_0; done. }
  destruct d; simpl NilZero.string_of_uint;
    (eexists _, _; split; [reflexivity|]; split; [done|]; split; [done|]);
    [done|exact Hp..].
Qed.

(** Parsing the rendering of an [int64] gives the integer back. *)
Lemma ParseInt_FormatInt (z : Z) :
  in_int64 z → ParseInt (FormatInt z) = (z, None).
Proof.
  unfold in_int64. intros Hz. unfold FormatInt.
  pose proof (DecimalZ.of_to z) as Hof.
  destruct (Z.to_int z) as [d|d]; simpl in Hof |- *.
  - destruct (ParseUint_NilZero d) as (c & rest & -> & Hp & Hm & Hd); [lia|].
    unfold ParseInt. rewrite Hp, Hm. cbn [orb negb andb].
    rewrite Hd, Hof.
    destruct (Z.leb_spec (2 ^ 63) z); [lia|]. done.
  - destruct (ParseUint_NilZero d) as (c & rest & Hs & _ & _ & Hd); [lia|].
    unfold ParseInt.
    change (Ascii.eqb "-" "-") with true. change (Ascii.eqb "-" "+") with false.
    cbn [orb negb andb]. rewrite Hs, Hd.
    destruct (Z.ltb_spec (2 ^ 63) (Z.of_uint d)); [lia|].
    by rewrite Hof.
Qed.

Lemma canonicalIDs_distinctKeys (height : Z) (deals : gmap string MarketDeal)
    (order : list string) :
  canonicalIDs height deals order → distinctKeys height deals order.
Proof.
  intros Hcan a b Ha Hb Hkey.
  destruct (Hcan a Ha) as (za & Hza & ->).
  destruct (Hcan b Hb) as (zb & Hzb & ->).
  unfold dealKey in Hkey. injection Hkey as _ _ Hp.
  rewrite !ParseInt_FormatInt in Hp by done. simpl in Hp. by subst.
Qed.

(** Settle a decidable statement about concrete data by evaluation. *)
Ltac decide_by_compute :=
  refine (bool_decide_unpack _ _); vm_compute; exact I.

Lemma distinctKeys_Forall (height : Z) (deals : gmap string MarketDeal)
    (order : list string) :
  Forall (λ a, Forall (λ b, dealKey deals a = dealKey deals b → a = b)
                 (liveIDs height deals order))
    (liveIDs height deals order) →
  distinctKeys height deals order.
Proof.
  intros H a b Ha Hb. rewrite Forall_forall in H.
  specialize (H a Ha). rewrite Forall_forall in H. by apply H.
Qed.

(** ** Deals that are not live *)

Section NotLive.

Context {sorter : SliceSorter} (laws : SliceSorterLaws sorter).
Variable EpochsInDay : Z.
Variable StateAccountKey : Address → option Address.
Variable cid_Parse : string → option (string * string).
Variable height : Z.
Variable currentPhaseStart : Z.
Variable knownAddrMap : gmap Address string.
Variable knownRestoreClients : gmap Address unit.

(** The loop reads the snapshot at the ids it iterates only. *)
Lemma processDeals_ext (deals deals' : gmap string MarketDeal) l st :
  (∀ x, x ∈ l → lookupDeal deals x = lookupDeal deals' x) →
  processDeals EpochsInDay StateAccountKey cid_Parse currentPhaseStart
    knownAddrMap knownRestoreClients deals st l
  = processDeals EpochsInDay StateAccountKey cid_Parse currentPhaseStart
      knownAddrMap knownRestoreClients deals' st l.
Proof.
  revert st. induction l as [|x l IH]; intros st H; simpl; [done|].
  assert (Hx : processDeal EpochsInDay StateAccountKey cid_Parse
                 currentPhaseStart knownAddrMap knownRestoreClients deals st x
               = processDeal EpochsInDay StateAccountKey cid_Parse
                   currentPhaseStart knownAddrMap knownRestoreClients deals' st x).
  { unfold processDeal. rewrite (H x); [done|]. by left. }
  rewrite Hx. apply IH. intros y Hy. apply H. by right.
Qed.

Lemma lookupDeal_delete_ne (deals : gmap string MarketDeal) dealID x :
  x ≠ dealID → lookupDeal (delete dealID deals) x = lookupDeal deals x.
Proof. intros. unfold lookupDeal. by rewrite lookup_delete_ne. Qed.

Lemma liveIDs_delete (deals : gmap string MarketDeal) dealID order :
  notLive height (lookupDeal deals dealID) = true →
  liveIDs height (delete dealID deals) (filter (λ x, x ≠ dealID) order)
  = liveIDs height deals order.
Proof.
  intros Hn. unfold liveIDs.
  induction order as [|x order IH]; [done|].
  destruct (decide (x = dealID)) as [->|Hne].
  - rewrite (filter_cons_False (λ x, x ≠ dealID)) by naive_solver.
    rewrite (filter_cons_False _ dealID) by (by rewrite Hn). done.
  - rewrite (filter_cons_True (λ x, x ≠ dealID)) by done.
    rewrite !filter_cons, lookupDeal_delete_ne by done.
    case_decide; by rewrite IH.
Qed.

Lemma not_elem_of_liveIDs (deals : gmap string MarketDeal) dealID order :
  notLive height (lookupDeal deals dealID) = true →
  dealID ∉ liveIDs height deals order.
Proof. rewrite elem_of_liveIDs. intros Hn [_ H]. congruence. Qed.

Lemma orderedDealList_delete (deals : gmap string MarketDeal) dealID order :
  notLive height (lookupDeal deals dealID) = true →
  orderedDealList height (delete dealID deals) (filter (λ x, x ≠ dealID) order)
  = orderedDealList height deals order.
Proof.
  intros Hn. unfold orderedDealList. rewrite liveIDs_delete by done.
  apply (sort_Slice_ext laws). intros x y Hx Hy.
  assert (x ≠ dealID) by (intros ->; by eapply not_elem_of_liveIDs).
  assert (y ≠ dealID) by (intros ->; by eapply not_elem_of_liveIDs).
  unfold dealLess. by rewrite !lookupDeal_delete_ne.
Qed.

Lemma rangeOrder_delete (deals : gmap string MarketDeal) dealID order :
  rangeOrder deals order →
  rangeOrder (delete dealID deals) (filter (λ x, x ≠ dealID) order).
Proof.
  intros [Hnd Hdom]. split; [by apply NoDup_filter|].
  rewrite dom_delete_L, Hdom. apply set_eq. intros x.
  rewrite elem_of_difference, !elem_of_list_to_set, list_elem_of_filter.
  rewrite elem_of_singleton. tauto.
Qed.

End NotLive.

(** ** The recovery list *)

Section Recovery.

Variable EpochsInDay : Z.
Variable StateAccountKey : Address → option Address.
Variable cid_Parse : string → option (string * string).
Variable currentPhaseStart : Z.
Variable knownAddrMap : gmap Address string.
Variable knownRestoreClients : gmap Address unit.
Variable deals : gmap string MarketDeal.

Local Abbreviation recoveryOf' :=
  (recoveryOf EpochsInDay StateAccountKey cid_Parse knownRestoreClients deals).

Lemma recoveredDeals_processResolved st dealID w pc pc32 d :
  recoveredDeals (processResolved EpochsInDay currentPhaseStart knownAddrMap
                    knownRestoreClients st dealID w pc pc32 d)
  = recoveredDeals st ++
    (if isRecover EpochsInDay knownRestoreClients w d
     then [mkRecoveredDeal dealID w pc32 d] else []).
Proof.
  unfold processResolved, countDeal.
  destruct (isRecover _ _ w d); repeat case_match; simpl;
    by rewrite ?(right_id_L [] (++)).
Qed.

Lemma recoveredDeals_processDeal st dealID :
  cacheOK StateAccountKey st →
  recoveredDeals (processDeal EpochsInDay StateAccountKey cid_Parse
                    currentPhaseStart knownAddrMap knownRestoreClients deals
                    st dealID)
  = recoveredDeals st ++ recoveryOf' dealID.
Proof.
  intros Hc. unfold recoveryOf.
  destruct (StateAccountKey (Client (Proposal (lookupDeal deals dealID))))
    as [w|] eqn:E.
  - destruct (processDeal_resolved EpochsInDay StateAccountKey cid_Parse
      currentPhaseStart knownAddrMap knownRestoreClients deals st dealID w Hc E)
      as (m & _ & ->).
    simpl. apply recoveredDeals_processResolved.
  - rewrite processDeal_unresolved by done. by rewrite (right_id_L [] (++)).
Qed.

Lemma recoveredDeals_processDeals l st :
  cacheOK StateAccountKey st →
  recoveredDeals (processDeals EpochsInDay StateAccountKey cid_Parse
                    currentPhaseStart knownAddrMap knownRestoreClients deals
                    st l)
  = recoveredDeals st ++ (l ≫= recoveryOf').
Proof.
  revert st. induction l as [|x l IH]; intros st Hc.
  { simpl. by rewrite (right_id_L [] (++)). }
  change (processDeals EpochsInDay StateAccountKey cid_Parse currentPhaseStart
            knownAddrMap knownRestoreClients deals st (x :: l))
    with (processDeals EpochsInDay StateAccountKey cid_Parse currentPhaseStart
            knownAddrMap knownRestoreClients deals
            (processDeal EpochsInDay StateAccountKey cid_Parse currentPhaseStart
               knownAddrMap knownRestoreClients deals st x) l).
  rewrite IH by (by apply processDeal_cacheOK).
  rewrite recoveredDeals_processDeal by done.
  by rewrite <- (assoc_L (++)).
Qed.

End Recovery.

(** The deal of the wallet of the workaround is in the recovery list and
    in no total. *)
Example recovery_of_excluded_wallet :
  let out := rollup (sorter := go115_small) Scenario.EpochsInDay
               Scenario.StateAccountKey Scenario.cid_Parse Scenario.height
               defaultPhaseStart RecoveryScenario.bothRegistries.1
               RecoveryScenario.bothRegistries.2
               RecoveryScenario.excludedDeals ["12"] in
  rd_DealID <$> recovery_deallist out = ["12"] ∧
  rd_ClientAddress <$> recovery_deallist out = [workaroundWallet] ∧
  TotalDeals (basic_stats out) = 0 ∧
  client_stats out = ∅ ∧
  deals_list out = ∅.
Proof. repeat split; by vm_compute. Qed.

(** ** The cap on one piece cid *)

Section Cap.

Variable EpochsInDay : Z.
Variable StateAccountKey : Address → option Address.
Variable cid_Parse : string → option (string * string).
Variable currentPhaseStart : Z.
Variable knownAddrMap : gmap Address string.
Variable knownRestoreClients : gmap Address unit.
Variable deals : gmap string MarketDeal.

Local Abbreviation processDeal' :=
  (processDeal EpochsInDay StateAccountKey cid_Parse currentPhaseStart
     knownAddrMap knownRestoreClients deals).
Local Abbreviation processDeals' :=
  (processDeals EpochsInDay StateAccountKey cid_Parse currentPhaseStart
     knownAddrMap knownRestoreClients deals).
Local Abbreviation processResolved' :=
  (processResolved EpochsInDay currentPhaseStart knownAddrMap knownRestoreClients).

(** With the total of counted deals, the count of the participant and its
    deal list move together. *)
Lemma processResolved_matched_lists st dealID w pc pc32 d projID :
  isWorkaround w d = false → knownAddrMap !! w = Some projID →
  let st' := processResolved' st dealID w pc pc32 d in
  (TotalDeals (grandTotals st') = TotalDeals (grandTotals st) + 1 ∧
   numDealsOf st' projID = numDealsOf st projID + 1 ∧
   dealIDsOf st' projID = dealIDsOf st projID ++ [dealID])
  ∨
  (TotalDeals (grandTotals st') = TotalDeals (grandTotals st) ∧
   numDealsOf st' projID = numDealsOf st projID ∧
   dealIDsOf st' projID = dealIDsOf st projID).
Proof.
  intros Hw Hk. unfold processResolved. rewrite Hw, Hk.
  set (st0 := if isRecover _ _ w d then _ else st).
  assert (Hps : projStats st0 = projStats st) by (subst st0; by case_match).
  assert (Hgt : grandTotals st0 = grandTotals st) by (subst st0; by case_match).
  assert (Hdl : projDealLists st0 = projDealLists st) by (subst st0; by case_match).
  set (e := match projStats st0 !! projID with Some e => e | None => _ end).
  assert (He : ps_NumDeals e = numDealsOf st projID).
  { subst e. unfold numDealsOf. rewrite Hps. by destruct (projStats st !! projID). }
  assert (Hsame : ∀ rw rd gt,
    let st1 := {| resolvedWallets := rw; recoveredDeals := rd;
                  projStats := <[projID := bumpAllTime e (PieceCID (Proposal d))]>
                                 (projStats st0);
                  projDealLists := projDealLists st0; grandTotals := gt |} in
    numDealsOf st1 projID = numDealsOf st projID ∧
    dealIDsOf st1 projID = dealIDsOf st projID).
  { intros. unfold numDealsOf at 1, dealIDsOf. simpl.
    by rewrite lookup_insert_eq, Hdl. }
  repeat case_match; simpl.
  - right. rewrite Hgt. split; [done|]. apply Hsame.
  - right. rewrite Hgt. split; [done|]. apply Hsame.
  - right. rewrite Hgt. split; [done|]. apply Hsame.
  - left. rewrite Hgt. split; [done|].
    unfold numDealsOf at 1, dealIDsOf. simpl. rewrite !lookup_insert_eq. simpl.
    rewrite He, Hdl, fmap_app. done.
Qed.

Variable projID : string.
Variable pieceCID : Cid.

Local Abbreviation qualifies' :=
  (qualifies EpochsInDay StateAccountKey currentPhaseStart knownAddrMap deals
     projID pieceCID).
Local Abbreviation capInv' := (capInv StateAccountKey projID pieceCID).

Lemma capInv_initial : capInv' [] initialState.
Proof.
  split; [apply cacheOK_initial|]. by repeat split.
Qed.

Lemma capInv_step seen st dealID :
  capInv' seen st → qualifies' dealID →
  capInv' (seen ++ [dealID]) (processDeal' st dealID).
Proof.
  intros (Hc & Ht & Htot & Hnum & Hids) (w & Hs & Hw & Hk & Hp & Hphase & Hdur).
  destruct (processDeal_resolved EpochsInDay StateAccountKey cid_Parse
    currentPhaseStart knownAddrMap knownRestoreClients deals st dealID w Hc Hs)
    as (m & Hc' & ->).
  set (d := lookupDeal deals dealID) in *.
  set (st' := processResolved' st dealID w _ _ d).
  pose proof (processResolved_matched EpochsInDay currentPhaseStart knownAddrMap
    knownRestoreClients st dealID w (payloadCids cid_Parse d).1
    (payloadCids cid_Parse d).2 d projID Hw Hk) as [Ht' Hcase].
  pose proof (processResolved_matched_lists st dealID w
    (payloadCids cid_Parse d).1 (payloadCids cid_Parse d).2 d projID Hw Hk)
    as Hlists.
  fold st' in Ht', Hcase, Hlists. simpl in Ht', Hcase, Hlists.
  rewrite Hp in Ht', Hcase.
  unfold capInv. rewrite length_app, Nat2Z.inj_add. simpl length.
  change (allTimeTally (withResolvedWallets st' m)) with (allTimeTally st').
  change (numDealsOf (withResolvedWallets st' m)) with (numDealsOf st').
  change (dealIDsOf (withResolvedWallets st' m)) with (dealIDsOf st').
  change (grandTotals (withResolvedWallets st' m)) with (grandTotals st').
  split.
  { intros h a. simpl. subst st'.
    intros Hm. apply (Hc' h a). exact Hm. }
  split; [lia|].
  destruct Hcase as [(_ & _ & Hcap & Hinc)|(Hno & Hsame)].
  - destruct Hlists as [(_ & Hn & Hl)|(Heq & _)]; [|lia].
    rewrite Hinc, Hn, Hl, Hids.
    assert (length seen < 9)%nat by lia.
    rewrite take_ge by lia. rewrite take_ge by (rewrite length_app; simpl; lia).
    repeat split; lia || done.
  - destruct Hlists as [(Hinc & _)|(_ & Hn & Hl)]; [lia|].
    rewrite Hsame, Hn, Hl, Hids.
    assert (9 <= length seen)%nat by lia.
    rewrite take_app_le by lia.
    repeat split; lia || done.
Qed.

Lemma capInv_processDeals l seen st :
  capInv' seen st → (∀ x, x ∈ l → qualifies' x) →
  capInv' (seen ++ l) (processDeals' st l).
Proof.
  revert seen st. induction l as [|x l IH]; intros seen st Hinv Hq.
  { simpl. by rewrite (right_id_L [] (++)). }
  change (processDeals' st (x :: l)) with (processDeals' (processDeal' st x) l).
  rewrite (cons_middle x seen l), (assoc_L (++)).
  apply IH.
  - apply capInv_step; [done|]. apply Hq. by left.
  - intros y Hy. apply Hq. by right.
Qed.

End Cap.

(** ** The set of seen projects *)

Section SeenProject.

Variable EpochsInDay : Z.
Variable currentPhaseStart : Z.
Variable knownAddrMap : gmap Address string.
Variable knownRestoreClients : gmap Address unit.

(** Past the phase-start and duration gates the participant is marked,
    whatever the cap decides; when the cap excludes the deal, nothing
    else of the totals moves. *)
Lemma processResolved_marks st dealID w pc pc32 d projID :
  isWorkaround w d = false → knownAddrMap !! w = Some projID →
  currentPhaseStart <= SectorStartEpoch (State d) →
  EpochsInDay * 360 <= dealDuration d →
  let st' := processResolved EpochsInDay currentPhaseStart knownAddrMap
               knownRestoreClients st dealID w pc pc32 d in
  seenProject (grandTotals st') !! projID = Some true ∧
  (10 <= allTimeTally st projID (PieceCID (Proposal d)) + 1 →
   TotalDeals (grandTotals st') = TotalDeals (grandTotals st) ∧
   TotalBytes (grandTotals st') = TotalBytes (grandTotals st) ∧
   seenClient (grandTotals st') = seenClient (grandTotals st) ∧
   seenProvider (grandTotals st') = seenProvider (grandTotals st) ∧
   seenPieceCid (grandTotals st') = seenPieceCid (grandTotals st)).
Proof.
  intros Hw Hk Hphase Hdur. unfold processResolved. rewrite Hw, Hk.
  set (st0 := if isRecover _ _ w d then _ else st).
  assert (Hps : projStats st0 = projStats st) by (subst st0; by case_match).
  assert (Hgt : grandTotals st0 = grandTotals st) by (subst st0; by case_match).
  set (e := match projStats st0 !! projID with Some e => e | None => _ end).
  assert (He : getZ (ps_timesSeenPieceCidAllTime
                       (bumpAllTime e (PieceCID (Proposal d))))
                 (PieceCID (Proposal d))
               = allTimeTally st projID (PieceCID (Proposal d)) + 1).
  { simpl. rewrite getZ_insert_eq. subst e. unfold allTimeTally. rewrite Hps.
    destruct (projStats st !! projID); [done|]. by rewrite getZ_empty. }
  rewrite He.
  destruct (Z.ltb_spec (SectorStartEpoch (State d)) currentPhaseStart); [lia|].
  destruct (Z.ltb_spec (dealDuration d) (EpochsInDay * 360)); [lia|].
  destruct (Z.leb_spec 10 (allTimeTally st projID (PieceCID (Proposal d)) + 1));
    simpl.
  - rewrite lookup_insert_eq, Hgt. done.
  - rewrite lookup_insert_eq. split; [done|]. lia.
Qed.

End SeenProject.

(** ** The participant registry *)

Lemma existsb_landsat (dsets : list string) :
  existsb (λ dset, String.eqb dset "landsat-8") dsets = true ↔
  "landsat-8" ∈ dsets.
Proof.
  induction dsets as [|x dsets IH]; simpl.
  { split; [done|]. by intros ?%elem_of_nil. }
  rewrite orb_true_iff, IH, elem_of_cons, String.eqb_eq.
  split; intros [?|?]; auto.
Qed.

Section ProjectListFacts.

Variable address_NewFromString : string → option Address.

(** An address of the map comes from the map the loop started with or
    from an entry without the tag. *)
Lemma knownProject_lookup proj ret m a projID :
  knownProject address_NewFromString proj ret = Some m →
  m !! a = Some projID →
  is_Some (ret !! a) ∨
  ∃ e dsets,
    e ∈ proj ∧ address_NewFromString (pe_address e) = Some a ∧
    pe_curatedDataset e = Some dsets ∧ ¬ "landsat-8" ∈ dsets.
Proof.
  revert ret. induction proj as [|p proj IH]; intros ret; simpl.
  { intros [= <-] Hm. left. eauto. }
  destruct (address_NewFromString (pe_address p)) as [a'|] eqn:Ha; [|done].
  destruct (pe_curatedDataset p) as [dsets|] eqn:Hd; [|done].
  destruct (existsb _ dsets) eqn:Hex.
  - intros Hk Hm. destruct (IH ret Hk Hm) as [?|(e & ds & He & ?)]; [by left|].
    right. exists e, ds. split; [by right|done].
  - intros Hk Hm. destruct (IH _ Hk Hm) as [Hin|(e & ds & He & ?)].
    + destruct (decide (a' = a)) as [->|Hne].
      * right. exists p, dsets. split; [by left|]. repeat split; try done.
        rewrite <- existsb_landsat. by rewrite Hex.
      * left. by rewrite lookup_insert_ne in Hin.
    + right. exists e, ds. split; [by right|done].
Qed.

End ProjectListFacts.

(** * The claims *)






(** C3 (as the code has it): the deal list emitted for a participant is a
    rearrangement of the list accumulated for it that is in descending
    order of piece size. *)
Theorem C3_emitted_deal_list_sorted {sorter : SliceSorter}
    (laws : SliceSorterLaws sorter)
    (EpochsInDay : Z) (StateAccountKey : Address → option Address)
    (cid_Parse : string → option (string * string))
    (height currentPhaseStart : Z) (knownAddrMap : gmap Address string)
    (knownRestoreClients : gmap Address unit)
    (deals : gmap string MarketDeal) (order : list string)
    (projID : string) (dl : list individualDeal) :
  deals_list (rollup EpochsInDay StateAccountKey cid_Parse height
                currentPhaseStart knownAddrMap knownRestoreClients deals order)
    !! projID = Some dl →
  ∃ acc,
    projDealLists (finalState EpochsInDay StateAccountKey cid_Parse height
                     currentPhaseStart knownAddrMap knownRestoreClients deals order)
      !! projID = Some acc ∧
    dl ≡ₚ acc ∧
    StronglySorted (λ a b, id_PaddedSize b <= id_PaddedSize a) dl.
Proof.
  unfold rollup. simpl. rewrite lookup_fmap.
  destruct (projDealLists _ !! projID) as [acc|]; [|done].
  intros [= <-]. exists acc. split; [done|].
  split; [apply (sort_Slice_Permutation laws)|].
  eapply StronglySorted_mono;
    [|apply (sort_Slice_Sorted laws sizeLess), sizeLess_StrictWeakOrder].
  intros a b H. simpl in H. unfold sizeLess in H. lia.
Qed.

Lemma C3_witness :
  ∃ acc,
    projDealLists (finalState (sorter := go115_small) Scenario.EpochsInDay
      Scenario.StateAccountKey Scenario.cid_Parse Scenario.height
      defaultPhaseStart Scenario.knownAddrMap Scenario.knownRestoreClients
      ListScenario.sevenDeals ListScenario.sevenOrder) !! "projA" = Some acc ∧
    sevenEmitted ≡ₚ acc ∧
    StronglySorted (λ a b, id_PaddedSize b <= id_PaddedSize a) sevenEmitted.
Proof.
  apply (C3_emitted_deal_list_sorted go115_small_laws
           Scenario.EpochsInDay Scenario.StateAccountKey Scenario.cid_Parse
           Scenario.height defaultPhaseStart Scenario.knownAddrMap
           Scenario.knownRestoreClients ListScenario.sevenDeals
           ListScenario.sevenOrder "projA" sevenEmitted).
  by vm_compute.
Defined.

(** C3, the claim as stated fails: the deals 1 to 6 have one piece size
    and are accumulated in this order; the sort moves the deal 1 behind
    the deals 2 to 6. *)
Lemma C3_counterexample :
  let acc := default []
    (projDealLists (finalState (sorter := go115_small) Scenario.EpochsInDay
       Scenario.StateAccountKey Scenario.cid_Parse Scenario.height
       defaultPhaseStart Scenario.knownAddrMap Scenario.knownRestoreClients
       ListScenario.sevenDeals ListScenario.sevenOrder) !! "projA") in
  let dl := default []
    (deals_list (rollup (sorter := go115_small) Scenario.EpochsInDay
       Scenario.StateAccountKey Scenario.cid_Parse Scenario.height
       defaultPhaseStart Scenario.knownAddrMap Scenario.knownRestoreClients
       ListScenario.sevenDeals ListScenario.sevenOrder) !! "projA") in
  id_DealID <$> acc = ["1"; "2"; "3"; "4"; "5"; "6"; "7"] ∧
  id_DealID <$> dl = ["7"; "2"; "3"; "4"; "5"; "6"; "1"] ∧
  ¬ sameOrderOnTies acc dl.
Proof.
  split; [by vm_compute|]. split; [by vm_compute|].
  intros H. specialize (H 1073741824).
  apply (f_equal (fmap id_DealID)) in H.
  vm_compute in H. discriminate.
Qed.

(** C4: for a live deal whose client resolves to a wallet, the recovery
    list has an entry of this deal exactly when the wallet is in the
    recovery registry, the sector start is at or after the recovery start
    and the duration is above 499 days of epochs; every entry has the
    recovery type 1; and the recovery list is the same whatever the
    participant registry and the phase start are (the workaround for one
    wallet comes after the emission and makes no exception to the
    equivalence). *)
Theorem C4_recovery_emission {sorter : SliceSorter}
    (laws : SliceSorterLaws sorter)
    (EpochsInDay : Z) (StateAccountKey : Address → option Address)
    (cid_Parse : string → option (string * string))
    (height currentPhaseStart : Z) (knownAddrMap : gmap Address string)
    (knownRestoreClients : gmap Address unit)
    (deals : gmap string MarketDeal) (order : list string)
    (dealID : string) (d : MarketDeal) (w : Address) :
  rangeOrder deals order →
  deals !! dealID = Some d →
  notLive height d = false →
  StateAccountKey (Client (Proposal d)) = Some w →
  let out := rollup EpochsInDay StateAccountKey cid_Parse height
               currentPhaseStart knownAddrMap knownRestoreClients deals order in
  ((∃ r, r ∈ recovery_deallist out ∧ rd_DealID r = dealID ∧
         rd_ClientAddress r = w ∧ rd_RecoveryType r = 1) ↔
   is_Some (knownRestoreClients !! w) ∧
   recoveryStart <= SectorStartEpoch (State d) ∧
   EpochsInDay * 499 < dealDuration d) ∧
  (∀ r, r ∈ recovery_deallist out → rd_RecoveryType r = 1) ∧
  (∀ currentPhaseStart' knownAddrMap',
     recovery_deallist
       (rollup EpochsInDay StateAccountKey cid_Parse height currentPhaseStart'
          knownAddrMap' knownRestoreClients deals order)
     = recovery_deallist out).
Proof.
  intros [Hnd Hdom] Hd Hlive Hw out.
  assert (Hrec : ∀ phase known,
    recovery_deallist
      (rollup EpochsInDay StateAccountKey cid_Parse height phase known
         knownRestoreClients deals order)
    = orderedDealList height deals order ≫=
        recoveryOf EpochsInDay StateAccountKey cid_Parse knownRestoreClients deals).
  { intros phase known. unfold rollup, finalState. simpl.
    rewrite recoveredDeals_processDeals by apply cacheOK_initial. done. }
  assert (Hmem : ∀ r, r ∈ recovery_deallist out ↔
    ∃ x, x ∈ liveIDs height deals order ∧
         r ∈ recoveryOf EpochsInDay StateAccountKey cid_Parse
               knownRestoreClients deals x).
  { intros r. subst out. rewrite Hrec, list_elem_of_bind.
    split; intros (x & Hr & Hx); exists x; split; try done.
    - by rewrite <- (orderedDealList_Permutation laws height deals order).
    - by rewrite (orderedDealList_Permutation laws height deals order). }
  assert (Hof : ∀ x r,
    r ∈ recoveryOf EpochsInDay StateAccountKey cid_Parse knownRestoreClients deals x →
    rd_DealID r = x ∧ rd_RecoveryType r = 1).
  { intros x r. unfold recoveryOf. repeat case_match;
      rewrite ?elem_of_nil, ?list_elem_of_singleton; try done.
    by intros ->. }
  assert (Hin : dealID ∈ liveIDs height deals order).
  { apply elem_of_liveIDs. split.
    - apply (elem_of_list_to_set (C := gset string)). rewrite <- Hdom.
      apply elem_of_dom. eauto.
    - unfold lookupDeal. by rewrite Hd. }
  split; [|split].
  - split.
    + intros (r & Hr & Hid & _). apply Hmem in Hr as (x & Hx & Hr).
      destruct (Hof x r Hr) as [Hx' _]. assert (x = dealID) as -> by congruence.
      unfold recoveryOf, lookupDeal in Hr. rewrite Hd in Hr. simpl in Hr.
      rewrite Hw in Hr. unfold isRecover in Hr.
      destruct (bool_decide _) eqn:Hb; simpl in Hr;
        [|by apply elem_of_nil in Hr].
      apply bool_decide_eq_true in Hb.
      destruct (Z.leb_spec recoveryStart (SectorStartEpoch (State d)));
        simpl in Hr; [|by apply elem_of_nil in Hr].
      destruct (Z.ltb_spec (EpochsInDay * 499) (dealDuration d));
        simpl in Hr; [|by apply elem_of_nil in Hr].
      done.
    + intros (Hreg & Hstart & Hdur).
      exists (mkRecoveredDeal dealID w (payloadCids cid_Parse d).2 d).
      split; [|by repeat split]. apply Hmem. exists dealID. split; [done|].
      unfold recoveryOf, lookupDeal. rewrite Hd. simpl. rewrite Hw.
      unfold isRecover. rewrite bool_decide_eq_true_2 by done.
      destruct (Z.leb_spec recoveryStart (SectorStartEpoch (State d))); [|lia].
      destruct (Z.ltb_spec (EpochsInDay * 499) (dealDuration d)); [|lia].
      simpl. by apply list_elem_of_singleton.
  - intros r Hr. apply Hmem in Hr as (x & _ & Hr). by apply (Hof x).
  - intros phase known. subst out. by rewrite !Hrec.
Qed.

(** The deal of a wallet of the recovery registry that is no participant
    is in the recovery list and not in the totals. *)
Lemma C4_witness :
  let out := rollup (sorter := go115_small) Scenario.EpochsInDay
               Scenario.StateAccountKey Scenario.cid_Parse Scenario.height
               defaultPhaseStart Scenario.knownAddrMap
               Scenario.knownRestoreClients RecoveryScenario.recoveryDeals
               ["11"] in
  (∃ r, r ∈ recovery_deallist out ∧ rd_DealID r = "11" ∧
        rd_ClientAddress r = "f1bob" ∧ rd_RecoveryType r = 1) ∧
  TotalDeals (basic_stats out) = 0 ∧
  deals_list out = ∅.
Proof.
  split; [|split; by vm_compute].
  apply (proj1 (C4_recovery_emission go115_small_laws
    Scenario.EpochsInDay Scenario.StateAccountKey Scenario.cid_Parse
    Scenario.height defaultPhaseStart Scenario.knownAddrMap
    Scenario.knownRestoreClients RecoveryScenario.recoveryDeals ["11"] "11"
    (Scenario.mkDeal "piece1" 1024 "f0200" "f01000"
       1700000 (1700000 + 500 * 2880) 1700000 (-1)) "f1bob"
    ltac:(split; [decide_by_compute|by vm_compute])
    ltac:(by vm_compute) ltac:(by vm_compute) ltac:(by vm_compute))).
  split; [by exists tt|]. split; [vm_compute; discriminate|by vm_compute].
Defined.

(** C5: a deal of the snapshot whose sector start is at most 0 or above
    the height of the tipset, or whose slash epoch is at least 0, is not in
    the classification order, and the whole output of the run (totals,
    participant and wallet statistics with the all-time tallies, deal
    lists, recovery list) is the output of the run on the snapshot
    without this deal. *)
Theorem C5_deal_not_live_in_no_output {sorter : SliceSorter}
    (laws : SliceSorterLaws sorter)
    (EpochsInDay : Z) (StateAccountKey : Address → option Address)
    (cid_Parse : string → option (string * string))
    (height currentPhaseStart : Z) (knownAddrMap : gmap Address string)
    (knownRestoreClients : gmap Address unit)
    (deals : gmap string MarketDeal) (order : list string)
    (dealID : string) (d : MarketDeal) :
  rangeOrder deals order →
  deals !! dealID = Some d →
  (SectorStartEpoch (State d) <= 0 ∨ height < SectorStartEpoch (State d)
    ∨ 0 <= SlashEpoch (State d)) →
  (dealID ∉ orderedDealList height deals order) ∧
  rangeOrder (delete dealID deals) (filter (λ x, x ≠ dealID) order) ∧
  rollup EpochsInDay StateAccountKey cid_Parse height currentPhaseStart
    knownAddrMap knownRestoreClients deals order
  = rollup EpochsInDay StateAccountKey cid_Parse height currentPhaseStart
      knownAddrMap knownRestoreClients (delete dealID deals)
      (filter (λ x, x ≠ dealID) order).
Proof.
  intros Hrange Hd Hdead.
  assert (Hn : notLive height (lookupDeal deals dealID) = true).
  { unfold lookupDeal, notLive. rewrite Hd. simpl. zbool. }
  split; [|split].
  - rewrite (orderedDealList_Permutation laws). by apply not_elem_of_liveIDs.
  - by apply rangeOrder_delete.
  - unfold rollup, finalState. rewrite (orderedDealList_delete laws) by done.
    rewrite (processDeals_ext _ _ _ _ _ _ deals (delete dealID deals)); [done|].
    intros x Hx. symmetry. apply lookupDeal_delete_ne. intros ->.
    rewrite (orderedDealList_Permutation laws) in Hx.
    by eapply not_elem_of_liveIDs.
Qed.

Lemma C5_witness :
  ("4" ∉ orderedDealList (sorter := go115_small) Scenario.height
           LiveScenario.mixedDeals LiveScenario.mixedOrder) ∧
  rangeOrder (delete "4" LiveScenario.mixedDeals)
    (filter (λ x, x ≠ "4") LiveScenario.mixedOrder) ∧
  rollup (sorter := go115_small) Scenario.EpochsInDay Scenario.StateAccountKey
    Scenario.cid_Parse Scenario.height defaultPhaseStart Scenario.knownAddrMap
    Scenario.knownRestoreClients LiveScenario.mixedDeals LiveScenario.mixedOrder
  = rollup (sorter := go115_small) Scenario.EpochsInDay Scenario.StateAccountKey
      Scenario.cid_Parse Scenario.height defaultPhaseStart Scenario.knownAddrMap
      Scenario.knownRestoreClients (delete "4" LiveScenario.mixedDeals)
      (filter (λ x, x ≠ "4") LiveScenario.mixedOrder).
Proof.
  apply (C5_deal_not_live_in_no_output go115_small_laws
           Scenario.EpochsInDay Scenario.StateAccountKey Scenario.cid_Parse
           Scenario.height defaultPhaseStart Scenario.knownAddrMap
           Scenario.knownRestoreClients LiveScenario.mixedDeals
           LiveScenario.mixedOrder "4"
           (Scenario.mkDeal "piece1" 1024 "f0200" "f01000" 1700000 3200000
              1700000 0)).
  - split; [decide_by_compute|by vm_compute].
  - by vm_compute.
  - right. right. simpl. lia.
Defined.

(** C6 (as the code has it): the classification order is a rearrangement
    of the live deal ids that is in ascending order of the key (sector
    start, proposal start, deal id parsed as a decimal integer). The
    numeric key of an id is the value [strconv.ParseInt] returns for it:
    0 on a syntax error, the nearest bound of the range of [int64] on a
    range error, an [int64] otherwise, and the integer itself for the
    decimal rendering of an [int64]. *)
Theorem C6_classification_order {sorter : SliceSorter}
    (laws : SliceSorterLaws sorter) (height : Z)
    (deals : gmap string MarketDeal) (order : list string) :
  orderedDealList height deals order ≡ₚ liveIDs height deals order ∧
  StronglySorted (λ a b, keyLe (dealKey deals a) (dealKey deals b))
    (orderedDealList height deals order) ∧
  ∀ dealID,
    (dealKey deals dealID).2 = (ParseInt dealID).1 ∧
    ((ParseInt dealID).2 = Some ErrSyntax → (dealKey deals dealID).2 = 0) ∧
    ((ParseInt dealID).2 = Some ErrRange →
     (dealKey deals dealID).2 = 2 ^ 63 - 1 ∨ (dealKey deals dealID).2 = - 2 ^ 63) ∧
    ((ParseInt dealID).2 = None → in_int64 (dealKey deals dealID).2) ∧
    (∀ z, in_int64 z → dealID = FormatInt z → (dealKey deals dealID).2 = z).
Proof.
  split; [apply (orderedDealList_Permutation laws)|].
  split; [apply (orderedDealList_Sorted laws)|].
  intros dealID. simpl. split; [done|].
  destruct (ParseInt_error dealID) as [Hs Hr].
  split; [exact Hs|]. split; [exact Hr|]. split; [apply ParseInt_range|].
  intros z Hz ->. by rewrite ParseInt_FormatInt.
Qed.

Lemma C6_witness :
  orderedDealList (sorter := go115_small) Scenario.height
    OrderScenario.plainDeals OrderScenario.plainOrder2 = ["1"; "2"; "3"] ∧
  StronglySorted
    (λ a b, keyLe (dealKey OrderScenario.plainDeals a)
                  (dealKey OrderScenario.plainDeals b))
    (orderedDealList (sorter := go115_small) Scenario.height
       OrderScenario.plainDeals OrderScenario.plainOrder2).
Proof.
  split; [by vm_compute|].
  apply (C6_classification_order go115_small_laws Scenario.height
           OrderScenario.plainDeals OrderScenario.plainOrder2).
Defined.

(** C6, the claim as stated fails: the id 9223372036854775808 does not
    parse as an [int64], and its deal is sorted after the deal 5, not
    before it as the key 0 would have it. *)
Lemma C6_counterexample :
  let l := orderedDealList (sorter := go115_small) Scenario.height
             OrderScenario.bigIdDeals OrderScenario.bigIdOrder in
  (ParseInt "9223372036854775808").2 = Some ErrRange ∧
  (ParseInt "9223372036854775808").1 = 2 ^ 63 - 1 ∧
  l = ["5"; "9223372036854775808"] ∧
  ¬ StronglySorted
      (λ a b, keyLe (statedKey OrderScenario.bigIdDeals a)
                    (statedKey OrderScenario.bigIdDeals b)) l.
Proof.
  split; [reflexivity|]. split; [reflexivity|].
  assert (Hl : orderedDealList (sorter := go115_small) Scenario.height
                 OrderScenario.bigIdDeals OrderScenario.bigIdOrder
               = ["5"; "9223372036854775808"]) by (by vm_compute).
  rewrite Hl. split; [done|].
  intros H. apply StronglySorted_inv in H as [_ H].
  apply Forall_inv in H.
  assert (H5 : statedKey OrderScenario.bigIdDeals "5" = (1700000, 1700000, 5))
    by (by vm_compute).
  assert (Hbig : statedKey OrderScenario.bigIdDeals "9223372036854775808"
                 = (1700000, 1700000, 0)) by (by vm_compute).
  rewrite H5, Hbig in H. unfold keyLe in H. lia.
Qed.

(** C7 (as the code has it): when no two live deals share the three parts
    of the sort key, as is the case when every live deal id is the decimal
    rendering of an [int64], two runs over the same snapshot, height,
    registries and resolver give the same output, whatever the orders in
    which the map of deals is iterated. *)
Theorem C7_deterministic_with_distinct_keys {sorter : SliceSorter}
    (laws : SliceSorterLaws sorter)
    (EpochsInDay : Z) (StateAccountKey : Address → option Address)
    (cid_Parse : string → option (string * string))
    (height currentPhaseStart : Z) (knownAddrMap : gmap Address string)
    (knownRestoreClients : gmap Address unit)
    (deals : gmap string MarketDeal) (order1 order2 : list string) :
  rangeOrder deals order1 → rangeOrder deals order2 →
  distinctKeys height deals order1 ∨ canonicalIDs height deals order1 →
  rollup EpochsInDay StateAccountKey cid_Parse height currentPhaseStart
    knownAddrMap knownRestoreClients deals order1
  = rollup EpochsInDay StateAccountKey cid_Parse height currentPhaseStart
      knownAddrMap knownRestoreClients deals order2.
Proof.
  intros H1 H2 Hdist. unfold rollup, finalState.
  rewrite (orderedDealList_unique laws height deals order1 order2);
    [done| |].
  - by apply (rangeOrder_Permutation deals).
  - destruct Hdist as [?|?]; [done|by apply canonicalIDs_distinctKeys].
Qed.

Lemma C7_witness :
  rangeOrder OrderScenario.plainDeals OrderScenario.plainOrder1 ∧
  rangeOrder OrderScenario.plainDeals OrderScenario.plainOrder2 ∧
  rollup (sorter := go115_small) Scenario.EpochsInDay Scenario.StateAccountKey
    Scenario.cid_Parse Scenario.height defaultPhaseStart Scenario.knownAddrMap
    Scenario.knownRestoreClients OrderScenario.plainDeals OrderScenario.plainOrder1
  = rollup (sorter := go115_small) Scenario.EpochsInDay Scenario.StateAccountKey
      Scenario.cid_Parse Scenario.height defaultPhaseStart Scenario.knownAddrMap
      Scenario.knownRestoreClients OrderScenario.plainDeals OrderScenario.plainOrder2.
Proof.
  assert (R1 : rangeOrder OrderScenario.plainDeals OrderScenario.plainOrder1).
  { split; [decide_by_compute|by vm_compute]. }
  assert (R2 : rangeOrder OrderScenario.plainDeals OrderScenario.plainOrder2).
  { split; [decide_by_compute|by vm_compute]. }
  split; [exact R1|]. split; [exact R2|].
  apply (C7_deterministic_with_distinct_keys go115_small_laws
           _ _ _ _ _ _ _ _ _ _ R1 R2).
  left. apply distinctKeys_Forall. decide_by_compute.
Defined.

(** C7, the claim as stated fails: the deals "a" and "b" differ in nothing
    but their ids, which both have the numeric key 0, and the deal list of
    their participant comes out in the order in which the map was
    iterated. *)
Lemma C7_counterexample :
  rangeOrder OrderScenario.tieDeals ["a"; "b"] ∧
  rangeOrder OrderScenario.tieDeals ["b"; "a"] ∧
  id_DealID <$>
    default [] (deals_list
      (rollup (sorter := go115_small) Scenario.EpochsInDay
         Scenario.StateAccountKey Scenario.cid_Parse Scenario.height
         defaultPhaseStart Scenario.knownAddrMap Scenario.knownRestoreClients
         OrderScenario.tieDeals ["a"; "b"]) !! "projA")
  = ["a"; "b"] ∧
  id_DealID <$>
    default [] (deals_list
      (rollup (sorter := go115_small) Scenario.EpochsInDay
         Scenario.StateAccountKey Scenario.cid_Parse Scenario.height
         defaultPhaseStart Scenario.knownAddrMap Scenario.knownRestoreClients
         OrderScenario.tieDeals ["b"; "a"]) !! "projA")
  = ["b"; "a"] ∧
  rollup (sorter := go115_small) Scenario.EpochsInDay Scenario.StateAccountKey
    Scenario.cid_Parse Scenario.height defaultPhaseStart Scenario.knownAddrMap
    Scenario.knownRestoreClients OrderScenario.tieDeals ["a"; "b"]
  ≠ rollup (sorter := go115_small) Scenario.EpochsInDay Scenario.StateAccountKey
      Scenario.cid_Parse Scenario.height defaultPhaseStart Scenario.knownAddrMap
      Scenario.knownRestoreClients OrderScenario.tieDeals ["b"; "a"].
Proof.
  split; [split; [decide_by_compute|by vm_compute]|].
  split; [split; [decide_by_compute|by vm_compute]|].
  split; [by vm_compute|]. split; [by vm_compute|].
  intros H.
  apply (f_equal (λ out, id_DealID <$> default [] (deals_list out !! "projA"))) in H.
  vm_compute in H. discriminate.
Qed.

(** C8 (as the code has it): when every entry of the project list with the
    address of a wallet has the tag "landsat-8" among its datasets, as an
    entry with the tag requires when no other entry shares its address,
    the wallet is not in the participant map, and a deal whose client
    resolves to this wallet leaves the totals, the statistics of the
    participants and the deal lists as they were. *)
Theorem C8_tagged_wallet_excluded
    (address_NewFromString : string → option Address)
    (proj : list projectEntry) (knownAddrMap : gmap Address string)
    (e : projectEntry) (dsets : list string) (a : Address) :
  getAndParseProjectList address_NewFromString proj = Some knownAddrMap →
  e ∈ proj →
  pe_curatedDataset e = Some dsets →
  "landsat-8" ∈ dsets →
  address_NewFromString (pe_address e) = Some a →
  (∀ e' dsets',
     e' ∈ proj → address_NewFromString (pe_address e') = Some a →
     pe_curatedDataset e' = Some dsets' → "landsat-8" ∈ dsets') →
  knownAddrMap !! a = None ∧
  ∀ (EpochsInDay : Z) (StateAccountKey : Address → option Address)
    (cid_Parse : string → option (string * string)) (currentPhaseStart : Z)
    (knownRestoreClients : gmap Address unit)
    (deals : gmap string MarketDeal) (st : loopState) (dealID : string),
    cacheOK StateAccountKey st →
    StateAccountKey (Client (Proposal (lookupDeal deals dealID))) = Some a →
    let st' := processDeal EpochsInDay StateAccountKey cid_Parse
                 currentPhaseStart knownAddrMap knownRestoreClients deals
                 st dealID in
    grandTotals st' = grandTotals st ∧
    projStats st' = projStats st ∧
    projDealLists st' = projDealLists st.
Proof.
  intros Hget He Hd Htag Ha Hall.
  assert (Hnone : knownAddrMap !! a = None).
  { unfold getAndParseProjectList in Hget.
    destruct (knownProject address_NewFromString proj ∅) as [m|] eqn:Hk; [|done].
    destruct (len m =? 0); [done|]. injection Hget as ->.
    destruct (knownAddrMap !! a) as [p|] eqn:Hm; [|done].
    destruct (knownProject_lookup _ _ _ _ _ _ Hk Hm)
      as [[? Hin]|(e' & ds & He' & Ha' & Hd' & Hno)].
    - by rewrite lookup_empty in Hin.
    - destruct Hno. by apply (Hall e'). }
  split; [done|].
  intros E S C phase restore deals st dealID Hc Hs st'. subst st'.
  destruct (processDeal_resolved E S C phase knownAddrMap restore deals st
              dealID a Hc Hs) as (m & _ & ->).
  apply (processResolved_unmatched E phase knownAddrMap restore st dealID a).
  by right.
Qed.

(** The wallet of the tagged entry is not a participant, and its deal of
    the example of the specification is not counted. *)
Lemma C8_witness :
  let known := {["f1bob" := "projB"]} : gmap Address string in
  let st' := processDeal Scenario.EpochsInDay Scenario.StateAccountKey
               Scenario.cid_Parse defaultPhaseStart known
               Scenario.knownRestoreClients Scenario.boundaryDeals
               initialState "7" in
  getAndParseProjectList RegistryScenario.address_NewFromString
    RegistryScenario.plainEntries = Some known ∧
  known !! "f1alice" = None ∧
  grandTotals st' = grandTotals initialState ∧
  projStats st' = projStats initialState ∧
  projDealLists st' = projDealLists initialState.
Proof.
  intros known st'.
  assert (Hget : getAndParseProjectList RegistryScenario.address_NewFromString
                   RegistryScenario.plainEntries = Some known) by (by vm_compute).
  split; [exact Hget|].
  destruct (C8_tagged_wallet_excluded RegistryScenario.address_NewFromString
    RegistryScenario.plainEntries known
    {| pe_project := "projL"; pe_address := "f1alice";
       pe_curatedDataset := Some ["sentinel-2"; "landsat-8"] |}
    ["sentinel-2"; "landsat-8"] "f1alice" Hget) as [Hnone Hstep].
  - by left.
  - done.
  - right. by left.
  - done.
  - intros e' dsets' Hin Haddr Hds.
    unfold RegistryScenario.plainEntries in Hin.
    apply elem_of_cons in Hin as [->|Hin].
    { injection Hds as <-. right. by left. }
    apply list_elem_of_singleton in Hin as ->. simpl in Haddr. discriminate.
  - split; [exact Hnone|].
    apply (Hstep Scenario.EpochsInDay Scenario.StateAccountKey
             Scenario.cid_Parse defaultPhaseStart Scenario.knownRestoreClients
             Scenario.boundaryDeals initialState "7").
    + apply cacheOK_initial.
    + by vm_compute.
Defined.

(** C8, the claim as stated fails: the first entry has the tag, the second
    has the same wallet without the tag; the wallet is in the participant
    map, and its deal of the example of the specification is counted. *)
Lemma C8_counterexample :
  let known := {["f1alice" := "projB"]} : gmap Address string in
  let out := rollup (sorter := go115_small) Scenario.EpochsInDay
               Scenario.StateAccountKey Scenario.cid_Parse Scenario.height
               defaultPhaseStart known Scenario.knownRestoreClients
               Scenario.boundaryDeals ["7"] in
  getAndParseProjectList RegistryScenario.address_NewFromString
    RegistryScenario.twoEntries = Some known ∧
  known !! "f1alice" = Some "projB" ∧
  TotalDeals (basic_stats out) = 1 ∧
  TotalBytes (basic_stats out) = 34359738368 ∧
  id_Client <$> default [] (deals_list out !! "projB") = ["f1alice"].
Proof.
  repeat split; by vm_compute.
Qed.




(** C10: after the finalization every per-run count of counted deals of a
    participant for one piece cid is at most 9 and at most the all-time
    tally of that piece cid, and so is the reported [max_same_cid_deals]
    at most 9. *)
Theorem C10_max_same_cid_deals_at_most_9 {sorter : SliceSorter}
    (EpochsInDay : Z) (StateAccountKey : Address → option Address)
    (cid_Parse : string → option (string * string))
    (height currentPhaseStart : Z) (knownAddrMap : gmap Address string)
    (knownRestoreClients : gmap Address unit)
    (deals : gmap string MarketDeal) (order : list string)
    (projID : string) (ps : projectAggregateStats) :
  client_stats (rollup EpochsInDay StateAccountKey cid_Parse height
                  currentPhaseStart knownAddrMap knownRestoreClients deals order)
    !! projID = Some ps →
  (∀ c n, ps_timesSeenPieceCid ps !! c = Some n →
          n <= 9 ∧ n <= getZ (ps_timesSeenPieceCidAllTime ps) c) ∧
  ps_HighestCidDealCount ps <= 9.
Proof.
  unfold rollup. simpl. rewrite lookup_fmap.
  destruct (projStats _ !! projID) as [e|] eqn:He; [|done].
  intros [= <-]. simpl.
  pose proof (tallyInv_processDeals EpochsInDay StateAccountKey cid_Parse
    currentPhaseStart knownAddrMap knownRestoreClients deals initialState
    (orderedDealList height deals order) tallyInv_initial projID e He)
    as [Hmax Hall].
  assert (Hentry : ∀ c n, ps_timesSeenPieceCid e !! c = Some n →
            n <= 9 ∧ n <= getZ (ps_timesSeenPieceCidAllTime e) c).
  { intros c n Hc. specialize (Hall c). unfold getZ at 1 3 in Hall.
    rewrite Hc in Hall. simpl in Hall. lia. }
  split; [done|].
  apply maxOver_le; [lia|]. intros k v Hk. by apply (Hentry k).
Qed.

(** The bound is reached: with eleven deals of one piece cid the reported
    maximum is 9. *)
Lemma C10_witness :
  ps_HighestCidDealCount capStats = 9 ∧
  (∀ c n, ps_timesSeenPieceCid capStats !! c = Some n →
          n <= 9 ∧ n <= getZ (ps_timesSeenPieceCidAllTime capStats) c) ∧
  ps_HighestCidDealCount capStats <= 9.
Proof.
  split; [by vm_compute|].
  apply (C10_max_same_cid_deals_at_most_9 (sorter := go115_small)
           Scenario.EpochsInDay Scenario.StateAccountKey Scenario.cid_Parse
           Scenario.height defaultPhaseStart Scenario.knownAddrMap
           Scenario.knownRestoreClients (CapScenario.capDeals "f0100")
           CapScenario.capIDs "projA" capStats).
  by vm_compute.
Defined.

(** * The outputs of a run, taken together *)

Section Effect.

Variable EpochsInDay : Z.
Variable currentPhaseStart : Z.
Variable knownAddrMap : gmap Address string.
Variable knownRestoreClients : gmap Address unit.

Local Abbreviation processResolved' :=
  (processResolved EpochsInDay currentPhaseStart knownAddrMap knownRestoreClients).

Lemma countDeal_fields st dealID projID w pc d e :
  projStats (countDeal st dealID projID w pc d e)
    = <[projID := countedEntry e w d]> (projStats st) ∧
  projDealLists (countDeal st dealID projID w pc d e)
    = <[projID := default [] (projDealLists st !! projID)
                    ++ [mkIndividualDeal dealID projID w pc d]]> (projDealLists st) ∧
  grandTotals (countDeal st dealID projID w pc d e)
    = countedTotals (grandTotals st) w d.
Proof.
  unfold countDeal, countedEntry, countedClient, countedTotals. simpl.
  split; [reflexivity|]. split; reflexivity.
Qed.

(** What one iteration does to the statistics, the deal lists and the
    totals, by the gate at which the deal stops. *)
Lemma processResolved_effect st dealID w pc pc32 d :
  let st' := processResolved' st dealID w pc pc32 d in
  let piece := PieceCID (Proposal d) in
  ((isWorkaround w d = true ∨ knownAddrMap !! w = None) ∧
   projStats st' = projStats st ∧ projDealLists st' = projDealLists st ∧
   grandTotals st' = grandTotals st)
  ∨
  ∃ projID,
    isWorkaround w d = false ∧ knownAddrMap !! w = Some projID ∧
    let e1 := bumpAllTime (entryOf st projID) piece in
    (((SectorStartEpoch (State d) < currentPhaseStart ∨
       dealDuration d < EpochsInDay * 360) ∧
      projStats st' = <[projID := e1]> (projStats st) ∧
      projDealLists st' = projDealLists st ∧
      grandTotals st' = grandTotals st)
     ∨
     (currentPhaseStart <= SectorStartEpoch (State d) ∧
      EpochsInDay * 360 <= dealDuration d ∧
      10 <= allTimeTally st projID piece + 1 ∧
      projStats st' = <[projID := e1]> (projStats st) ∧
      projDealLists st' = projDealLists st ∧
      grandTotals st' = markProject (grandTotals st) projID)
     ∨
     (currentPhaseStart <= SectorStartEpoch (State d) ∧
      EpochsInDay * 360 <= dealDuration d ∧
      allTimeTally st projID piece + 1 < 10 ∧
      projStats st' = <[projID := countedEntry e1 w d]> (projStats st) ∧
      projDealLists st' =
        <[projID := default [] (projDealLists st !! projID)
                      ++ [mkIndividualDeal dealID projID w pc d]]>
          (projDealLists st) ∧
      grandTotals st' =
        countedTotals (markProject (grandTotals st) projID) w d)).
Proof.
  intros st' piece.
  destruct (isWorkaround w d) eqn:Hw.
  { left. split; [by left|].
    destruct (processResolved_unmatched EpochsInDay currentPhaseStart knownAddrMap
      knownRestoreClients st dealID w pc pc32 d) as (? & ? & ?); [by left|done]. }
  destruct (knownAddrMap !! w) as [projID|] eqn:Hk.
  2:{ left. split; [by right|].
      destruct (processResolved_unmatched EpochsInDay currentPhaseStart knownAddrMap
        knownRestoreClients st dealID w pc pc32 d) as (? & ? & ?); [by right|done]. }
  right. exists projID. split; [done|]. split; [done|].
  subst st'. unfold processResolved. rewrite Hw, Hk.
  set (st0 := if isRecover _ _ w d then _ else st).
  assert (Hps : projStats st0 = projStats st) by (subst st0; by case_match).
  assert (Hgt : grandTotals st0 = grandTotals st) by (subst st0; by case_match).
  assert (Hdl : projDealLists st0 = projDealLists st) by (subst st0; by case_match).
  assert (He0 : match projStats st0 !! projID with
                | Some e => e | None => newProjStat projID end = entryOf st projID).
  { unfold entryOf. rewrite Hps. by destruct (projStats st !! projID). }
  rewrite He0.
  assert (Ht : getZ (ps_timesSeenPieceCidAllTime (bumpAllTime (entryOf st projID) piece))
                 piece = allTimeTally st projID piece + 1).
  { simpl. rewrite getZ_insert_eq. unfold entryOf, allTimeTally.
    destruct (projStats st !! projID); [done|]. by rewrite getZ_empty. }
  fold piece. rewrite Ht.
  destruct (Z.ltb_spec (SectorStartEpoch (State d)) currentPhaseStart).
  { left. simpl. rewrite Hps, Hdl, Hgt. split; [by left|done]. }
  destruct (Z.ltb_spec (dealDuration d) (EpochsInDay * 360)).
  { left. simpl. rewrite Hps, Hdl, Hgt. split; [by right|done]. }
  right.
  destruct (Z.leb_spec 10 (allTimeTally st projID piece + 1)).
  { left. simpl. rewrite Hps, Hdl, Hgt. done. }
  right.
  destruct (countDeal_fields
    (withGrandTotals
       (withProjStats st0 (<[projID := bumpAllTime (entryOf st projID) piece]> (projStats st0)))
       (markProject (grandTotals (withProjStats st0
          (<[projID := bumpAllTime (entryOf st projID) piece]> (projStats st0)))) projID))
    dealID projID w pc d (bumpAllTime (entryOf st projID) piece)) as (E1 & E2 & E3).
  rewrite E1, E2, E3. simpl. rewrite Hps, Hdl, Hgt, insert_insert_eq. done.
Qed.

End Effect.

Section History.

Variable EpochsInDay : Z.
Variable StateAccountKey : Address → option Address.
Variable cid_Parse : string → option (string * string).
Variable currentPhaseStart : Z.
Variable knownAddrMap : gmap Address string.
Variable knownRestoreClients : gmap Address unit.
Variable deals : gmap string MarketDeal.

Local Abbreviation tallyInvH' := (tallyInvH StateAccountKey knownAddrMap deals).
Local Abbreviation listsInvH' :=
  (listsInvH EpochsInDay StateAccountKey cid_Parse currentPhaseStart
     knownAddrMap deals).
Local Abbreviation processDeal' :=
  (processDeal EpochsInDay StateAccountKey cid_Parse currentPhaseStart
     knownAddrMap knownRestoreClients deals).
Local Abbreviation processDeals' :=
  (processDeals EpochsInDay StateAccountKey cid_Parse currentPhaseStart
     knownAddrMap knownRestoreClients deals).
Local Abbreviation processResolved' :=
  (processResolved EpochsInDay currentPhaseStart knownAddrMap knownRestoreClients).
Local Abbreviation matchOf' := (matchOf StateAccountKey knownAddrMap deals).
Local Abbreviation tallyOf' := (tallyOf StateAccountKey knownAddrMap deals).
Local Abbreviation talliedFor' := (talliedFor StateAccountKey knownAddrMap deals).

(** A property of the deals processed so far and of the loop state that
    does not look at the cache is kept by the loop when every iteration
    keeps it. *)
Lemma processDeals_history (P : list string → loopState → Prop) :
  (∀ pre st m, P pre st → P pre (withResolvedWallets st m)) →
  (∀ pre st x, P pre st →
     StateAccountKey (Client (Proposal (lookupDeal deals x))) = None →
     P (pre ++ [x]) st) →
  (∀ pre st x w, P pre st →
     StateAccountKey (Client (Proposal (lookupDeal deals x))) = Some w →
     P (pre ++ [x])
       (processResolved' st x w (payloadCids cid_Parse (lookupDeal deals x)).1
          (payloadCids cid_Parse (lookupDeal deals x)).2 (lookupDeal deals x))) →
  ∀ l pre st, cacheOK StateAccountKey st → P pre st →
    P (pre ++ l) (processDeals' st l).
Proof.
  intros Hcache Hnone Hsome l.
  induction l as [|x l IH]; intros pre st Hc HP.
  { simpl. by rewrite (right_id_L [] (++)). }
  change (processDeals' st (x :: l)) with (processDeals' (processDeal' st x) l).
  rewrite (cons_middle x pre l), (assoc_L (++)).
  apply IH.
  { by apply processDeal_cacheOK. }
  destruct (StateAccountKey (Client (Proposal (lookupDeal deals x)))) as [w|] eqn:E.
  - destruct (processDeal_resolved EpochsInDay StateAccountKey cid_Parse
      currentPhaseStart knownAddrMap knownRestoreClients deals st x w Hc E)
      as (m & _ & ->).
    by apply Hcache, Hsome.
  - rewrite processDeal_unresolved by done. by apply Hnone.
Qed.

Lemma matchOf_unresolved x :
  StateAccountKey (Client (Proposal (lookupDeal deals x))) = None →
  matchOf' x = None.
Proof. intros E. unfold matchOf. by rewrite E. Qed.

Lemma matchOf_skip x w :
  StateAccountKey (Client (Proposal (lookupDeal deals x))) = Some w →
  isWorkaround w (lookupDeal deals x) = true ∨ knownAddrMap !! w = None →
  matchOf' x = None.
Proof.
  intros E H. unfold matchOf. rewrite E.
  destruct (isWorkaround w _); [done|].
  destruct H as [H|H]; [done|]. by rewrite H.
Qed.

Lemma matchOf_matched x w projID :
  StateAccountKey (Client (Proposal (lookupDeal deals x))) = Some w →
  isWorkaround w (lookupDeal deals x) = false →
  knownAddrMap !! w = Some projID →
  matchOf' x = Some (w, projID).
Proof. intros E Hw Hk. unfold matchOf. by rewrite E, Hw, Hk. Qed.

Lemma tallyOf_snoc pre x projID c :
  tallyOf' (pre ++ [x]) projID c
  = tallyOf' pre projID c + (if talliedFor' projID c x then 1 else 0).
Proof.
  unfold tallyOf. rewrite filter_app, length_app, Nat2Z.inj_add. f_equal.
  rewrite filter_cons, filter_nil.
  destruct (talliedFor' projID c x); by case_decide.
Qed.

Lemma talliedFor_None x projID c :
  matchOf' x = None → talliedFor' projID c x = false.
Proof. intros E. unfold talliedFor. by rewrite E. Qed.

Lemma talliedFor_Some x w p projID c :
  matchOf' x = Some (w, p) →
  talliedFor' projID c x
  = bool_decide (p = projID ∧ PieceCID (Proposal (lookupDeal deals x)) = c).
Proof.
  intros E. unfold talliedFor. rewrite E.
  destruct (String.eqb_spec p projID), (String.eqb_spec (PieceCID (Proposal (lookupDeal deals x))) c);
    simpl; symmetry;
    (apply bool_decide_eq_true_2 || apply bool_decide_eq_false_2); tauto.
Qed.

(** The all-time tally of a piece cid for a participant after an
    iteration that reaches it. *)
Lemma allTimeTally_bump (ps : gmap string projectAggregateStats) st projID e' piece p c :
  ps = <[projID := e']> (projStats st) →
  ps_timesSeenPieceCidAllTime e'
    = ps_timesSeenPieceCidAllTime (bumpAllTime (entryOf st projID) piece) →
  ∀ st', projStats st' = ps →
  allTimeTally st' p c
  = allTimeTally st p c + (if bool_decide (projID = p ∧ piece = c) then 1 else 0).
Proof.
  intros -> He st' Hst'. unfold allTimeTally. rewrite Hst', lookup_insert.
  case_decide as Hp.
  - subst p. rewrite He. simpl.
    assert (Hold : getZ (ps_timesSeenPieceCidAllTime (entryOf st projID)) c
                   = match projStats st !! projID with
                     | Some e => getZ (ps_timesSeenPieceCidAllTime e) c
                     | None => 0 end).
    { unfold entryOf. destruct (projStats st !! projID); [done|]. apply getZ_empty. }
    destruct (decide (piece = c)) as [->|Hne].
    + rewrite getZ_insert_eq, bool_decide_eq_true_2 by done. by rewrite Hold.
    + rewrite getZ_insert_ne, bool_decide_eq_false_2 by tauto. rewrite Hold. lia.
  - rewrite bool_decide_eq_false_2 by tauto. lia.
Qed.

Lemma tallyInvH_None pre st x :
  tallyInvH' pre st →
  StateAccountKey (Client (Proposal (lookupDeal deals x))) = None →
  tallyInvH' (pre ++ [x]) st.
Proof.
  intros H E p c.
  rewrite tallyOf_snoc, talliedFor_None by (by apply matchOf_unresolved).
  rewrite H. lia.
Qed.

Lemma tallyInvH_Some pre st x w :
  tallyInvH' pre st →
  StateAccountKey (Client (Proposal (lookupDeal deals x))) = Some w →
  tallyInvH' (pre ++ [x])
    (processResolved' st x w (payloadCids cid_Parse (lookupDeal deals x)).1
       (payloadCids cid_Parse (lookupDeal deals x)).2 (lookupDeal deals x)).
Proof.
  intros H E p c.
  set (d := lookupDeal deals x).
  destruct (processResolved_effect EpochsInDay currentPhaseStart knownAddrMap
    knownRestoreClients st x w (payloadCids cid_Parse d).1
    (payloadCids cid_Parse d).2 d)
    as [(Hskip & Hps & _)|(projID & Hw & Hk & Hcase)].
  - rewrite tallyOf_snoc, talliedFor_None by (by eapply matchOf_skip).
    unfold allTimeTally. rewrite Hps. rewrite <- (H p c). unfold allTimeTally. lia.
  - rewrite tallyOf_snoc,
      (talliedFor_Some x w projID) by (by apply matchOf_matched).
    fold d. rewrite <- H.
    destruct Hcase as [(_ & Hps & _)|[(_ & _ & _ & Hps & _)|(_ & _ & _ & Hps & _)]];
      by eapply allTimeTally_bump.
Qed.

Lemma tallyInvH_initial : tallyInvH' [] initialState.
Proof. intros p c. unfold allTimeTally. simpl. by rewrite lookup_empty. Qed.

(** The loop keeps a property of the deals processed so far and of the
    loop state that every iteration keeps, given the tally. *)
Lemma processDeals_history_tally (Q : list string → loopState → Prop) :
  (∀ pre st m, Q pre st → Q pre (withResolvedWallets st m)) →
  (∀ pre st x, tallyInvH' pre st → Q pre st →
     StateAccountKey (Client (Proposal (lookupDeal deals x))) = None →
     Q (pre ++ [x]) st) →
  (∀ pre st x w, tallyInvH' pre st → Q pre st →
     StateAccountKey (Client (Proposal (lookupDeal deals x))) = Some w →
     Q (pre ++ [x])
       (processResolved' st x w (payloadCids cid_Parse (lookupDeal deals x)).1
          (payloadCids cid_Parse (lookupDeal deals x)).2 (lookupDeal deals x))) →
  ∀ l pre st, cacheOK StateAccountKey st → tallyInvH' pre st → Q pre st →
    tallyInvH' (pre ++ l) (processDeals' st l) ∧ Q (pre ++ l) (processDeals' st l).
Proof.
  intros Hcache Hnone Hsome l pre st Hc HT HQ.
  apply (processDeals_history (λ pre st, tallyInvH' pre st ∧ Q pre st)); try done.
  - intros pre' st' m [? ?]. split; [done|]. by apply Hcache.
  - intros pre' st' x [? ?] E. split; [by apply tallyInvH_None|]. by apply Hnone.
  - intros pre' st' x w [? ?] E. split; [by apply tallyInvH_Some|]. by apply Hsome.
Qed.

Lemma allTimeTally_history l :
  tallyInvH' l (processDeals' initialState l).
Proof.
  apply (processDeals_history_tally (λ _ _, True) ltac:(done) ltac:(done)
           ltac:(done) l [] initialState); [apply cacheOK_initial| |done].
  apply tallyInvH_initial.
Qed.

(** *** The deal lists *)

Local Abbreviation countedAfter' :=
  (countedAfter EpochsInDay StateAccountKey currentPhaseStart knownAddrMap deals).
Local Abbreviation countedFrom' :=
  (countedFrom EpochsInDay StateAccountKey currentPhaseStart knownAddrMap deals).
Local Abbreviation listedAs' := (listedAs StateAccountKey cid_Parse knownAddrMap deals).
Local Abbreviation countedDeals' :=
  (countedDeals EpochsInDay StateAccountKey cid_Parse currentPhaseStart
     knownAddrMap deals).
Local Abbreviation pastGates' := (pastGates EpochsInDay currentPhaseStart deals).

Lemma countedFrom_snoc pre0 pre x :
  countedFrom' pre0 (pre ++ [x])
  = countedFrom' pre0 pre ++ (if countedAfter' (pre0 ++ pre) x then [x] else []).
Proof.
  revert pre0. induction pre as [|y pre IH]; intros pre0; simpl.
  { by rewrite !(right_id_L [] (++)). }
  rewrite IH, <- (assoc_L (++)). simpl. by rewrite (assoc_L (++)).
Qed.

Lemma countedDeals_snoc pre x :
  countedDeals' (pre ++ [x])
  = countedDeals' pre
    ++ (if countedAfter' pre x then option_list (listedAs' x) else []).
Proof.
  unfold countedDeals. rewrite countedFrom_snoc, omap_app. f_equal.
  simpl. destruct (countedAfter' pre x); [|done]. simpl.
  by destruct (listedAs' x).
Qed.

Lemma countedAfter_matched pre x w projID :
  matchOf' x = Some (w, projID) →
  countedAfter' pre x
  = pastGates' x
    && (tallyOf' pre projID (PieceCID (Proposal (lookupDeal deals x))) <? 9).
Proof. intros E. unfold countedAfter. by rewrite E. Qed.

Lemma countedDeals_same pre x :
  countedAfter' pre x = false → countedDeals' (pre ++ [x]) = countedDeals' pre.
Proof. intros E. by rewrite countedDeals_snoc, E, (right_id_L [] (++)). Qed.

(** Whether the deal [x] is counted after [pre], in the four cases of an
    iteration. *)
Lemma countedAfter_None pre x :
  matchOf' x = None → countedAfter' pre x = false.
Proof. intros E. unfold countedAfter. by rewrite E. Qed.

Lemma pastGates_spec x :
  pastGates' x = true ↔
  currentPhaseStart <= SectorStartEpoch (State (lookupDeal deals x)) ∧
  EpochsInDay * 360 <= dealDuration (lookupDeal deals x).
Proof. unfold pastGates. rewrite andb_true_iff, !Z.leb_le. done. Qed.

Lemma default_nonempty {A : Type} (l : list A) : default [] (nonempty l) = l.
Proof. by destruct l. Qed.

Lemma nonempty_snoc {A : Type} (l : list A) (x : A) :
  nonempty (l ++ [x]) = Some (l ++ [x]).
Proof. by destruct l. Qed.

Lemma listsInvH_Some pre st x w :
  tallyInvH' pre st → listsInvH' pre st →
  StateAccountKey (Client (Proposal (lookupDeal deals x))) = Some w →
  listsInvH' (pre ++ [x])
    (processResolved' st x w (payloadCids cid_Parse (lookupDeal deals x)).1
       (payloadCids cid_Parse (lookupDeal deals x)).2 (lookupDeal deals x)).
Proof.
  intros HT HL E p.
  set (d := lookupDeal deals x).
  destruct (processResolved_effect EpochsInDay currentPhaseStart knownAddrMap
    knownRestoreClients st x w (payloadCids cid_Parse d).1
    (payloadCids cid_Parse d).2 d)
    as [(Hskip & _ & Hdl & _)|(projID & Hw & Hk & Hcase)].
  { rewrite Hdl, countedDeals_same; [apply HL|].
    apply countedAfter_None. by eapply matchOf_skip. }
  pose proof (matchOf_matched x w projID E Hw Hk) as Hm.
  pose proof (countedAfter_matched pre x w projID Hm) as Hc. fold d in Hc.
  rewrite <- HT in Hc.
  destruct Hcase as [(Hgate & _ & Hdl & _)|[(_ & _ & Hcap & _ & Hdl & _)|
                     (Hphase & Hdur & Hcap & _ & Hdl & _)]].
  - rewrite Hdl, countedDeals_same; [apply HL|]. rewrite Hc.
    apply andb_false_iff. left. apply not_true_iff_false.
    rewrite pastGates_spec. fold d. lia.
  - rewrite Hdl, countedDeals_same; [apply HL|]. rewrite Hc.
    apply andb_false_iff. right. apply Z.ltb_ge. lia.
  - assert (Hyes : countedAfter' pre x = true).
    { rewrite Hc. apply andb_true_iff. split.
      - apply pastGates_spec. by fold d.
      - apply Z.ltb_lt. lia. }
    rewrite Hdl, countedDeals_snoc, Hyes. unfold listedAs. rewrite Hm. fold d.
    simpl. rewrite filter_app, filter_cons, filter_nil. simpl.
    destruct (decide (projID = p)) as [<-|Hp].
    + by rewrite lookup_insert_eq, HL, default_nonempty, nonempty_snoc.
    + rewrite lookup_insert_ne by done. rewrite (right_id_L [] (++)). apply HL.
Qed.

Lemma listsInvH_history l :
  listsInvH' l (processDeals' initialState l).
Proof.
  apply (processDeals_history_tally listsInvH') with (pre := []) (l := l)
    (st := initialState).
  - done.
  - intros pre st x _ HL E p. rewrite countedDeals_same; [apply HL|].
    apply countedAfter_None. by apply matchOf_unresolved.
  - intros. by apply listsInvH_Some.
  - apply cacheOK_initial.
  - apply tallyInvH_initial.
  - intros p. simpl. by rewrite lookup_empty.
Qed.

End History.

(** ** Lists seen by key *)

Lemma wrap64_mod (a : Z) : wrap64 a mod 2 ^ 64 = a mod 2 ^ 64.
Proof.
  unfold wrap64.
  rewrite <- Zminus_mod_idemp_l, Z.mod_mod by lia.
  rewrite Zminus_mod_idemp_l. f_equal. lia.
Qed.

Lemma wrap64_eq_mod (a b : Z) : a mod 2 ^ 64 = b mod 2 ^ 64 → wrap64 a = wrap64 b.
Proof.
  intros H. unfold wrap64.
  rewrite <- (Zplus_mod_idemp_l a), <- (Zplus_mod_idemp_l b), H. done.
Qed.

Lemma add64_wrap64 (a b : Z) : add64 (wrap64 a) b = wrap64 (a + b).
Proof.
  unfold add64. apply wrap64_eq_mod.
  rewrite <- Zplus_mod_idemp_l, wrap64_mod, Zplus_mod_idemp_l. done.
Qed.

Lemma sumZ_app (l1 l2 : list Z) : sumZ (l1 ++ l2) = sumZ l1 + sumZ l2.
Proof. unfold sumZ. induction l1 as [|x l1 IH]; simpl; lia. Qed.

Lemma sumZ_Permutation (l1 l2 : list Z) : l1 ≡ₚ l2 → sumZ l1 = sumZ l2.
Proof. unfold sumZ. induction 1; simpl; lia. Qed.

Section ByKey.

Context {A : Type} (key : A → string).

Lemma filter_snoc_eq (l : list A) (x : A) :
  filter (λ y, key y = key x) (l ++ [x]) = filter (λ y, key y = key x) l ++ [x].
Proof. rewrite filter_app, filter_cons, filter_nil. by rewrite decide_True. Qed.

Lemma filter_snoc_ne (l : list A) (x : A) (k : string) :
  key x ≠ k →
  filter (λ y, key y = k) (l ++ [x]) = filter (λ y, key y = k) l.
Proof.
  intros H. rewrite filter_app, filter_cons, filter_nil.
  rewrite decide_False by done. apply (right_id_L [] (++)).
Qed.

Lemma elem_of_keys_snoc (l : list A) (x : A) (k : string) :
  k ∈ key <$> (l ++ [x]) ↔ k ∈ key <$> l ∨ k = key x.
Proof.
  rewrite fmap_app, elem_of_app. simpl. rewrite list_elem_of_singleton. done.
Qed.

Lemma filter_key_nil (l : list A) (k : string) :
  k ∉ key <$> l → filter (λ y, key y = k) l = [].
Proof.
  intros H. induction l as [|y l IH]; [done|].
  rewrite filter_cons. rewrite fmap_cons, not_elem_of_cons in H.
  destruct H as [H1 H2]. rewrite decide_False by done. by apply IH.
Qed.

Lemma keysOf_snoc (m : gmap string bool) (l : list A) (x : A) :
  (∀ k, m !! k = keysOf key l k) →
  ∀ k, <[key x := true]> m !! k = keysOf key (l ++ [x]) k.
Proof.
  intros H k. unfold keysOf. destruct (decide (key x = k)) as [<-|Hne].
  - rewrite lookup_insert_eq, decide_True; [done|].
    apply elem_of_keys_snoc. by right.
  - rewrite lookup_insert_ne, H by done. unfold keysOf.
    destruct (decide (k ∈ key <$> l)) as [Hin|Hin].
    + rewrite decide_True; [done|]. apply elem_of_keys_snoc. by left.
    + rewrite decide_False; [done|]. rewrite elem_of_keys_snoc.
      intros [?|?]; [done|]. by subst.
Qed.

Lemma countBy_snoc (m : gmap string Z) (l : list A) (x : A) :
  (∀ k, m !! k = countBy key l k) →
  ∀ k, <[key x := getZ m (key x) + 1]> m !! k = countBy key (l ++ [x]) k.
Proof.
  intros H k. unfold countBy. destruct (decide (key x = k)) as [<-|Hne].
  - rewrite lookup_insert_eq, decide_True by (apply elem_of_keys_snoc; by right).
    f_equal. unfold getZ. rewrite H. unfold countBy.
    rewrite filter_snoc_eq, length_app. simpl.
    destruct (decide (key x ∈ key <$> l)) as [Hin|Hin]; simpl; [lia|].
    rewrite filter_key_nil by done. simpl. lia.
  - rewrite lookup_insert_ne, H by done. unfold countBy.
    rewrite filter_snoc_ne by done.
    destruct (decide (k ∈ key <$> l)) as [Hin|Hin].
    + rewrite decide_True; [done|]. apply elem_of_keys_snoc. by left.
    + rewrite decide_False; [done|]. rewrite elem_of_keys_snoc.
      intros [?|?]; [done|]. by subst.
Qed.

Lemma sumBy_snoc (val : A → Z) (m : gmap string Z) (l : list A) (x : A) :
  (∀ k, m !! k = sumBy key val l k) →
  ∀ k, <[key x := add64 (getZ m (key x)) (val x)]> m !! k
       = sumBy key val (l ++ [x]) k.
Proof.
  intros H k. unfold sumBy. destruct (decide (key x = k)) as [<-|Hne].
  - rewrite lookup_insert_eq, decide_True by (apply elem_of_keys_snoc; by right).
    f_equal. unfold getZ. rewrite H. unfold sumBy.
    rewrite filter_snoc_eq, fmap_app, sumZ_app. simpl.
    destruct (decide (key x ∈ key <$> l)) as [Hin|Hin]; simpl.
    + rewrite add64_wrap64. f_equal. unfold sumZ. simpl. lia.
    + rewrite filter_key_nil by done. simpl. unfold add64. f_equal.
      unfold sumZ. simpl. lia.
  - rewrite lookup_insert_ne, H by done. unfold sumBy.
    rewrite filter_snoc_ne by done.
    destruct (decide (k ∈ key <$> l)) as [Hin|Hin].
    + rewrite decide_True; [done|]. apply elem_of_keys_snoc. by left.
    + rewrite decide_False; [done|]. rewrite elem_of_keys_snoc.
      intros [?|?]; [done|]. by subst.
Qed.

(** The keys of a map that holds a list by key are the keys of the list. *)
Lemma size_by_key {V : Type} (m : gmap string V) (l : list A) :
  (∀ k, is_Some (m !! k) ↔ k ∈ key <$> l) →
  len m = distinct key l.
Proof.
  intros H. unfold len, distinct. f_equal. rewrite <- size_dom. f_equal.
  apply set_eq. intros k. rewrite elem_of_dom, elem_of_list_to_set. apply H.
Qed.

Lemma keysOf_is_Some (l : list A) (k : string) :
  is_Some (keysOf key l k) ↔ k ∈ key <$> l.
Proof. unfold keysOf. case_decide; split; (done || by intros [? ?]). Qed.

Lemma countBy_is_Some (l : list A) (k : string) :
  is_Some (countBy key l k) ↔ k ∈ key <$> l.
Proof. unfold countBy. case_decide; split; (done || by intros [? ?]). Qed.

Lemma sumBy_is_Some (val : A → Z) (l : list A) (k : string) :
  is_Some (sumBy key val l k) ↔ k ∈ key <$> l.
Proof. unfold sumBy. case_decide; split; (done || by intros [? ?]). Qed.

End ByKey.

(** ** The statistics and the deal lists move together *)

Section Entries.

Variable deals : gmap string MarketDeal.

Lemma clientAgrees_new w : clientAgrees deals w (newClientStat w) [].
Proof. by split. Qed.

Lemma entryAgrees_new projID : entryAgrees deals projID (newProjStat projID) [].
Proof.
  split; try done.
  intros w. simpl. rewrite lookup_empty. apply not_elem_of_nil.
Qed.

Lemma entryAgrees_bump projID e dl piece :
  entryAgrees deals projID e dl → entryAgrees deals projID (bumpAllTime e piece) dl.
Proof. intros []. by split. Qed.

(** One more deal of the wallet: [x] is the entry of the deal list for
    the deal [d] of the snapshot. *)
Lemma clientAgrees_counted w cs dl x d :
  clientAgrees deals w cs dl →
  id_PaddedSize x = int64_of_uint64 (PieceSize (Proposal d)) →
  id_MinerID x = Provider (Proposal d) →
  pieceOf deals x = PieceCID (Proposal d) →
  clientAgrees deals w (countedClient cs d) (dl ++ [x]).
Proof.
  intros [Hc Hn Hd Hp Hcid Hnc Hnp] Hsize Hminer Hpiece. split; simpl; try done.
  - rewrite length_app, Nat2Z.inj_add. simpl. lia.
  - rewrite fmap_app, sumZ_app. simpl. rewrite Hd, add64_wrap64, Hsize.
    f_equal. unfold sumZ. simpl. lia.
  - rewrite <- Hminer. by apply keysOf_snoc.
  - rewrite <- Hpiece. by apply (keysOf_snoc (pieceOf deals)).
Qed.

Lemma entryAgrees_counted projID e dl x w d :
  entryAgrees deals projID e dl →
  id_PaddedSize x = int64_of_uint64 (PieceSize (Proposal d)) →
  id_MinerID x = Provider (Proposal d) →
  id_Client x = w →
  pieceOf deals x = PieceCID (Proposal d) →
  entryAgrees deals projID (countedEntry e w d) (dl ++ [x]).
Proof.
  intros [Hid Hn Hd Hp Hcid Hcs Hnc Hnp Hh Hm] Hsize Hminer <- Hpiece.
  split; simpl; try done.
  - rewrite length_app, Nat2Z.inj_add. simpl. lia.
  - rewrite fmap_app, sumZ_app. simpl. rewrite Hd, add64_wrap64, Hsize.
    f_equal. unfold sumZ. simpl. lia.
  - rewrite <- Hminer, <- Hsize. by apply sumBy_snoc.
  - rewrite <- Hpiece. by apply (countBy_snoc (pieceOf deals)).
  - intros w'. destruct (decide (id_Client x = w')) as [<-|Hne].
    + rewrite lookup_insert_eq. split.
      { apply elem_of_keys_snoc. by right. }
      rewrite (filter_snoc_eq id_Client).
      apply clientAgrees_counted; try done.
      specialize (Hcs (id_Client x)).
      destruct (ps_ClientStats e !! id_Client x) as [cs|]; simpl; [tauto|].
      rewrite (filter_key_nil id_Client) by done. apply clientAgrees_new.
    + rewrite lookup_insert_ne by done.
      rewrite (filter_snoc_ne id_Client) by congruence.
      specialize (Hcs w').
      destruct (ps_ClientStats e !! w') as [cs|].
      * split; [|tauto]. apply elem_of_keys_snoc. left. tauto.
      * rewrite elem_of_keys_snoc. intros [?|?]; [done|congruence].
Qed.

End Entries.

Section EntriesLoop.

Variable EpochsInDay : Z.
Variable StateAccountKey : Address → option Address.
Variable cid_Parse : string → option (string * string).
Variable currentPhaseStart : Z.
Variable knownAddrMap : gmap Address string.
Variable knownRestoreClients : gmap Address unit.
Variable deals : gmap string MarketDeal.

Local Abbreviation processDeals' :=
  (processDeals EpochsInDay StateAccountKey cid_Parse currentPhaseStart
     knownAddrMap knownRestoreClients deals).
Local Abbreviation processResolved' :=
  (processResolved EpochsInDay currentPhaseStart knownAddrMap knownRestoreClients).

Lemma entriesInv_entryOf st projID :
  entriesInv deals st →
  entryAgrees deals projID (entryOf st projID)
    (default [] (projDealLists st !! projID)).
Proof.
  intros H. specialize (H projID). unfold entryOf.
  destruct (projStats st !! projID); [done|].
  rewrite H. apply entryAgrees_new.
Qed.

Lemma entriesInv_step st x w pc pc32 :
  entriesInv deals st →
  entriesInv deals (processResolved' st x w pc pc32 (lookupDeal deals x)).
Proof.
  intros H p.
  set (d := lookupDeal deals x).
  destruct (processResolved_effect EpochsInDay currentPhaseStart knownAddrMap
    knownRestoreClients st x w pc pc32 d)
    as [(_ & Hps & Hdl & _)|(projID & Hw & Hk & Hcase)].
  { rewrite Hps, Hdl. apply H. }
  pose proof (entriesInv_entryOf st projID H) as He.
  assert (Hbump : ∀ st',
    projStats st' = <[projID := bumpAllTime (entryOf st projID) (PieceCID (Proposal d))]>
                      (projStats st) →
    projDealLists st' = projDealLists st →
    match projStats st' !! p with
    | Some e => entryAgrees deals p e (default [] (projDealLists st' !! p))
    | None => projDealLists st' !! p = None
    end).
  { intros st' Hps Hdl. rewrite Hps, Hdl.
    destruct (decide (projID = p)) as [<-|Hne].
    - rewrite lookup_insert_eq. by apply entryAgrees_bump.
    - rewrite lookup_insert_ne by done. apply H. }
  destruct Hcase as [(_ & Hps & Hdl & _)|[(_ & _ & _ & Hps & Hdl & _)|
                     (_ & _ & _ & Hps & Hdl & _)]]; [by apply Hbump..|].
  rewrite Hps, Hdl.
  destruct (decide (projID = p)) as [<-|Hne].
  - rewrite !lookup_insert_eq. simpl.
    apply entryAgrees_counted; try done. by apply entryAgrees_bump.
  - rewrite !lookup_insert_ne by done. apply H.
Qed.

Lemma entriesInv_initial : entriesInv deals initialState.
Proof. intros p. simpl. by rewrite !lookup_empty. Qed.

Lemma entriesInv_processDeals l :
  entriesInv deals (processDeals' initialState l).
Proof.
  apply (processDeals_history EpochsInDay StateAccountKey cid_Parse
    currentPhaseStart knownAddrMap knownRestoreClients deals
    (λ _ st, entriesInv deals st)) with (pre := []) (l := l) (st := initialState).
  - done.
  - done.
  - intros. by apply entriesInv_step.
  - apply cacheOK_initial.
  - apply entriesInv_initial.
Qed.

End EntriesLoop.

(** ** The totals *)

Section Totals.

Variable deals : gmap string MarketDeal.

Lemma totalsAgree_mark gt all projID :
  totalsAgree deals gt all → totalsAgree deals (markProject gt projID) all.
Proof. intros []. by split. Qed.

Lemma totalsAgree_counted gt all x w d :
  totalsAgree deals gt all →
  id_PaddedSize x = int64_of_uint64 (PieceSize (Proposal d)) →
  id_MinerID x = Provider (Proposal d) →
  id_Client x = w →
  pieceOf deals x = PieceCID (Proposal d) →
  verifiedOf deals x = VerifiedDeal (Proposal d) →
  totalsAgree deals (countedTotals gt w d) (all ++ [x]).
Proof.
  intros [Hn Hb Hfn Hfb Hc Hp Hcid] Hsize Hminer <- Hpiece Hver.
  split; simpl.
  - rewrite length_app, Nat2Z.inj_add. simpl. lia.
  - rewrite fmap_app, sumZ_app. simpl. rewrite Hb, add64_wrap64, Hsize.
    f_equal. unfold sumZ. simpl. lia.
  - rewrite filter_app, filter_cons, filter_nil, <- Hver.
    destruct (verifiedOf deals x).
    + rewrite decide_True by done. rewrite length_app, Nat2Z.inj_add. simpl. lia.
    + rewrite decide_False by done. by rewrite (right_id_L [] (++)).
  - rewrite filter_app, filter_cons, filter_nil, <- Hver.
    destruct (verifiedOf deals x).
    + rewrite decide_True by done. rewrite fmap_app, sumZ_app. simpl.
      rewrite Hfb, add64_wrap64, Hsize. f_equal. unfold sumZ. simpl. lia.
    + rewrite decide_False by done. by rewrite (right_id_L [] (++)).
  - by apply keysOf_snoc.
  - rewrite <- Hminer. by apply keysOf_snoc.
  - rewrite <- Hpiece. by apply (keysOf_snoc (pieceOf deals)).
Qed.

End Totals.

Section TotalsLoop.

Variable EpochsInDay : Z.
Variable StateAccountKey : Address → option Address.
Variable cid_Parse : string → option (string * string).
Variable currentPhaseStart : Z.
Variable knownAddrMap : gmap Address string.
Variable knownRestoreClients : gmap Address unit.
Variable deals : gmap string MarketDeal.

Local Abbreviation totalsInvH' :=
  (totalsInvH EpochsInDay StateAccountKey cid_Parse currentPhaseStart
     knownAddrMap deals).
Local Abbreviation projectsInvH' :=
  (projectsInvH EpochsInDay StateAccountKey currentPhaseStart knownAddrMap deals).
Local Abbreviation processDeals' :=
  (processDeals EpochsInDay StateAccountKey cid_Parse currentPhaseStart
     knownAddrMap knownRestoreClients deals).
Local Abbreviation processResolved' :=
  (processResolved EpochsInDay currentPhaseStart knownAddrMap knownRestoreClients).
Local Abbreviation matchOf' := (matchOf StateAccountKey knownAddrMap deals).
Local Abbreviation countedDeals' :=
  (countedDeals EpochsInDay StateAccountKey cid_Parse currentPhaseStart
     knownAddrMap deals).
Local Abbreviation countedAfter' :=
  (countedAfter EpochsInDay StateAccountKey currentPhaseStart knownAddrMap deals).
Local Abbreviation pastGates' := (pastGates EpochsInDay currentPhaseStart deals).
Local Abbreviation tallyInvH' := (tallyInvH StateAccountKey knownAddrMap deals).
Local Abbreviation matchedProjects' :=
  (matchedProjects StateAccountKey knownAddrMap deals).
Local Abbreviation markedProjects' :=
  (markedProjects EpochsInDay StateAccountKey currentPhaseStart knownAddrMap deals).

Lemma totalsInvH_Some pre st x w :
  tallyInvH' pre st → totalsInvH' pre st →
  StateAccountKey (Client (Proposal (lookupDeal deals x))) = Some w →
  totalsInvH' (pre ++ [x])
    (processResolved' st x w (payloadCids cid_Parse (lookupDeal deals x)).1
       (payloadCids cid_Parse (lookupDeal deals x)).2 (lookupDeal deals x)).
Proof.
  intros HT HG E. unfold totalsInvH.
  set (d := lookupDeal deals x).
  destruct (processResolved_effect EpochsInDay currentPhaseStart knownAddrMap
    knownRestoreClients st x w (payloadCids cid_Parse d).1
    (payloadCids cid_Parse d).2 d)
    as [(Hskip & _ & _ & Hgt)|(projID & Hw & Hk & Hcase)].
  { rewrite Hgt, countedDeals_same; [apply HG|].
    apply countedAfter_None. by eapply matchOf_skip. }
  pose proof (matchOf_matched _ _ _ x w projID E Hw Hk) as Hm.
  pose proof (countedAfter_matched EpochsInDay StateAccountKey currentPhaseStart
    knownAddrMap deals pre x w projID Hm) as Hc. fold d in Hc.
  rewrite <- HT in Hc.
  destruct Hcase as [(Hgate & _ & _ & Hgt)|[(_ & _ & Hcap & _ & _ & Hgt)|
                     (Hphase & Hdur & Hcap & _ & _ & Hgt)]].
  - rewrite Hgt, countedDeals_same; [apply HG|]. rewrite Hc.
    apply andb_false_iff. left. apply not_true_iff_false.
    rewrite pastGates_spec. fold d. lia.
  - rewrite Hgt, countedDeals_same; [by apply totalsAgree_mark|]. rewrite Hc.
    apply andb_false_iff. right. apply Z.ltb_ge. lia.
  - assert (Hyes : countedAfter' pre x = true).
    { rewrite Hc. apply andb_true_iff. split.
      - apply pastGates_spec. by fold d.
      - apply Z.ltb_lt. lia. }
    rewrite Hgt, countedDeals_snoc, Hyes. unfold listedAs. rewrite Hm. fold d.
    simpl. apply totalsAgree_counted; try done. by apply totalsAgree_mark.
Qed.

Lemma totalsInvH_history l :
  totalsInvH' l (processDeals' initialState l).
Proof.
  apply (processDeals_history_tally EpochsInDay StateAccountKey cid_Parse
    currentPhaseStart knownAddrMap knownRestoreClients deals totalsInvH')
    with (pre := []) (l := l) (st := initialState).
  - done.
  - intros pre st x _ HG E. unfold totalsInvH. rewrite countedDeals_same; [apply HG|].
    apply countedAfter_None. by apply matchOf_unresolved.
  - intros. by apply totalsInvH_Some.
  - apply cacheOK_initial.
  - apply tallyInvH_initial.
  - by split.
Qed.

(** *** The participants with statistics and the participants seen *)

Lemma matchedProjects_snoc pre x :
  matchedProjects' (pre ++ [x])
  = matchedProjects' pre ++ option_list (snd <$> matchOf' x).
Proof.
  unfold matchedProjects. rewrite omap_app. reflexivity.
Qed.

Lemma markedProjects_snoc pre x :
  markedProjects' (pre ++ [x])
  = markedProjects' pre
    ++ (if pastGates' x then option_list (snd <$> matchOf' x) else []).
Proof.
  unfold markedProjects. rewrite omap_app. simpl.
  destruct (pastGates' x); reflexivity.
Qed.

Lemma projectsInvH_Some pre st x w :
  projectsInvH' pre st →
  StateAccountKey (Client (Proposal (lookupDeal deals x))) = Some w →
  projectsInvH' (pre ++ [x])
    (processResolved' st x w (payloadCids cid_Parse (lookupDeal deals x)).1
       (payloadCids cid_Parse (lookupDeal deals x)).2 (lookupDeal deals x)).
Proof.
  intros [HD HS] E. unfold projectsInvH.
  rewrite matchedProjects_snoc, markedProjects_snoc.
  set (d := lookupDeal deals x).
  destruct (processResolved_effect EpochsInDay currentPhaseStart knownAddrMap
    knownRestoreClients st x w (payloadCids cid_Parse d).1
    (payloadCids cid_Parse d).2 d)
    as [(Hskip & Hps & _ & Hgt)|(projID & Hw & Hk & Hcase)].
  { rewrite Hps, Hgt, (matchOf_skip _ _ _ x w) by done. simpl.
    destruct (pastGates' x); by rewrite !(right_id_L [] (++)). }
  rewrite (matchOf_matched _ _ _ x w projID E Hw Hk). simpl.
  assert (Hdom : ∀ e p,
    is_Some (<[projID := e]> (projStats st) !! p)
    ↔ p ∈ matchedProjects' pre ++ [projID]).
  { intros e p. rewrite elem_of_app, list_elem_of_singleton, <- HD.
    destruct (decide (projID = p)) as [<-|Hne].
    - rewrite lookup_insert_eq. split; [by right|eauto].
    - rewrite lookup_insert_ne by done.
      split; [by left|]. intros [?|?]; [done|congruence]. }
  assert (Hmark : ∀ p,
    seenProject (markProject (grandTotals st) projID) !! p
    = keysOf id (markedProjects' pre ++ [projID]) p).
  { intros p. simpl. by apply (keysOf_snoc id). }
  destruct Hcase as [(Hgate & Hps & _ & Hgt)|[(Hphase & Hdur & _ & Hps & _ & Hgt)|
                     (Hphase & Hdur & _ & Hps & _ & Hgt)]].
  - rewrite Hps, Hgt. split; [apply Hdom|].
    assert (pastGates' x = false) as ->.
    { apply not_true_iff_false. rewrite pastGates_spec. fold d. lia. }
    by rewrite (right_id_L [] (++)).
  - rewrite Hps, Hgt. split; [apply Hdom|].
    assert (pastGates' x = true) as -> by (apply pastGates_spec; by fold d).
    apply Hmark.
  - rewrite Hps, Hgt. split; [apply Hdom|].
    assert (pastGates' x = true) as -> by (apply pastGates_spec; by fold d).
    apply Hmark.
Qed.

Lemma projectsInvH_history l :
  projectsInvH' l (processDeals' initialState l).
Proof.
  apply (processDeals_history EpochsInDay StateAccountKey cid_Parse
    currentPhaseStart knownAddrMap knownRestoreClients deals projectsInvH')
    with (pre := []) (l := l) (st := initialState).
  - done.
  - intros pre st x [HD HS] E. unfold projectsInvH.
    rewrite matchedProjects_snoc, markedProjects_snoc,
      (matchOf_unresolved _ _ _ x) by done. simpl.
    destruct (pastGates' x); by rewrite !(right_id_L [] (++)).
  - intros. by apply projectsInvH_Some.
  - apply cacheOK_initial.
  - split; intros p; simpl; rewrite lookup_empty; [|done].
    split; [by intros [? ?]|by intros ?%elem_of_nil].
Qed.

End TotalsLoop.

(** ** Rearranged lists *)

Section ByKeyPermutation.

Context {A : Type} (key : A → string).

Lemma keysOf_Permutation (l l' : list A) (k : string) :
  l ≡ₚ l' → keysOf key l k = keysOf key l' k.
Proof.
  intros H. unfold keysOf.
  destruct (decide (k ∈ key <$> l)) as [Hin|Hin].
  - rewrite decide_True; [done|]. by rewrite <- H.
  - rewrite decide_False; [done|]. by rewrite <- H.
Qed.

Lemma countBy_Permutation (l l' : list A) (k : string) :
  l ≡ₚ l' → countBy key l k = countBy key l' k.
Proof.
  intros H. unfold countBy.
  destruct (decide (k ∈ key <$> l)) as [Hin|Hin].
  - rewrite decide_True by (by rewrite <- H). by rewrite H.
  - rewrite decide_False; [done|]. by rewrite <- H.
Qed.

Lemma sumBy_Permutation (val : A → Z) (l l' : list A) (k : string) :
  l ≡ₚ l' → sumBy key val l k = sumBy key val l' k.
Proof.
  intros H. unfold sumBy.
  destruct (decide (k ∈ key <$> l)) as [Hin|Hin].
  - rewrite decide_True by (by rewrite <- H). do 2 f_equal.
    apply sumZ_Permutation. by rewrite H.
  - rewrite decide_False; [done|]. by rewrite <- H.
Qed.

Lemma distinct_le_length (l : list A) : distinct key l <= Z.of_nat (length l).
Proof.
  unfold distinct. apply Nat2Z.inj_le.
  induction l as [|x l IH].
  { by rewrite fmap_nil, list_to_set_nil, size_empty. }
  rewrite fmap_cons, list_to_set_cons, size_union_alt, size_singleton.
  assert (size (list_to_set (key <$> l) ∖ {[key x]} : gset string)
          ≤ size (list_to_set (key <$> l) : gset string))%nat as Hs.
  { apply subseteq_size. apply subseteq_difference_l. done. }
  simpl. lia.
Qed.

(** A list in which no key occurs more than [n] times is at most [n]
    times as long as it has keys. *)
Lemma length_le_distinct (n : nat) (l : list A) :
  (∀ k, (length (filter (λ x, key x = k) l) ≤ n)%nat) →
  Z.of_nat (length l) <= Z.of_nat n * distinct key l.
Proof.
  unfold distinct. remember (length l) as m eqn:Hm.
  revert l Hm. induction (lt_wf m) as [m _ IH]. intros l -> Hn.
  destruct l as [|x l0]; [simpl; lia|].
  set (l := x :: l0) in *. set (c := key x).
  set (l' := filter (λ y, ¬ key y = c) l).
  assert (Hlt : (length l' < length l)%nat).
  { apply (length_filter_lt _ _ x); [by left|]. intros H. by apply H. }
  assert (Hsplit : length l = (length (filter (λ y, key y = c) l) + length l')%nat).
  { rewrite <- length_app. apply Permutation_length. symmetry.
    apply filter_app_complement. }
  assert (Hn' : ∀ k, (length (filter (λ x, key x = k) l') ≤ n)%nat).
  { intros k. subst l'. rewrite list_filter_filter.
    etrans; [|apply (Hn k)].
    rewrite <- (list_filter_filter_l (λ y, key y = k ∧ ¬ key y = c) (λ y, key y = k))
      by tauto.
    apply length_filter. }
  specialize (IH (length l') Hlt l' eq_refl Hn').
  assert (Hset : (list_to_set (key <$> l) : gset string)
                 = {[c]} ∪ list_to_set (key <$> l')).
  { apply set_eq. intros k.
    rewrite elem_of_union, elem_of_singleton, !elem_of_list_to_set,
      !list_elem_of_fmap.
    split.
    - intros (y & -> & Hy). destruct (decide (key y = c)); [by left|].
      right. exists y. split; [done|]. by apply list_elem_of_filter.
    - intros [->|(y & -> & Hy)]; [exists x; split; [done|by left]|].
      exists y. split; [done|]. by apply list_elem_of_filter in Hy as [_ ?]. }
  assert (Hdisj : ({[c]} : gset string) ## list_to_set (key <$> l')).
  { apply disjoint_singleton_l. rewrite elem_of_list_to_set, list_elem_of_fmap.
    intros (y & Hc & Hy). apply list_elem_of_filter in Hy as [Hy _]. by apply Hy. }
  rewrite Hset, size_union, size_singleton by done.
  specialize (Hn c). lia.
Qed.

End ByKeyPermutation.

Lemma clientAgrees_Permutation deals w cs dl dl' :
  dl ≡ₚ dl' → clientAgrees deals w cs dl → clientAgrees deals w cs dl'.
Proof.
  intros H [Hc Hn Hd Hp Hcid Hnc Hnp]. split; try done.
  - by rewrite <- H.
  - rewrite Hd. f_equal. apply sumZ_Permutation. by rewrite H.
  - intros p. rewrite Hp. by apply keysOf_Permutation.
  - intros c. rewrite Hcid. by apply keysOf_Permutation.
Qed.

Lemma entryAgrees_Permutation deals projID e dl dl' :
  dl ≡ₚ dl' → entryAgrees deals projID e dl → entryAgrees deals projID e dl'.
Proof.
  intros H [Hid Hn Hd Hp Hcid Hcs Hnc Hnp Hh Hm]. split; try done.
  - by rewrite <- H.
  - rewrite Hd. f_equal. apply sumZ_Permutation. by rewrite H.
  - intros p. rewrite Hp. by apply sumBy_Permutation.
  - intros c. rewrite Hcid. by apply countBy_Permutation.
  - intros w. specialize (Hcs w). destruct (ps_ClientStats e !! w) as [cs|].
    + destruct Hcs as [Hin Hcs]. split; [by rewrite <- H|].
      eapply clientAgrees_Permutation; [|exact Hcs]. by rewrite H.
    + by rewrite <- H.
Qed.

Lemma totalsAgree_Permutation deals gt all all' :
  all ≡ₚ all' → totalsAgree deals gt all → totalsAgree deals gt all'.
Proof.
  intros H [Hn Hb Hfn Hfb Hc Hp Hcid]. split.
  - by rewrite <- H.
  - rewrite Hb. f_equal. apply sumZ_Permutation. by rewrite H.
  - by rewrite <- H.
  - rewrite Hfb. f_equal. apply sumZ_Permutation. by rewrite H.
  - intros a. rewrite Hc. by apply keysOf_Permutation.
  - intros a. rewrite Hp. by apply keysOf_Permutation.
  - intros c. rewrite Hcid. by apply keysOf_Permutation.
Qed.

(** ** The entries of all the deal lists *)

Lemma filter_key_all_nil {A : Type} (key : A → string) (l : list A) :
  (∀ k, filter (λ x, key x = k) l = []) → l = [].
Proof.
  intros H. destruct l as [|x l]; [done|].
  specialize (H (key x)). rewrite filter_cons, decide_True in H by done.
  discriminate.
Qed.

(** Lists by key that make up a list [L] hold, together, the elements of
    [L]. *)
Lemma mjoin_by_key {A : Type} (key : A → string) (m : gmap string (list A)) :
  ∀ L, (∀ k, default [] (m !! k) ≡ₚ filter (λ x, key x = k) L) →
       mjoin (snd <$> map_to_list m) ≡ₚ L.
Proof.
  induction m as [|k l m Hk IH] using map_ind; intros L H.
  - rewrite map_to_list_empty. simpl.
    rewrite (filter_key_all_nil key L); [done|].
    intros k. specialize (H k). rewrite lookup_empty in H. simpl in H.
    by apply Permutation_nil in H.
  - rewrite map_to_list_insert by done. simpl.
    rewrite (IH (filter (λ x, ¬ key x = k) L)).
    + pose proof (H k) as Hl. rewrite lookup_insert_eq in Hl. simpl in Hl.
      rewrite Hl. apply filter_app_complement.
    + intros k'. destruct (decide (k = k')) as [<-|Hne].
      * rewrite Hk. simpl. rewrite list_filter_filter.
        symmetry. apply Permutation_nil_r. clear H.
        induction L as [|y L IHL]; [done|].
        rewrite filter_cons, decide_False by tauto. done.
      * specialize (H k'). rewrite lookup_insert_ne in H by done.
        rewrite H, list_filter_filter_l; [done|]. intros y ->. done.
Qed.

(** ** The largest value of a map *)

Lemma maxOver_spec (acc : Z) (m : gmap string Z) :
  acc <= maxOver acc m ∧
  (∀ k v, m !! k = Some v → v <= maxOver acc m) ∧
  (maxOver acc m = acc ∨ ∃ k, m !! k = Some (maxOver acc m)).
Proof.
  unfold maxOver.
  apply (map_fold_weak_ind
    (λ r m, acc <= r ∧ (∀ k v, m !! k = Some v → v <= r) ∧
            (r = acc ∨ ∃ k, m !! k = Some r))).
  { split; [lia|]. split; [|by left]. intros k v. by rewrite lookup_empty. }
  intros k v m' r Hk (Hacc & Hall & Hatt).
  destruct (Z.ltb_spec r v).
  - split; [lia|]. split.
    + intros k' v'. rewrite lookup_insert. case_decide.
      * intros [= <-]. lia.
      * intros Hm. apply Hall in Hm. lia.
    + right. exists k. apply lookup_insert_eq.
  - split; [lia|]. split.
    + intros k' v'. rewrite lookup_insert. case_decide.
      * intros [= <-]. lia.
      * apply Hall.
    + destruct Hatt as [->|(k' & Hk')]; [by left|].
      right. exists k'. rewrite lookup_insert_ne; [done|]. intros ->. congruence.
Qed.

(** ** The output of a run *)

Section Output.

Context {sorter : SliceSorter} (laws : SliceSorterLaws sorter).
Variable EpochsInDay : Z.
Variable StateAccountKey : Address → option Address.
Variable cid_Parse : string → option (string * string).
Variable height : Z.
Variable currentPhaseStart : Z.
Variable knownAddrMap : gmap Address string.
Variable knownRestoreClients : gmap Address unit.
Variable deals : gmap string MarketDeal.
Variable order : list string.

Local Abbreviation out :=
  (rollup EpochsInDay StateAccountKey cid_Parse height currentPhaseStart
     knownAddrMap knownRestoreClients deals order).
Local Abbreviation st :=
  (finalState EpochsInDay StateAccountKey cid_Parse height currentPhaseStart
     knownAddrMap knownRestoreClients deals order).
Local Abbreviation counted :=
  (countedDeals EpochsInDay StateAccountKey cid_Parse currentPhaseStart
     knownAddrMap deals (orderedDealList height deals order)).

(** The emitted list of a participant is the accumulated one, sorted. *)
Lemma deals_list_lookup projID :
  default [] (deals_list out !! projID)
  ≡ₚ default [] (projDealLists st !! projID).
Proof.
  unfold rollup. simpl. rewrite lookup_fmap.
  destruct (projDealLists _ !! projID) as [acc|]; simpl; [|done].
  apply (sort_Slice_Permutation laws).
Qed.

Lemma deals_list_counted projID :
  default [] (deals_list out !! projID)
  ≡ₚ filter (λ x, id_ProjectID x = projID) counted.
Proof.
  rewrite deals_list_lookup. unfold finalState.
  rewrite (listsInvH_history EpochsInDay StateAccountKey cid_Parse
             currentPhaseStart knownAddrMap knownRestoreClients deals).
  by rewrite default_nonempty.
Qed.

Lemma deals_list_is_Some projID :
  is_Some (deals_list out !! projID)
  ↔ filter (λ x, id_ProjectID x = projID) counted ≠ [].
Proof.
  unfold rollup. simpl. rewrite lookup_fmap, fmap_is_Some. unfold finalState.
  rewrite (listsInvH_history EpochsInDay StateAccountKey cid_Parse
             currentPhaseStart knownAddrMap knownRestoreClients deals).
  destruct (filter _ _) eqn:E; simpl.
  - split; [by intros [? ?]|done].
  - split; [done|eauto].
Qed.

Lemma allListed_counted : allListed (deals_list out) ≡ₚ counted.
Proof. apply (mjoin_by_key id_ProjectID), deals_list_counted. Qed.

(** The statistics of a participant before the finalization agree with
    its emitted list. *)
Lemma client_stats_entry projID ps :
  client_stats out !! projID = Some ps →
  ∃ e, projStats st !! projID = Some e ∧ ps = finalizeProject e ∧
       entryAgrees deals projID e (default [] (deals_list out !! projID)).
Proof.
  unfold rollup at 1. simpl. rewrite lookup_fmap.
  destruct (projStats _ !! projID) as [e|] eqn:He; [|done].
  intros [= <-]. exists e. split; [done|]. split; [done|].
  eapply entryAgrees_Permutation; [symmetry; apply deals_list_lookup|].
  pose proof (entriesInv_processDeals EpochsInDay StateAccountKey cid_Parse
    currentPhaseStart knownAddrMap knownRestoreClients deals
    (orderedDealList height deals order) projID) as H.
  unfold finalState in He. rewrite He in H. exact H.
Qed.

Lemma basic_stats_totals :
  totalsAgree deals
    (grandTotals st) (allListed (deals_list out)).
Proof.
  eapply totalsAgree_Permutation; [symmetry; apply allListed_counted|].
  apply totalsInvH_history.
Qed.

End Output.

(** ** The counted deals *)

Section Counted.

Variable EpochsInDay : Z.
Variable StateAccountKey : Address → option Address.
Variable cid_Parse : string → option (string * string).
Variable currentPhaseStart : Z.
Variable knownAddrMap : gmap Address string.
Variable deals : gmap string MarketDeal.

Local Abbreviation matchOf' := (matchOf StateAccountKey knownAddrMap deals).
Local Abbreviation countedAfter' :=
  (countedAfter EpochsInDay StateAccountKey currentPhaseStart knownAddrMap deals).
Local Abbreviation countedFrom' :=
  (countedFrom EpochsInDay StateAccountKey currentPhaseStart knownAddrMap deals).
Local Abbreviation listedAs' := (listedAs StateAccountKey cid_Parse knownAddrMap deals).
Local Abbreviation countedDeals' :=
  (countedDeals EpochsInDay StateAccountKey cid_Parse currentPhaseStart
     knownAddrMap deals).

Lemma countedFrom_app pre l1 l2 :
  countedFrom' pre (l1 ++ l2)
  = countedFrom' pre l1 ++ countedFrom' (pre ++ l1) l2.
Proof.
  revert pre. induction l1 as [|x l1 IH]; intros pre; simpl.
  { by rewrite (right_id_L [] (++)). }
  rewrite IH, <- !(assoc_L (++)). done.
Qed.

Lemma countedFrom_sublist pre l : countedFrom' pre l `sublist_of` l.
Proof.
  revert pre. induction l as [|x l IH]; intros pre; simpl; [done|].
  destruct (countedAfter' pre x); simpl.
  - by apply sublist_skip.
  - by apply sublist_cons.
Qed.

Lemma countedFrom_countedAfter pre l x :
  x ∈ countedFrom' pre l → is_Some (matchOf' x).
Proof.
  revert pre. induction l as [|y l IH]; intros pre; simpl.
  { by intros ?%elem_of_nil. }
  rewrite elem_of_app. intros [H|H]; [|by eapply IH].
  destruct (countedAfter' pre y) eqn:E; [|by apply elem_of_nil in H].
  apply list_elem_of_singleton in H as ->.
  unfold countedAfter in E. destruct (matchOf' y); [eauto|done].
Qed.

Lemma countedFrom_inv pre l x :
  x ∈ countedFrom' pre l →
  ∃ w projID, matchOf' x = Some (w, projID) ∧
              pastGates EpochsInDay currentPhaseStart deals x = true.
Proof.
  revert pre. induction l as [|y l IH]; intros pre; simpl.
  { by intros ?%elem_of_nil. }
  rewrite elem_of_app. intros [H|H]; [|by eapply IH].
  destruct (countedAfter' pre y) eqn:E; [|by apply elem_of_nil in H].
  apply list_elem_of_singleton in H as ->.
  unfold countedAfter in E. destruct (matchOf' y) as [[w p]|]; [|done].
  apply andb_true_iff in E as [E _]. eauto.
Qed.

Lemma listedAs_Some x e :
  listedAs' x = Some e →
  ∃ w projID,
    matchOf' x = Some (w, projID) ∧
    e = mkIndividualDeal x projID w
          (payloadCids cid_Parse (lookupDeal deals x)).1 (lookupDeal deals x).
Proof.
  unfold listedAs. destruct (matchOf' x) as [[w projID]|]; [|done].
  intros [= <-]. eauto.
Qed.

(** The ids of the entries of the counted deals are the counted deals. *)
Lemma countedDeals_ids pre l :
  id_DealID <$> omap listedAs' (countedFrom' pre l) = countedFrom' pre l.
Proof.
  pose proof (countedFrom_countedAfter pre l) as H.
  induction (countedFrom' pre l) as [|x k IH]; [done|].
  simpl. destruct (H x) as [[w p] Hm]; [by left|].
  unfold listedAs at 1. rewrite Hm. simpl. f_equal.
  apply IH. intros y Hy. apply H. by right.
Qed.

Lemma elem_of_countedDeals l e :
  e ∈ countedDeals' l →
  id_DealID e ∈ l ∧
  pastGates EpochsInDay currentPhaseStart deals (id_DealID e) = true ∧
  ∃ w projID,
    matchOf' (id_DealID e) = Some (w, projID) ∧
    e = mkIndividualDeal (id_DealID e) projID w
          (payloadCids cid_Parse (lookupDeal deals (id_DealID e))).1
          (lookupDeal deals (id_DealID e)).
Proof.
  unfold countedDeals. rewrite list_elem_of_omap. intros (x & Hx & He).
  destruct (listedAs_Some x e He) as (w & projID & Hm & ->). simpl.
  split; [eapply sublist_subseteq; [apply countedFrom_sublist|done]|].
  split; [|eauto].
  by destruct (countedFrom_inv _ _ _ Hx) as (? & ? & _ & ?).
Qed.

(** In a list without repetition a deal is counted exactly when it is
    counted after the deals before it. *)
Lemma countedFrom_position pre x post :
  NoDup (pre ++ x :: post) →
  x ∈ countedFrom' [] (pre ++ x :: post) ↔ countedAfter' pre x = true.
Proof.
  intros Hnd. rewrite countedFrom_app. simpl.
  apply NoDup_app in Hnd as (_ & Hpre & Hpost).
  apply NoDup_cons in Hpost as [Hpost _].
  rewrite !elem_of_app. split.
  - intros [H|[H|H]].
    + exfalso. apply (Hpre x); [|by left].
      eapply sublist_subseteq; [apply countedFrom_sublist|done].
    + destruct (countedAfter' pre x); [done|by apply elem_of_nil in H].
    + exfalso. apply Hpost.
      eapply sublist_subseteq; [apply countedFrom_sublist|done].
  - intros ->. right. left. by left.
Qed.

End Counted.

(** ** Parts of the classification order *)

Lemma StronglySorted_sublist {A : Type} (R : relation A) (l1 l2 : list A) :
  l1 `sublist_of` l2 → StronglySorted R l2 → StronglySorted R l1.
Proof.
  induction 1 as [|x l1 l2 Hsub IH|x l1 l2 Hsub IH]; intros Hs.
  - constructor.
  - apply StronglySorted_inv in Hs as [Hs Hx]. constructor; [by apply IH|].
    apply Forall_forall. intros y Hy. rewrite Forall_forall in Hx.
    apply Hx. by eapply sublist_subseteq.
  - apply StronglySorted_inv in Hs as [Hs _]. by apply IH.
Qed.

Lemma orderedDealList_NoDup {sorter : SliceSorter} (laws : SliceSorterLaws sorter)
    (height : Z) (deals : gmap string MarketDeal) (order : list string) :
  rangeOrder deals order → NoDup (orderedDealList height deals order).
Proof.
  intros [Hnd _]. rewrite (orderedDealList_Permutation laws).
  by apply NoDup_filter.
Qed.

(** A deal of the classification order is a live deal of the snapshot. *)
Lemma orderedDealList_live {sorter : SliceSorter} (laws : SliceSorterLaws sorter)
    (height : Z) (deals : gmap string MarketDeal) (order : list string) (x : string) :
  rangeOrder deals order → x ∈ orderedDealList height deals order →
  ∃ d, deals !! x = Some d ∧ lookupDeal deals x = d ∧ notLive height d = false.
Proof.
  intros [_ Hdom] Hx. rewrite (orderedDealList_Permutation laws) in Hx.
  apply elem_of_liveIDs in Hx as [Hx Hlive].
  apply (elem_of_list_to_set (C := gset string)) in Hx. rewrite <- Hdom in Hx.
  apply elem_of_dom in Hx as [d Hd]. exists d.
  unfold lookupDeal in *. rewrite Hd in *. done.
Qed.

Lemma recoveryOf_ids_sublist (EpochsInDay : Z)
    (StateAccountKey : Address → option Address)
    (cid_Parse : string → option (string * string))
    (knownRestoreClients : gmap Address unit)
    (deals : gmap string MarketDeal) (l : list string) :
  rd_DealID <$> (l ≫= recoveryOf EpochsInDay StateAccountKey cid_Parse
                        knownRestoreClients deals)
  `sublist_of` l.
Proof.
  induction l as [|x l IH]; [done|].
  rewrite bind_cons, fmap_app. unfold recoveryOf at 1.
  destruct (StateAccountKey _) as [w|]; [|by apply sublist_cons].
  destruct (isRecover _ _ w _); simpl.
  - by apply sublist_skip.
  - by apply sublist_cons.
Qed.

(** ** The cache of resolved wallets *)

Section Cache.

Variable EpochsInDay : Z.
Variable StateAccountKey : Address → option Address.
Variable cid_Parse : string → option (string * string).
Variable currentPhaseStart : Z.
Variable knownAddrMap : gmap Address string.
Variable knownRestoreClients : gmap Address unit.
Variable deals : gmap string MarketDeal.

Local Abbreviation cacheInvH' := (cacheInvH StateAccountKey deals).
Local Abbreviation processDeal' :=
  (processDeal EpochsInDay StateAccountKey cid_Parse currentPhaseStart
     knownAddrMap knownRestoreClients deals).
Local Abbreviation processDeals' :=
  (processDeals EpochsInDay StateAccountKey cid_Parse currentPhaseStart
     knownAddrMap knownRestoreClients deals).

Lemma cacheInvH_step pre st x :
  cacheInvH' pre st → cacheInvH' (pre ++ [x]) (processDeal' st x).
Proof.
  unfold cacheInvH. intros H h w. unfold processDeal.
  set (c := Client (Proposal (lookupDeal deals x))).
  destruct (payloadCids cid_Parse _) as [pc pc32].
  assert (Hin : ∀ y, y ∈ pre ++ [x] ↔ y ∈ pre ∨ y = x).
  { intros y. by rewrite elem_of_app, list_elem_of_singleton. }
  unfold resolveClient.
  destruct (resolvedWallets st !! c) as [a|] eqn:Hc.
  - rewrite processResolved_resolvedWallets, H. split.
    + intros (? & y & ? & ?). split; [done|]. exists y. rewrite Hin. auto.
    + intros (Hs & y & Hy & Hcl). split; [done|].
      apply Hin in Hy as [Hy| ->]; [eauto|].
      apply H in Hc as (_ & z & ? & Hz). exists z. split; [done|].
      rewrite Hz. exact Hcl.
  - destruct (StateAccountKey c) as [a|] eqn:Hs.
    + rewrite processResolved_resolvedWallets. simpl.
      destruct (decide (c = h)) as [<-|Hne].
      * rewrite lookup_insert_eq. split.
        -- intros [= <-]. split; [done|]. exists x. rewrite Hin. auto.
        -- intros [? _]. congruence.
      * rewrite lookup_insert_ne, H by done. split.
        -- intros (? & y & ? & ?). split; [done|]. exists y. rewrite Hin. auto.
        -- intros (? & y & Hy & Hcl). split; [done|].
           apply Hin in Hy as [Hy| ->]; [eauto|]. by destruct Hne.
    + rewrite H. split.
      * intros (? & y & ? & ?). split; [done|]. exists y. rewrite Hin. auto.
      * intros (Hw & y & Hy & Hcl). split; [done|].
        apply Hin in Hy as [Hy| ->]; [eauto|].
        change (c = h) in Hcl. subst h. congruence.
Qed.

Lemma cacheInvH_processDeals l pre st :
  cacheInvH' pre st → cacheInvH' (pre ++ l) (processDeals' st l).
Proof.
  revert pre st. induction l as [|x l IH]; intros pre st H.
  { simpl. by rewrite (right_id_L [] (++)). }
  change (processDeals' st (x :: l)) with (processDeals' (processDeal' st x) l).
  rewrite (cons_middle x pre l), (assoc_L (++)).
  by apply IH, cacheInvH_step.
Qed.

End Cache.

(** ** What the recovery registry and the labels do not touch *)

Section Independence.

Variable EpochsInDay : Z.
Variable StateAccountKey : Address → option Address.
Variable currentPhaseStart : Z.
Variable knownAddrMap : gmap Address string.
Variable deals : gmap string MarketDeal.

Variable cid_Parse1 cid_Parse2 : string → option (string * string).
Variable knownRestoreClients1 knownRestoreClients2 : gmap Address unit.

(** The statistics and the totals after an iteration are those of the
    statistics and of the totals before it, whatever the recovery
    registry, the payload cids, the recovery list and the deal lists
    are; so are the deal lists, of the deal lists and the payload cid. *)
Lemma processResolved_independent st1 st2 dealID w pc1 pc1' pc2 pc2' d :
  projStats st1 = projStats st2 → grandTotals st1 = grandTotals st2 →
  let r1 := processResolved EpochsInDay currentPhaseStart knownAddrMap
              knownRestoreClients1 st1 dealID w pc1 pc1' d in
  let r2 := processResolved EpochsInDay currentPhaseStart knownAddrMap
              knownRestoreClients2 st2 dealID w pc2 pc2' d in
  projStats r1 = projStats r2 ∧ grandTotals r1 = grandTotals r2 ∧
  (projDealLists st1 = projDealLists st2 → pc1 = pc2 →
   projDealLists r1 = projDealLists r2).
Proof.
  destruct st1 as [rw1 rd1 ps1 pdl1 gt1], st2 as [rw2 rd2 ps2 pdl2 gt2].
  simpl. intros -> ->.
  unfold processResolved, countDeal, withRecoveredDeals. simpl.
  destruct (isRecover _ knownRestoreClients1 w d),
           (isRecover _ knownRestoreClients2 w d); simpl;
    (destruct (isWorkaround w d); [done|]);
    (destruct (knownAddrMap !! w) as [projID|]; [|done]);
    simpl; repeat case_match; simpl; (split; [done|]); (split; [done|]);
    try done; by intros -> ->.
Qed.

(** The cache, the statistics and the totals of two runs that differ in
    the recovery registry and in the decoding of the labels. *)
Lemma processDeals_independent l st1 st2 :
  resolvedWallets st1 = resolvedWallets st2 →
  projStats st1 = projStats st2 → grandTotals st1 = grandTotals st2 →
  let r1 := processDeals EpochsInDay StateAccountKey cid_Parse1 currentPhaseStart
              knownAddrMap knownRestoreClients1 deals st1 l in
  let r2 := processDeals EpochsInDay StateAccountKey cid_Parse2 currentPhaseStart
              knownAddrMap knownRestoreClients2 deals st2 l in
  projStats r1 = projStats r2 ∧ grandTotals r1 = grandTotals r2 ∧
  (projDealLists st1 = projDealLists st2 →
   (∀ x, x ∈ l → (payloadCids cid_Parse1 (lookupDeal deals x)).1
                 = (payloadCids cid_Parse2 (lookupDeal deals x)).1) →
   projDealLists r1 = projDealLists r2).
Proof.
  revert st1 st2. induction l as [|x l IH]; intros st1 st2 Hrw Hps Hgt; simpl.
  { done. }
  set (d := lookupDeal deals x).
  assert (Hstep :
    let s1 := processDeal EpochsInDay StateAccountKey cid_Parse1 currentPhaseStart
                knownAddrMap knownRestoreClients1 deals st1 x in
    let s2 := processDeal EpochsInDay StateAccountKey cid_Parse2 currentPhaseStart
                knownAddrMap knownRestoreClients2 deals st2 x in
    resolvedWallets s1 = resolvedWallets s2 ∧
    projStats s1 = projStats s2 ∧ grandTotals s1 = grandTotals s2 ∧
    (projDealLists st1 = projDealLists st2 →
     (payloadCids cid_Parse1 d).1 = (payloadCids cid_Parse2 d).1 →
     projDealLists s1 = projDealLists s2)).
  { unfold processDeal. fold d.
    destruct (payloadCids cid_Parse1 d) as [pc1 pc1'],
             (payloadCids cid_Parse2 d) as [pc2 pc2'].
    unfold resolveClient. rewrite Hrw.
    destruct (resolvedWallets st2 !! Client (Proposal d)) as [a|].
    - rewrite !processResolved_resolvedWallets.
      split; [done|].
      exact (processResolved_independent st1 st2 x a pc1 pc1' pc2 pc2' d Hps Hgt).
    - destruct (StateAccountKey (Client (Proposal d))) as [a|]; [|done].
      rewrite !processResolved_resolvedWallets. simpl.
      split; [done|].
      exact (processResolved_independent
               (withResolvedWallets st1 _) (withResolvedWallets st2 _)
               x a pc1 pc1' pc2 pc2' d Hps Hgt). }
  destruct Hstep as (Hrw' & Hps' & Hgt' & Hdl').
  destruct (IH _ _ Hrw' Hps' Hgt') as (? & ? & Hdl).
  split; [done|]. split; [done|]. intros Hl Hpc.
  apply Hdl.
  - apply Hdl'; [done|]. apply Hpc. by left.
  - intros y Hy. apply Hpc. by right.
Qed.

End Independence.

(** ** The registries *)

Section Registries.

Variable address_NewFromString : string → option Address.

Local Abbreviation knownProject' := (knownProject address_NewFromString).

Lemma knownProject_cons p proj ret :
  knownProject' (p :: proj) ret =
  match address_NewFromString (pe_address p), pe_curatedDataset p with
  | Some a, Some _ =>
      if isTagged p then knownProject' proj ret
      else knownProject' proj (<[a := pe_project p]> ret)
  | _, _ => None
  end.
Proof.
  simpl. unfold isTagged.
  destruct (address_NewFromString (pe_address p)); [|done].
  by destruct (pe_curatedDataset p).
Qed.

(** The loop fails exactly on a list with an entry whose address does not
    parse or whose datasets are no collection. *)
Lemma knownProject_None proj ret :
  knownProject' proj ret = None ↔
  ∃ p, p ∈ proj ∧ (address_NewFromString (pe_address p) = None ∨
                   pe_curatedDataset p = None).
Proof.
  revert ret. induction proj as [|p proj IH]; intros ret.
  { simpl. split; [done|]. by intros (? & ?%elem_of_nil & _). }
  rewrite knownProject_cons.
  destruct (address_NewFromString (pe_address p)) as [a|] eqn:Ha.
  2:{ split; [|done]. intros _. exists p. split; [by left|by left]. }
  destruct (pe_curatedDataset p) as [dsets|] eqn:Hd.
  2:{ split; [|done]. intros _. exists p. split; [by left|by right]. }
  assert (Hrest : ∀ r, knownProject' proj r = None ↔
    ∃ q, q ∈ p :: proj ∧ (address_NewFromString (pe_address q) = None ∨
                          pe_curatedDataset q = None)).
  { intros r. rewrite IH. split.
    - intros (q & ? & ?). exists q. split; [by right|done].
    - intros (q & Hq & Hbad). apply elem_of_cons in Hq as [->|Hq].
      + destruct Hbad; congruence.
      + eauto. }
  destruct (isTagged p); apply Hrest.
Qed.

(** An address has, in the map, the project of the last entry with this
    address that has not the tag, or what the map had for it before the
    loop when there is no such entry. *)
Lemma knownProject_Some proj ret m :
  knownProject' proj ret = Some m →
  ∀ a v, m !! a = Some v ↔
    (∃ pre p post,
       proj = pre ++ p :: post ∧
       address_NewFromString (pe_address p) = Some a ∧
       isTagged p = false ∧ pe_project p = v ∧
       ∀ q, q ∈ post → address_NewFromString (pe_address q) = Some a →
            isTagged q = true)
    ∨
    ((∀ q, q ∈ proj → address_NewFromString (pe_address q) = Some a →
           isTagged q = true) ∧
     ret !! a = Some v).
Proof.
  revert ret. induction proj as [|p proj IH]; intros ret.
  { simpl. intros [= <-] a v. split.
    - intros H. right. split; [|done]. by intros q ?%elem_of_nil.
    - intros [(pre & q & post & Hnil & _)|[_ ?]]; [|done].
      by destruct pre. }
  rewrite knownProject_cons.
  destruct (address_NewFromString (pe_address p)) as [a'|] eqn:Ha; [|done].
  destruct (pe_curatedDataset p) as [dsets|] eqn:Hd; [|done].
  destruct (isTagged p) eqn:Ht; intros Hk a v; rewrite (IH _ Hk a v); clear IH Hk.
  - split.
    + intros [(pre & q & post & -> & ?)|[Hall Hr]].
      * left. by exists (p :: pre), q, post.
      * right. split; [|done]. intros q Hq Hqa.
        apply elem_of_cons in Hq as [->|Hq]; [done|by apply Hall].
    + intros [(pre & q & post & Heq & Hqa & Hqt & Hrest)|[Hall Hr]].
      * destruct pre as [|p' pre]; simpl in Heq; injection Heq as <- ->.
        { congruence. }
        left. by exists pre, q, post.
      * right. split; [|done]. intros q Hq. apply Hall. by right.
  - split.
    + intros [(pre & q & post & -> & ?)|[Hall Hr]].
      * left. by exists (p :: pre), q, post.
      * destruct (decide (a' = a)) as [->|Hne].
        -- rewrite lookup_insert_eq in Hr. injection Hr as <-.
           left. by exists [], p, proj.
        -- rewrite lookup_insert_ne in Hr by done.
           right. split; [|done]. intros q Hq Hqa.
           apply elem_of_cons in Hq as [->|Hq]; [congruence|by apply Hall].
    + intros [(pre & q & post & Heq & Hqa & Hqt & Hv & Hrest)|[Hall Hr]].
      * destruct pre as [|p' pre]; simpl in Heq; injection Heq as <- ->.
        { right. split; [done|].
          assert (a' = a) as -> by congruence. by rewrite lookup_insert_eq, Hv. }
        left. by exists pre, q, post.
      * right. split; [intros q Hq; apply Hall; by right|].
        rewrite lookup_insert_ne; [done|]. intros ->.
        specialize (Hall p ltac:(by left) Ha). congruence.
Qed.

(** The map of a list of which every entry has the tag is the map before
    the loop; an entry without the tag puts its address into the map. *)
Lemma knownProject_all_tagged proj ret m :
  knownProject' proj ret = Some m →
  (∀ p, p ∈ proj → isTagged p = true) → m = ret.
Proof.
  revert ret. induction proj as [|p proj IH]; intros ret.
  { simpl. by intros [= <-]. }
  rewrite knownProject_cons. intros Hk Hall.
  rewrite (Hall p) in Hk by (by left).
  destruct (address_NewFromString (pe_address p)); [|done].
  destruct (pe_curatedDataset p); [|done].
  apply IH; [done|]. intros q Hq. apply Hall. by right.
Qed.

Lemma knownProject_mono proj ret m a :
  knownProject' proj ret = Some m → is_Some (ret !! a) → is_Some (m !! a).
Proof.
  revert ret. induction proj as [|p proj IH]; intros ret.
  { simpl. by intros [= <-]. }
  rewrite knownProject_cons.
  destruct (address_NewFromString (pe_address p)) as [a'|]; [|done].
  destruct (pe_curatedDataset p); [|done].
  destruct (isTagged p); intros Hk Hr; [by eapply IH|].
  eapply IH; [done|]. rewrite lookup_insert. case_decide; [eauto|done].
Qed.

Lemma knownProject_untagged proj ret m p :
  knownProject' proj ret = Some m → p ∈ proj → isTagged p = false →
  ∃ a, address_NewFromString (pe_address p) = Some a ∧ is_Some (m !! a).
Proof.
  revert ret. induction proj as [|q proj IH]; intros ret.
  { by intros _ ?%elem_of_nil. }
  rewrite knownProject_cons.
  destruct (address_NewFromString (pe_address q)) as [a'|] eqn:Ha; [|done].
  destruct (pe_curatedDataset q); [|done].
  intros Hk Hp Ht. apply elem_of_cons in Hp as [->|Hp].
  - rewrite Ht in Hk. exists a'. split; [done|].
    eapply knownProject_mono; [done|]. rewrite lookup_insert_eq. eauto.
  - destruct (isTagged q); by eapply IH.
Qed.

Local Abbreviation decodePayload' := (decodePayload address_NewFromString).

Lemma decodePayload_None payload :
  decodePayload' payload = None ↔
  ∃ s, s ∈ payload ∧ address_NewFromString s = None.
Proof.
  induction payload as [|s payload IH]; simpl.
  { split; [done|]. by intros (? & ?%elem_of_nil & _). }
  destruct (address_NewFromString s) as [a|] eqn:Ha.
  - destruct (decodePayload' payload) as [l|].
    + split; [done|]. intros (s' & Hs' & Hn).
      apply elem_of_cons in Hs' as [->|Hs']; [congruence|].
      assert (Some l = None) by (apply IH; eauto). done.
    + split; [|done]. intros _.
      destruct (proj1 IH eq_refl) as (s' & ? & ?). exists s'. split; [by right|done].
  - split; [|done]. intros _. exists s. split; [by left|done].
Qed.

Lemma decodePayload_Some payload l :
  decodePayload' payload = Some l →
  Forall2 (λ s a, address_NewFromString s = Some a) payload l.
Proof.
  revert l. induction payload as [|s payload IH]; intros l; simpl.
  { intros [= <-]. constructor. }
  destruct (address_NewFromString s) as [a|] eqn:Ha; [|done].
  destruct (decodePayload' payload) as [l'|]; [|done].
  intros [= <-]. constructor; [done|]. by apply IH.
Qed.

Lemma restoreSet_lookup (l : list Address) (a : Address) :
  is_Some (restoreSet l !! a) ↔ a ∈ l.
Proof.
  unfold restoreSet.
  assert (H : ∀ ret : gmap Address unit,
    is_Some (foldl (λ ret a, <[a := tt]> ret) ret l !! a)
    ↔ a ∈ l ∨ is_Some (ret !! a)).
  { induction l as [|x l IH]; intros ret; simpl.
    - split; [by right|]. intros [?%elem_of_nil|?]; done.
    - rewrite IH, elem_of_cons, lookup_insert.
      case_decide as Hx; [subst x|].
      + split; [intros _; by left; left|]. intros _. right. eauto.
      + split; [intros [?|?]; auto|]. intros [[?|?]|?]; auto. congruence. }
  rewrite H, lookup_empty. split; [intros [?|[? ?]]; done|by left].
Qed.

End Registries.

Example statsScenario_run :
  let out := rollup (sorter := go115_small) Scenario.EpochsInDay
               Scenario.StateAccountKey Scenario.cid_Parse Scenario.height
               defaultPhaseStart StatsScenario.statsAddrMap
               Scenario.knownRestoreClients StatsScenario.statsDeals
               StatsScenario.statsOrder in
  orderedDealList (sorter := go115_small) Scenario.height
    StatsScenario.statsDeals StatsScenario.statsOrder
  = ["5"; "1"; "2"; "3"; "4"; "6"; "7"] ∧
  id_DealID <$> default [] (deals_list out !! "projA") = ["2"; "1"; "3"] ∧
  id_DealID <$> default [] (deals_list out !! "projB") = ["4"] ∧
  TotalDeals (basic_stats out) = 4 ∧
  FilplusTotalDeals (basic_stats out) = 1 ∧
  UniqueProjects (basic_stats out) = 2 ∧
  ps_NumDeals statsA = 3 ∧ ps_NumCids statsA = 2 ∧ ps_NumProviders statsA = 2 ∧
  ps_HighestCidDealCount statsA = 2 ∧
  ps_DataSizeMaxProvider statsA = 2147483648 ∧
  getZ (ps_timesSeenPieceCidAllTime statsA) "piece1" = 3.
Proof. repeat split; by vm_compute. Qed.

(** ** Sums over the participants *)

Lemma mapSum_empty {V : Type} (f : V → Z) : mapSum f (∅ : gmap string V) = 0.
Proof. unfold mapSum. by rewrite map_fold_empty. Qed.

Lemma mapSum_insert {V : Type} (f : V → Z) (m : gmap string V) k v :
  m !! k = None → mapSum f (<[k := v]> m) = f v + mapSum f m.
Proof.
  intros Hk. unfold mapSum. rewrite map_fold_insert_L; [done| |done].
  intros. lia.
Qed.

Lemma mapSum_fmap {V W : Type} (g : V → W) (f : W → Z) (m : gmap string V) :
  mapSum f (g <$> m) = mapSum (f ∘ g) m.
Proof.
  induction m as [|k v m Hk IH] using map_ind.
  { by rewrite fmap_empty, !mapSum_empty. }
  rewrite fmap_insert, !mapSum_insert, IH; [done..|].
  by rewrite lookup_fmap, Hk.
Qed.

Section SumByParticipant.

Context {V A : Type} (f : V → Z) (val : A → Z).

(** [R] is equality, or equality of the remainders modulo 2^64. *)
Variable R : relation Z.
Hypothesis R_refl : ∀ a, R a a.
Hypothesis R_add : ∀ a b c d, R a b → R c d → R (a + c) (b + d).

(** When every entry of [m] has, up to [R], the sum of the list of [g]
    for its key, and [g] has no other list, the sum over [m] is, up to
    [R], the sum over the lists of [g] taken together. *)
Lemma mapSum_by_key (m : gmap string V) :
  ∀ g : gmap string (list A),
    (∀ k, match m !! k with
          | Some v => R (f v) (sumZ (val <$> default [] (g !! k)))
          | None => g !! k = None
          end) →
    R (mapSum f m) (sumZ (val <$> mjoin (snd <$> map_to_list g))).
Proof.
  induction m as [|k v m Hk IH] using map_ind; intros g H.
  - assert (g = ∅) as ->.
    { apply map_eq. intros k. specialize (H k).
      by rewrite !lookup_empty in *. }
    rewrite mapSum_empty, map_to_list_empty. apply R_refl.
  - rewrite mapSum_insert by done.
    assert (Hrest : R (mapSum f m)
              (sumZ (val <$> mjoin (snd <$> map_to_list (delete k g))))).
    { apply IH. intros k'. destruct (decide (k = k')) as [<-|Hne].
      - by rewrite Hk, lookup_delete_eq.
      - specialize (H k'). rewrite lookup_insert_ne in H by done.
        by rewrite lookup_delete_ne. }
    pose proof (H k) as Hv. rewrite lookup_insert_eq in Hv.
    destruct (g !! k) as [l|] eqn:Hg; simpl in Hv.
    + rewrite <- (insert_delete_id g k l Hg) at 1.
      rewrite (sumZ_Permutation _ (val <$> (l ++ mjoin (snd <$> map_to_list (delete k g))))).
      * rewrite fmap_app, sumZ_app. by apply R_add.
      * apply fmap_Permutation.
        rewrite map_to_list_insert by apply lookup_delete_eq. done.
    + rewrite delete_id in Hrest by done.
      replace (sumZ (val <$> mjoin (snd <$> map_to_list g)))
        with (0 + sumZ (val <$> mjoin (snd <$> map_to_list g))) by lia.
      by apply R_add.
Qed.

End SumByParticipant.

Lemma sumZ_ones {A : Type} (l : list A) :
  sumZ ((λ _, 1) <$> l) = Z.of_nat (length l).
Proof.
  induction l as [|y l IH]; [done|].
  rewrite fmap_cons. unfold sumZ in *. cbn [foldr length]. rewrite IH. lia.
Qed.

Lemma eqm64_add (a b c d : Z) :
  a mod 2 ^ 64 = b mod 2 ^ 64 → c mod 2 ^ 64 = d mod 2 ^ 64 →
  (a + c) mod 2 ^ 64 = (b + d) mod 2 ^ 64.
Proof. intros H1 H2. by rewrite Zplus_mod, H1, H2, <- Zplus_mod. Qed.

(** * Further properties of the program *)

(** X1: the statistics of a participant agree with the deal list emitted
    for it: the participant id is the key of the entry, the number of
    deals is the length of the list, and the data size is the sum of the
    sizes of the listed deals as an [int64], the sum itself when it is in
    the range. A participant of the statistics has no deal list exactly
    when its number of deals is 0. *)
Theorem X1_participant_totals_match_deal_list {sorter : SliceSorter}
    (laws : SliceSorterLaws sorter)
    (EpochsInDay : Z) (StateAccountKey : Address → option Address)
    (cid_Parse : string → option (string * string))
    (height currentPhaseStart : Z) (knownAddrMap : gmap Address string)
    (knownRestoreClients : gmap Address unit)
    (deals : gmap string MarketDeal) (order : list string)
    (projID : string) (ps : projectAggregateStats) :
  let out := rollup EpochsInDay StateAccountKey cid_Parse height
               currentPhaseStart knownAddrMap knownRestoreClients deals order in
  client_stats out !! projID = Some ps →
  let dl := default [] (deals_list out !! projID) in
  ps_ProjectID ps = projID ∧
  ps_NumDeals ps = Z.of_nat (length dl) ∧
  ps_DataSize ps = wrap64 (sumZ (id_PaddedSize <$> dl)) ∧
  (in_int64 (sumZ (id_PaddedSize <$> dl)) →
   ps_DataSize ps = sumZ (id_PaddedSize <$> dl)) ∧
  (deals_list out !! projID = None ↔ ps_NumDeals ps = 0).
Proof.
  intros out Hps dl.
  destruct (client_stats_entry laws _ _ _ _ _ _ _ _ _ projID ps Hps)
    as (e & _ & -> & Hag).
  destruct Hag as [Hid Hn Hd _ _ _ _ _ _ _]. fold out dl in Hn, Hd.
  cbn [finalizeProject ps_ProjectID ps_NumDeals ps_DataSize].
  split; [done|]. split; [done|]. split; [done|]. split.
  - intros Hr. rewrite Hd. by apply wrap64_id.
  - rewrite Hn. split.
    + intros Hnone. unfold dl. by rewrite Hnone.
    + intros Hz. apply eq_None_not_Some. intros Hsome.
      apply deals_list_is_Some in Hsome. apply Hsome.
      apply Permutation_nil_r.
      rewrite <- (deals_list_counted laws EpochsInDay StateAccountKey cid_Parse
                    height currentPhaseStart knownAddrMap knownRestoreClients
                    deals order projID).
      fold out dl. destruct dl; [done|simpl in Hz; lia].
Qed.

Lemma X1_witness :
  let out := rollup (sorter := go115_small) Scenario.EpochsInDay
               Scenario.StateAccountKey Scenario.cid_Parse Scenario.height
               defaultPhaseStart StatsScenario.statsAddrMap
               Scenario.knownRestoreClients StatsScenario.statsDeals
               StatsScenario.statsOrder in
  let dl := default [] (deals_list out !! "projA") in
  length dl = 3%nat ∧
  ps_ProjectID statsA = "projA" ∧
  ps_NumDeals statsA = Z.of_nat (length dl) ∧
  ps_DataSize statsA = wrap64 (sumZ (id_PaddedSize <$> dl)) ∧
  (in_int64 (sumZ (id_PaddedSize <$> dl)) →
   ps_DataSize statsA = sumZ (id_PaddedSize <$> dl)) ∧
  (deals_list out !! "projA" = None ↔ ps_NumDeals statsA = 0).
Proof.
  split; [by vm_compute|].
  apply (X1_participant_totals_match_deal_list go115_small_laws
           Scenario.EpochsInDay Scenario.StateAccountKey Scenario.cid_Parse
           Scenario.height defaultPhaseStart StatsScenario.statsAddrMap
           Scenario.knownRestoreClients StatsScenario.statsDeals
           StatsScenario.statsOrder "projA" statsA).
  by vm_compute.
Defined.

(** X2: the number of providers of a participant is the number of
    different miners in its emitted deal list, and the largest data size
    with one provider is the largest of the sums, as [int64], of the
    sizes of the listed deals of one miner, or 0 when no sum is above 0. *)
Theorem X2_participant_providers {sorter : SliceSorter}
    (laws : SliceSorterLaws sorter)
    (EpochsInDay : Z) (StateAccountKey : Address → option Address)
    (cid_Parse : string → option (string * string))
    (height currentPhaseStart : Z) (knownAddrMap : gmap Address string)
    (knownRestoreClients : gmap Address unit)
    (deals : gmap string MarketDeal) (order : list string)
    (projID : string) (ps : projectAggregateStats) :
  let out := rollup EpochsInDay StateAccountKey cid_Parse height
               currentPhaseStart knownAddrMap knownRestoreClients deals order in
  client_stats out !! projID = Some ps →
  let dl := default [] (deals_list out !! projID) in
  let dataOf p :=
    wrap64 (sumZ (id_PaddedSize <$> filter (λ x, id_MinerID x = p) dl)) in
  ps_NumProviders ps = distinct id_MinerID dl ∧
  0 <= ps_DataSizeMaxProvider ps ∧
  (∀ p, p ∈ id_MinerID <$> dl → dataOf p <= ps_DataSizeMaxProvider ps) ∧
  (ps_DataSizeMaxProvider ps = 0 ∨
   ∃ p, p ∈ id_MinerID <$> dl ∧ ps_DataSizeMaxProvider ps = dataOf p).
Proof.
  intros out Hps dl dataOf.
  destruct (client_stats_entry laws _ _ _ _ _ _ _ _ _ projID ps Hps)
    as (e & _ & -> & Hag).
  destruct Hag as [_ _ _ Hp _ _ _ _ _ Hm]. fold out dl in Hp.
  cbn [finalizeProject ps_NumProviders ps_DataSizeMaxProvider].
  rewrite Hm.
  destruct (maxOver_spec 0 (ps_dataPerProvider e)) as (H0 & Hall & Hatt).
  split; [|split; [done|split]].
  - apply size_by_key. intros p. rewrite Hp. apply sumBy_is_Some.
  - intros p Hin. apply (Hall p). rewrite Hp. unfold sumBy.
    by rewrite decide_True.
  - destruct Hatt as [?|(p & Hk)]; [by left|]. right. exists p.
    rewrite Hp in Hk. unfold sumBy in Hk.
    destruct (decide (p ∈ id_MinerID <$> dl)); [|done].
    split; [done|]. by injection Hk as <-.
Qed.

Lemma X2_witness :
  let out := rollup (sorter := go115_small) Scenario.EpochsInDay
               Scenario.StateAccountKey Scenario.cid_Parse Scenario.height
               defaultPhaseStart StatsScenario.statsAddrMap
               Scenario.knownRestoreClients StatsScenario.statsDeals
               StatsScenario.statsOrder in
  let dl := default [] (deals_list out !! "projA") in
  let dataOf p :=
    wrap64 (sumZ (id_PaddedSize <$> filter (λ x, id_MinerID x = p) dl)) in
  ps_DataSizeMaxProvider statsA = 2147483648 ∧
  ps_NumProviders statsA = distinct id_MinerID dl ∧
  0 <= ps_DataSizeMaxProvider statsA ∧
  (∀ p, p ∈ id_MinerID <$> dl → dataOf p <= ps_DataSizeMaxProvider statsA) ∧
  (ps_DataSizeMaxProvider statsA = 0 ∨
   ∃ p, p ∈ id_MinerID <$> dl ∧ ps_DataSizeMaxProvider statsA = dataOf p).
Proof.
  split; [by vm_compute|].
  apply (X2_participant_providers go115_small_laws
           Scenario.EpochsInDay Scenario.StateAccountKey Scenario.cid_Parse
           Scenario.height defaultPhaseStart StatsScenario.statsAddrMap
           Scenario.knownRestoreClients StatsScenario.statsDeals
           StatsScenario.statsOrder "projA" statsA).
  by vm_compute.
Defined.

(** X3: the number of piece cids of a participant is the number of
    different piece cids of the deals of its emitted list, and
    [max_same_cid_deals] is the largest number of listed deals with one
    piece cid: no piece cid has more, one has as many when the list is
    not empty, and the value is 0 for the empty list. *)
Theorem X3_participant_piece_cids {sorter : SliceSorter}
    (laws : SliceSorterLaws sorter)
    (EpochsInDay : Z) (StateAccountKey : Address → option Address)
    (cid_Parse : string → option (string * string))
    (height currentPhaseStart : Z) (knownAddrMap : gmap Address string)
    (knownRestoreClients : gmap Address unit)
    (deals : gmap string MarketDeal) (order : list string)
    (projID : string) (ps : projectAggregateStats) :
  let out := rollup EpochsInDay StateAccountKey cid_Parse height
               currentPhaseStart knownAddrMap knownRestoreClients deals order in
  client_stats out !! projID = Some ps →
  let dl := default [] (deals_list out !! projID) in
  let dealsOf c := Z.of_nat (length (filter (λ x, pieceOf deals x = c) dl)) in
  ps_NumCids ps = distinct (pieceOf deals) dl ∧
  (∀ c, dealsOf c <= ps_HighestCidDealCount ps) ∧
  (dl = [] → ps_HighestCidDealCount ps = 0) ∧
  (dl ≠ [] →
   ∃ c, c ∈ pieceOf deals <$> dl ∧ ps_HighestCidDealCount ps = dealsOf c).
Proof.
  intros out Hps dl dealsOf.
  destruct (client_stats_entry laws _ _ _ _ _ _ _ _ _ projID ps Hps)
    as (e & _ & -> & Hag).
  destruct Hag as [_ _ _ _ Hc _ _ _ Hh _]. fold out dl in Hc.
  cbn [finalizeProject ps_NumCids ps_HighestCidDealCount].
  rewrite Hh.
  destruct (maxOver_spec 0 (ps_timesSeenPieceCid e)) as (H0 & Hall & Hatt).
  assert (Hcount : ∀ c, dealsOf c <= maxOver 0 (ps_timesSeenPieceCid e)).
  { intros c. destruct (decide (c ∈ pieceOf deals <$> dl)) as [Hin|Hin].
    - apply (Hall c). rewrite Hc. unfold countBy. by rewrite decide_True.
    - unfold dealsOf. rewrite (filter_key_nil (pieceOf deals)) by done.
      simpl. lia. }
  split; [|split; [done|split]].
  - apply size_by_key. intros c. rewrite Hc. apply countBy_is_Some.
  - intros Hnil. destruct Hatt as [?|(c & Hk)]; [done|].
    rewrite Hc in Hk. unfold countBy in Hk. rewrite Hnil in Hk.
    rewrite decide_False in Hk; [done|]. apply not_elem_of_nil.
  - intros Hne. destruct Hatt as [Hz|(c & Hk)].
    + destruct dl as [|x dl'] eqn:Hdl; [done|].
      specialize (Hcount (pieceOf deals x)). unfold dealsOf in Hcount.
      rewrite filter_cons, decide_True in Hcount by done. simpl in Hcount. lia.
    + exists c. rewrite Hc in Hk. unfold countBy in Hk.
      destruct (decide (c ∈ pieceOf deals <$> dl)); [|done].
      split; [done|]. by injection Hk as <-.
Qed.

Lemma X3_witness :
  let out := rollup (sorter := go115_small) Scenario.EpochsInDay
               Scenario.StateAccountKey Scenario.cid_Parse Scenario.height
               defaultPhaseStart StatsScenario.statsAddrMap
               Scenario.knownRestoreClients StatsScenario.statsDeals
               StatsScenario.statsOrder in
  let dl := default [] (deals_list out !! "projA") in
  let dealsOf c :=
    Z.of_nat (length (filter (λ x, pieceOf StatsScenario.statsDeals x = c) dl)) in
  ps_NumCids statsA = 2 ∧ ps_HighestCidDealCount statsA = 2 ∧
  ps_NumCids statsA = distinct (pieceOf StatsScenario.statsDeals) dl ∧
  (∀ c, dealsOf c <= ps_HighestCidDealCount statsA) ∧
  (dl = [] → ps_HighestCidDealCount statsA = 0) ∧
  (dl ≠ [] →
   ∃ c, c ∈ pieceOf StatsScenario.statsDeals <$> dl ∧
        ps_HighestCidDealCount statsA = dealsOf c).
Proof.
  split; [by vm_compute|]. split; [by vm_compute|].
  apply (X3_participant_piece_cids go115_small_laws
           Scenario.EpochsInDay Scenario.StateAccountKey Scenario.cid_Parse
           Scenario.height defaultPhaseStart StatsScenario.statsAddrMap
           Scenario.knownRestoreClients StatsScenario.statsDeals
           StatsScenario.statsOrder "projA" statsA).
  by vm_compute.
Defined.

(** X4: for every participant of the statistics, the number of piece cids
    and the number of providers are at most the number of deals, and the
    number of deals is at most nine times the number of piece cids. *)
Theorem X4_participant_counts_bounds {sorter : SliceSorter}
    (EpochsInDay : Z) (StateAccountKey : Address → option Address)
    (cid_Parse : string → option (string * string))
    (height currentPhaseStart : Z) (knownAddrMap : gmap Address string)
    (knownRestoreClients : gmap Address unit)
    (deals : gmap string MarketDeal) (order : list string)
    (projID : string) (ps : projectAggregateStats) :
  client_stats (rollup EpochsInDay StateAccountKey cid_Parse height
                  currentPhaseStart knownAddrMap knownRestoreClients deals order)
    !! projID = Some ps →
  0 <= ps_NumCids ps <= ps_NumDeals ps ∧
  0 <= ps_NumProviders ps <= ps_NumDeals ps ∧
  ps_NumDeals ps <= 9 * ps_NumCids ps.
Proof.
  unfold rollup. simpl. rewrite lookup_fmap.
  destruct (projStats _ !! projID) as [e|] eqn:He; [|done].
  intros [= <-].
  pose proof (entriesInv_processDeals EpochsInDay StateAccountKey cid_Parse
    currentPhaseStart knownAddrMap knownRestoreClients deals
    (orderedDealList height deals order) projID) as Hag.
  pose proof (tallyInv_processDeals EpochsInDay StateAccountKey cid_Parse
    currentPhaseStart knownAddrMap knownRestoreClients deals initialState
    (orderedDealList height deals order) tallyInv_initial projID e He)
    as [_ Hcap].
  unfold finalState in He. rewrite He in Hag.
  set (dl := default [] _) in Hag.
  destruct Hag as [_ Hn _ Hp Hc _ _ _ _ _].
  cbn [finalizeProject ps_NumCids ps_NumDeals ps_NumProviders].
  rewrite (size_by_key (pieceOf deals) _ dl)
    by (intros c; rewrite Hc; apply countBy_is_Some).
  rewrite (size_by_key id_MinerID _ dl)
    by (intros p; rewrite Hp; apply sumBy_is_Some).
  rewrite Hn.
  pose proof (distinct_le_length (pieceOf deals) dl).
  pose proof (distinct_le_length id_MinerID dl).
  assert (0 <= distinct (pieceOf deals) dl) by (unfold distinct; lia).
  assert (0 <= distinct id_MinerID dl) by (unfold distinct; lia).
  split; [lia|]. split; [lia|].
  apply (length_le_distinct (pieceOf deals) 9). intros c.
  specialize (Hcap c) as [_ Hcap]. unfold getZ in Hcap. rewrite Hc in Hcap.
  unfold countBy in Hcap.
  destruct (decide (c ∈ pieceOf deals <$> dl)); simpl in Hcap; [lia|].
  rewrite (filter_key_nil (pieceOf deals)) by done. simpl. lia.
Qed.

Lemma X4_witness :
  ps_NumDeals statsA = 3 ∧
  0 <= ps_NumCids statsA <= ps_NumDeals statsA ∧
  0 <= ps_NumProviders statsA <= ps_NumDeals statsA ∧
  ps_NumDeals statsA <= 9 * ps_NumCids statsA.
Proof.
  split; [by vm_compute|].
  apply (X4_participant_counts_bounds (sorter := go115_small)
           Scenario.EpochsInDay Scenario.StateAccountKey Scenario.cid_Parse
           Scenario.height defaultPhaseStart StatsScenario.statsAddrMap
           Scenario.knownRestoreClients StatsScenario.statsDeals
           StatsScenario.statsOrder "projA" statsA).
  by vm_compute.
Defined.

(** X5: the wallets in the statistics of a participant are the clients of
    its emitted deal list, and the statistics of a wallet are those of its
    deals of the list: their number, the sum of their sizes as an
    [int64], the number of their different miners and the number of their
    different piece cids. *)
Theorem X5_client_stats_match_deal_list {sorter : SliceSorter}
    (laws : SliceSorterLaws sorter)
    (EpochsInDay : Z) (StateAccountKey : Address → option Address)
    (cid_Parse : string → option (string * string))
    (height currentPhaseStart : Z) (knownAddrMap : gmap Address string)
    (knownRestoreClients : gmap Address unit)
    (deals : gmap string MarketDeal) (order : list string)
    (projID : string) (ps : projectAggregateStats) :
  let out := rollup EpochsInDay StateAccountKey cid_Parse height
               currentPhaseStart knownAddrMap knownRestoreClients deals order in
  client_stats out !! projID = Some ps →
  let dl := default [] (deals_list out !! projID) in
  ∀ w,
    let dlw := filter (λ x, id_Client x = w) dl in
    match ps_ClientStats ps !! w with
    | Some cs =>
        w ∈ id_Client <$> dl ∧
        cs_Client cs = w ∧
        cs_NumDeals cs = Z.of_nat (length dlw) ∧
        cs_DataSize cs = wrap64 (sumZ (id_PaddedSize <$> dlw)) ∧
        cs_NumProviders cs = distinct id_MinerID dlw ∧
        cs_NumCids cs = distinct (pieceOf deals) dlw
    | None => w ∉ id_Client <$> dl
    end.
Proof.
  intros out Hps dl w dlw.
  destruct (client_stats_entry laws _ _ _ _ _ _ _ _ _ projID ps Hps)
    as (e & _ & -> & Hag).
  destruct Hag as [_ _ _ _ _ Hcs _ _ _ _]. fold out dl in Hcs.
  specialize (Hcs w). fold dlw in Hcs.
  cbn [finalizeProject ps_ClientStats]. rewrite lookup_fmap.
  destruct (ps_ClientStats e !! w) as [cs|]; [|done].
  destruct Hcs as [Hin [Hc Hn Hd Hp Hcid _ _]].
  cbn [fmap option_fmap option_map finalizeClient cs_Client cs_NumDeals
       cs_DataSize cs_NumProviders cs_NumCids].
  repeat split; try done.
  - apply size_by_key. intros p. rewrite Hp. apply keysOf_is_Some.
  - apply size_by_key. intros c. rewrite Hcid. apply keysOf_is_Some.
Qed.

Lemma X5_witness :
  let out := rollup (sorter := go115_small) Scenario.EpochsInDay
               Scenario.StateAccountKey Scenario.cid_Parse Scenario.height
               defaultPhaseStart StatsScenario.statsAddrMap
               Scenario.knownRestoreClients StatsScenario.statsDeals
               StatsScenario.statsOrder in
  let dl := default [] (deals_list out !! "projA") in
  (cs_NumDeals <$> ps_ClientStats statsA !! "f1alice") = Some 3 ∧
  ∀ w,
    let dlw := filter (λ x, id_Client x = w) dl in
    match ps_ClientStats statsA !! w with
    | Some cs =>
        w ∈ id_Client <$> dl ∧
        cs_Client cs = w ∧
        cs_NumDeals cs = Z.of_nat (length dlw) ∧
        cs_DataSize cs = wrap64 (sumZ (id_PaddedSize <$> dlw)) ∧
        cs_NumProviders cs = distinct id_MinerID dlw ∧
        cs_NumCids cs = distinct (pieceOf StatsScenario.statsDeals) dlw
    | None => w ∉ id_Client <$> dl
    end.
Proof.
  split; [by vm_compute|].
  apply (X5_client_stats_match_deal_list go115_small_laws
           Scenario.EpochsInDay Scenario.StateAccountKey Scenario.cid_Parse
           Scenario.height defaultPhaseStart StatsScenario.statsAddrMap
           Scenario.knownRestoreClients StatsScenario.statsDeals
           StatsScenario.statsOrder "projA" statsA).
  by vm_compute.
Defined.

(** X6: the totals of the competition agree with the emitted deal lists
    taken together: the number of deals is the number of their entries,
    the bytes are the sum of their sizes as an [int64], and the Fil+
    totals are the number and the sum of the entries whose deal is a
    verified deal of the snapshot; the Fil+ deals are among the deals. *)
Theorem X6_totals_match_deal_lists {sorter : SliceSorter}
    (laws : SliceSorterLaws sorter)
    (EpochsInDay : Z) (StateAccountKey : Address → option Address)
    (cid_Parse : string → option (string * string))
    (height currentPhaseStart : Z) (knownAddrMap : gmap Address string)
    (knownRestoreClients : gmap Address unit)
    (deals : gmap string MarketDeal) (order : list string) :
  let out := rollup EpochsInDay StateAccountKey cid_Parse height
               currentPhaseStart knownAddrMap knownRestoreClients deals order in
  let all := allListed (deals_list out) in
  let filplus := filter (λ x, verifiedOf deals x = true) all in
  TotalDeals (basic_stats out) = Z.of_nat (length all) ∧
  TotalBytes (basic_stats out) = wrap64 (sumZ (id_PaddedSize <$> all)) ∧
  FilplusTotalDeals (basic_stats out) = Z.of_nat (length filplus) ∧
  FilplusTotalBytes (basic_stats out) = wrap64 (sumZ (id_PaddedSize <$> filplus)) ∧
  0 <= FilplusTotalDeals (basic_stats out) <= TotalDeals (basic_stats out).
Proof.
  intros out all filplus.
  destruct (basic_stats_totals laws EpochsInDay StateAccountKey cid_Parse height
    currentPhaseStart knownAddrMap knownRestoreClients deals order)
    as [Hn Hb Hfn Hfb _ _ _].
  fold out all filplus in Hn, Hb, Hfn, Hfb.
  assert (Ht : TotalDeals (basic_stats out) = Z.of_nat (length all)) by exact Hn.
  assert (Hf : FilplusTotalDeals (basic_stats out) = Z.of_nat (length filplus))
    by exact Hfn.
  split; [exact Ht|]. split; [exact Hb|]. split; [exact Hf|]. split; [exact Hfb|].
  rewrite Ht, Hf. split; [lia|].
  apply Nat2Z.inj_le, length_filter.
Qed.

Lemma X6_witness :
  let out := rollup (sorter := go115_small) Scenario.EpochsInDay
               Scenario.StateAccountKey Scenario.cid_Parse Scenario.height
               defaultPhaseStart StatsScenario.statsAddrMap
               Scenario.knownRestoreClients StatsScenario.statsDeals
               StatsScenario.statsOrder in
  let all := allListed (deals_list out) in
  let filplus := filter (λ x, verifiedOf StatsScenario.statsDeals x = true) all in
  TotalDeals (basic_stats out) = 4 ∧
  TotalDeals (basic_stats out) = Z.of_nat (length all) ∧
  TotalBytes (basic_stats out) = wrap64 (sumZ (id_PaddedSize <$> all)) ∧
  FilplusTotalDeals (basic_stats out) = Z.of_nat (length filplus) ∧
  FilplusTotalBytes (basic_stats out) = wrap64 (sumZ (id_PaddedSize <$> filplus)) ∧
  0 <= FilplusTotalDeals (basic_stats out) <= TotalDeals (basic_stats out).
Proof.
  split; [by vm_compute|].
  apply (X6_totals_match_deal_lists go115_small_laws
           Scenario.EpochsInDay Scenario.StateAccountKey Scenario.cid_Parse
           Scenario.height defaultPhaseStart StatsScenario.statsAddrMap
           Scenario.knownRestoreClients StatsScenario.statsDeals
           StatsScenario.statsOrder).
Defined.

(** X7: the unique clients, providers and piece cids of the totals are
    the numbers of different clients, miners and piece cids of the
    entries of the emitted deal lists taken together. *)
Theorem X7_unique_counts_match_deal_lists {sorter : SliceSorter}
    (laws : SliceSorterLaws sorter)
    (EpochsInDay : Z) (StateAccountKey : Address → option Address)
    (cid_Parse : string → option (string * string))
    (height currentPhaseStart : Z) (knownAddrMap : gmap Address string)
    (knownRestoreClients : gmap Address unit)
    (deals : gmap string MarketDeal) (order : list string) :
  let out := rollup EpochsInDay StateAccountKey cid_Parse height
               currentPhaseStart knownAddrMap knownRestoreClients deals order in
  let all := allListed (deals_list out) in
  UniqueClients (basic_stats out) = distinct id_Client all ∧
  UniqueProviders (basic_stats out) = distinct id_MinerID all ∧
  UniqueCids (basic_stats out) = distinct (pieceOf deals) all.
Proof.
  intros out all.
  destruct (basic_stats_totals laws EpochsInDay StateAccountKey cid_Parse height
    currentPhaseStart knownAddrMap knownRestoreClients deals order)
    as [_ _ _ _ Hc Hp Hcid].
  fold out all in Hc, Hp, Hcid.
  split; [|split];
    [change (UniqueClients (basic_stats out))
       with (len (seenClient (grandTotals
         (finalState EpochsInDay StateAccountKey cid_Parse height
            currentPhaseStart knownAddrMap knownRestoreClients deals order))))
    |change (UniqueProviders (basic_stats out))
       with (len (seenProvider (grandTotals
         (finalState EpochsInDay StateAccountKey cid_Parse height
            currentPhaseStart knownAddrMap knownRestoreClients deals order))))
    |change (UniqueCids (basic_stats out))
       with (len (seenPieceCid (grandTotals
         (finalState EpochsInDay StateAccountKey cid_Parse height
            currentPhaseStart knownAddrMap knownRestoreClients deals order))))];
    apply size_by_key; intros k.
  - rewrite Hc. apply keysOf_is_Some.
  - rewrite Hp. apply keysOf_is_Some.
  - rewrite Hcid. apply keysOf_is_Some.
Qed.

Lemma X7_witness :
  let out := rollup (sorter := go115_small) Scenario.EpochsInDay
               Scenario.StateAccountKey Scenario.cid_Parse Scenario.height
               defaultPhaseStart StatsScenario.statsAddrMap
               Scenario.knownRestoreClients StatsScenario.statsDeals
               StatsScenario.statsOrder in
  let all := allListed (deals_list out) in
  UniqueClients (basic_stats out) = 2 ∧
  UniqueProviders (basic_stats out) = 2 ∧
  UniqueCids (basic_stats out) = 3 ∧
  UniqueClients (basic_stats out) = distinct id_Client all ∧
  UniqueProviders (basic_stats out) = distinct id_MinerID all ∧
  UniqueCids (basic_stats out) = distinct (pieceOf StatsScenario.statsDeals) all.
Proof.
  split; [by vm_compute|]. split; [by vm_compute|]. split; [by vm_compute|].
  apply (X7_unique_counts_match_deal_lists go115_small_laws
           Scenario.EpochsInDay Scenario.StateAccountKey Scenario.cid_Parse
           Scenario.height defaultPhaseStart StatsScenario.statsAddrMap
           Scenario.knownRestoreClients StatsScenario.statsDeals
           StatsScenario.statsOrder).
Defined.

(** X8: the participants of the three outputs. A participant has
    statistics exactly when a deal of the classification order reaches
    the tally for it; it is seen, and counted in the unique projects,
    exactly when such a deal is past the gates of the phase start and of
    the duration; a participant with a deal list is seen, and a seen
    participant has statistics. So the number of deal lists is at most
    the unique projects, which are at most the participants of the
    statistics. *)
Theorem X8_participants_of_the_outputs {sorter : SliceSorter}
    (EpochsInDay : Z) (StateAccountKey : Address → option Address)
    (cid_Parse : string → option (string * string))
    (height currentPhaseStart : Z) (knownAddrMap : gmap Address string)
    (knownRestoreClients : gmap Address unit)
    (deals : gmap string MarketDeal) (order : list string) :
  let out := rollup EpochsInDay StateAccountKey cid_Parse height
               currentPhaseStart knownAddrMap knownRestoreClients deals order in
  let l := orderedDealList height deals order in
  let matched := matchedProjects StateAccountKey knownAddrMap deals l in
  let marked := markedProjects EpochsInDay StateAccountKey currentPhaseStart
                  knownAddrMap deals l in
  (∀ p, is_Some (client_stats out !! p) ↔ p ∈ matched) ∧
  (∀ p, seenProject (basic_stats out) !! p = Some true ↔ p ∈ marked) ∧
  UniqueProjects (basic_stats out) = distinct id marked ∧
  (∀ p, is_Some (deals_list out !! p) → p ∈ marked) ∧
  (∀ p, p ∈ marked → p ∈ matched) ∧
  Z.of_nat (size (deals_list out)) <= UniqueProjects (basic_stats out)
    <= Z.of_nat (size (client_stats out)).
Proof.
  intros out l matched marked.
  destruct (projectsInvH_history EpochsInDay StateAccountKey cid_Parse
    currentPhaseStart knownAddrMap knownRestoreClients deals l) as [HD HS].
  fold matched in HD. fold marked in HS.
  set (st := processDeals _ _ _ _ _ _ _ initialState l) in *.
  assert (Hstats : ∀ p, is_Some (client_stats out !! p) ↔ p ∈ matched).
  { intros p. rewrite <- HD. unfold out, rollup. simpl.
    by rewrite lookup_fmap, fmap_is_Some. }
  assert (Hseen : ∀ p, is_Some (seenProject (grandTotals st) !! p) ↔ p ∈ marked).
  { intros p. rewrite HS, keysOf_is_Some. by rewrite list_fmap_id. }
  assert (Hlists : ∀ p, is_Some (deals_list out !! p) → p ∈ marked).
  { intros p Hp.
    assert (Hp' : is_Some (projDealLists st !! p)).
    { unfold out, rollup in Hp. simpl in Hp.
      by rewrite lookup_fmap, fmap_is_Some in Hp. }
    unfold st in Hp'.
    rewrite (listsInvH_history EpochsInDay StateAccountKey cid_Parse
               currentPhaseStart knownAddrMap knownRestoreClients deals) in Hp'.
    destruct (filter _ _) as [|e k] eqn:E; [by destruct Hp'|].
    assert (He : e ∈ filter (λ x, id_ProjectID x = p)
                   (countedDeals EpochsInDay StateAccountKey cid_Parse
                      currentPhaseStart knownAddrMap deals l))
      by (rewrite E; by left).
    apply list_elem_of_filter in He as [Hproj He].
    apply elem_of_countedDeals in He as (Hin & Hg & w & projID & Hm & Heq).
    unfold marked, markedProjects. apply list_elem_of_omap.
    exists (id_DealID e). split; [done|]. rewrite Hg, Hm. simpl.
    f_equal. rewrite <- Hproj, Heq. done. }
  assert (Hsub : ∀ p, p ∈ marked → p ∈ matched).
  { intros p. unfold marked, matched, markedProjects, matchedProjects.
    rewrite !list_elem_of_omap. intros (y & Hy & Hp). exists y. split; [done|].
    by destruct (pastGates _ _ _ y). }
  assert (Hu : UniqueProjects (basic_stats out) = distinct id marked).
  { change (UniqueProjects (basic_stats out))
      with (len (seenProject (grandTotals st))).
    apply size_by_key. intros p. by rewrite Hseen, list_fmap_id. }
  split; [done|]. split.
  { intros p. change (seenProject (basic_stats out))
      with (seenProject (grandTotals st)).
    rewrite <- Hseen, HS. unfold keysOf. case_decide; split; (done || eauto). }
  split; [done|]. split; [done|]. split; [done|].
  change (UniqueProjects (basic_stats out))
    with (len (seenProject (grandTotals st))).
  unfold len. rewrite <- !size_dom. split; apply Nat2Z.inj_le, subseteq_size.
  - intros p Hp. apply elem_of_dom in Hp. apply elem_of_dom, Hseen.
    by apply Hlists.
  - intros p Hp. apply elem_of_dom in Hp. apply elem_of_dom, Hstats, Hsub.
    by apply Hseen.
Qed.

(** X9: which deals are counted. In a run that iterates every deal of the
    snapshot once, the deal at a position of the classification order is
    in a deal list exactly when its client resolves to a wallet, the
    workaround does not stop it, the wallet is of a participant, the
    sector started at or after the phase start, the duration is at least
    360 days of epochs, and fewer than nine of the deals before it in
    the order have reached the tally of its piece cid for its
    participant, whether they were counted or not. *)
Theorem X9_counted_deals_by_position {sorter : SliceSorter}
    (laws : SliceSorterLaws sorter)
    (EpochsInDay : Z) (StateAccountKey : Address → option Address)
    (cid_Parse : string → option (string * string))
    (height currentPhaseStart : Z) (knownAddrMap : gmap Address string)
    (knownRestoreClients : gmap Address unit)
    (deals : gmap string MarketDeal) (order : list string)
    (pre : list string) (x : string) (post : list string) :
  rangeOrder deals order →
  orderedDealList height deals order = pre ++ x :: post →
  let out := rollup EpochsInDay StateAccountKey cid_Parse height
               currentPhaseStart knownAddrMap knownRestoreClients deals order in
  let d := lookupDeal deals x in
  (∃ projID dl e, deals_list out !! projID = Some dl ∧ e ∈ dl ∧ id_DealID e = x)
  ↔
  ∃ w projID,
    StateAccountKey (Client (Proposal d)) = Some w ∧
    isWorkaround w d = false ∧
    knownAddrMap !! w = Some projID ∧
    currentPhaseStart <= SectorStartEpoch (State d) ∧
    EpochsInDay * 360 <= dealDuration d ∧
    tallyOf StateAccountKey knownAddrMap deals pre projID (PieceCID (Proposal d)) < 9.
Proof.
  intros Hrange Hl out d.
  pose proof (orderedDealList_NoDup laws height deals order Hrange) as Hnd.
  set (counted := countedDeals EpochsInDay StateAccountKey cid_Parse
                    currentPhaseStart knownAddrMap deals
                    (orderedDealList height deals order)).
  assert (H1 : (∃ projID dl e, deals_list out !! projID = Some dl ∧ e ∈ dl ∧
                               id_DealID e = x)
               ↔ x ∈ id_DealID <$> counted).
  { rewrite list_elem_of_fmap. split.
    - intros (projID & dl & e & Hdl & He & Hid). exists e. split; [done|].
      pose proof (deals_list_counted laws EpochsInDay StateAccountKey cid_Parse
        height currentPhaseStart knownAddrMap knownRestoreClients deals order
        projID) as Hp.
      fold out in Hp. rewrite Hdl in Hp. simpl in Hp. rewrite Hp in He.
      by apply list_elem_of_filter in He as [_ ?].
    - intros (e & Hid & He). exists (id_ProjectID e).
      pose proof (deals_list_counted laws EpochsInDay StateAccountKey cid_Parse
        height currentPhaseStart knownAddrMap knownRestoreClients deals order
        (id_ProjectID e)) as Hp.
      fold out counted in Hp.
      assert (He' : e ∈ default [] (deals_list out !! id_ProjectID e)).
      { rewrite Hp. by apply list_elem_of_filter. }
      destruct (deals_list out !! id_ProjectID e) as [dl|]; simpl in He'.
      + by exists dl, e.
      + by apply elem_of_nil in He'. }
  rewrite H1. unfold counted, countedDeals. rewrite countedDeals_ids.
  rewrite Hl in Hnd |- *. rewrite countedFrom_position by done.
  unfold countedAfter, matchOf, pastGates. fold d.
  destruct (StateAccountKey (Client (Proposal d))) as [w|].
  2:{ split; [done|]. by intros (? & ? & ? & _). }
  destruct (isWorkaround w d) eqn:Hw.
  { split; [done|]. intros (? & ? & [= <-] & ? & _). congruence. }
  destruct (knownAddrMap !! w) as [projID|] eqn:Hk.
  2:{ split; [done|]. intros (? & ? & [= <-] & _ & ? & _). congruence. }
  rewrite !andb_true_iff, !Z.leb_le, Z.ltb_lt. split.
  - intros [[? ?] ?]. by exists w, projID.
  - intros (w' & p' & [= <-] & _ & Hk' & ? & ? & ?).
    assert (p' = projID) as -> by congruence. done.
Qed.

Lemma X9_witness :
  let out := rollup (sorter := go115_small) Scenario.EpochsInDay
               Scenario.StateAccountKey Scenario.cid_Parse Scenario.height
               defaultPhaseStart StatsScenario.statsAddrMap
               Scenario.knownRestoreClients StatsScenario.statsDeals
               StatsScenario.statsOrder in
  let d := lookupDeal StatsScenario.statsDeals "2" in
  tallyOf Scenario.StateAccountKey StatsScenario.statsAddrMap
    StatsScenario.statsDeals ["5"; "1"] "projA" "piece1" = 2 ∧
  ((∃ projID dl e, deals_list out !! projID = Some dl ∧ e ∈ dl ∧ id_DealID e = "2")
   ↔
   ∃ w projID,
     Scenario.StateAccountKey (Client (Proposal d)) = Some w ∧
     isWorkaround w d = false ∧
     StatsScenario.statsAddrMap !! w = Some projID ∧
     defaultPhaseStart <= SectorStartEpoch (State d) ∧
     Scenario.EpochsInDay * 360 <= dealDuration d ∧
     tallyOf Scenario.StateAccountKey StatsScenario.statsAddrMap
       StatsScenario.statsDeals ["5"; "1"] projID (PieceCID (Proposal d)) < 9).
Proof.
  split; [by vm_compute|].
  apply (X9_counted_deals_by_position go115_small_laws
           Scenario.EpochsInDay Scenario.StateAccountKey Scenario.cid_Parse
           Scenario.height defaultPhaseStart StatsScenario.statsAddrMap
           Scenario.knownRestoreClients StatsScenario.statsDeals
           StatsScenario.statsOrder ["5"; "1"] "2" ["3"; "4"; "6"; "7"]).
  - split; [decide_by_compute|by vm_compute].
  - by vm_compute.
Defined.

(** X10: the entries of the deal lists. In a run that iterates every deal
    of the snapshot once, no deal has two entries in the deal lists, and
    an entry of the list of a participant is the entry of a live deal of
    the snapshot whose client resolves to a wallet of this participant
    that the workaround does not stop: it has the id of the deal, the
    participant, the wallet, the provider, the sector start, the piece
    size as an [int64], and the payload cid of the label or "unknown". *)
Theorem X10_deal_list_entries {sorter : SliceSorter}
    (laws : SliceSorterLaws sorter)
    (EpochsInDay : Z) (StateAccountKey : Address → option Address)
    (cid_Parse : string → option (string * string))
    (height currentPhaseStart : Z) (knownAddrMap : gmap Address string)
    (knownRestoreClients : gmap Address unit)
    (deals : gmap string MarketDeal) (order : list string) :
  rangeOrder deals order →
  let out := rollup EpochsInDay StateAccountKey cid_Parse height
               currentPhaseStart knownAddrMap knownRestoreClients deals order in
  NoDup (id_DealID <$> allListed (deals_list out)) ∧
  ∀ projID dl e,
    deals_list out !! projID = Some dl → e ∈ dl →
    ∃ d w,
      deals !! id_DealID e = Some d ∧
      notLive height d = false ∧
      StateAccountKey (Client (Proposal d)) = Some w ∧
      isWorkaround w d = false ∧
      knownAddrMap !! w = Some projID ∧
      e = {| id_ProjectID := projID;
             id_Client := w;
             id_DealID := id_DealID e;
             id_DealStartEpoch := SectorStartEpoch (State d);
             id_MinerID := Provider (Proposal d);
             id_PayloadCID :=
               match cid_Parse (Label (Proposal d)) with
               | Some cc => cc.1
               | None => "unknown"
               end;
             id_PaddedSize := wrap64 (PieceSize (Proposal d)) |}.
Proof.
  intros Hrange out.
  pose proof (orderedDealList_NoDup laws height deals order Hrange) as Hnd.
  split.
  - unfold out. rewrite (allListed_counted laws). unfold countedDeals.
    rewrite countedDeals_ids.
    eapply sublist_NoDup; [exact Hnd|apply countedFrom_sublist].
  - intros projID dl e Hdl He.
    pose proof (deals_list_counted laws EpochsInDay StateAccountKey cid_Parse
      height currentPhaseStart knownAddrMap knownRestoreClients deals order
      projID) as Hp.
    fold out in Hp. rewrite Hdl in Hp. simpl in Hp. rewrite Hp in He.
    apply list_elem_of_filter in He as [Hproj He].
    apply elem_of_countedDeals in He as (Hin & _ & w & p & Hm & Heq).
    destruct (orderedDealList_live laws height deals order _ Hrange Hin)
      as (d & Hd & Hld & Hlive).
    rewrite Hld in Heq. unfold matchOf in Hm. rewrite Hld in Hm.
    destruct (StateAccountKey (Client (Proposal d))) as [w'|] eqn:Hs; [|done].
    destruct (isWorkaround w' d) eqn:Hw; [done|].
    destruct (knownAddrMap !! w') as [p'|] eqn:Hk; [|done].
    injection Hm as -> ->.
    assert (p = projID) as -> by (rewrite <- Hproj, Heq; done).
    exists d, w. repeat split; try done.
    rewrite Heq at 1. unfold mkIndividualDeal, payloadCids, int64_of_uint64.
    simpl. by destruct (cid_Parse (Label (Proposal d))).
Qed.

Lemma X10_witness :
  let out := rollup (sorter := go115_small) Scenario.EpochsInDay
               Scenario.StateAccountKey Scenario.cid_Parse Scenario.height
               defaultPhaseStart StatsScenario.statsAddrMap
               Scenario.knownRestoreClients StatsScenario.statsDeals
               StatsScenario.statsOrder in
  id_DealID <$> default [] (deals_list out !! "projA") = ["2"; "1"; "3"] ∧
  NoDup (id_DealID <$> allListed (deals_list out)) ∧
  ∀ projID dl e,
    deals_list out !! projID = Some dl → e ∈ dl →
    ∃ d w,
      StatsScenario.statsDeals !! id_DealID e = Some d ∧
      notLive Scenario.height d = false ∧
      Scenario.StateAccountKey (Client (Proposal d)) = Some w ∧
      isWorkaround w d = false ∧
      StatsScenario.statsAddrMap !! w = Some projID ∧
      e = {| id_ProjectID := projID;
             id_Client := w;
             id_DealID := id_DealID e;
             id_DealStartEpoch := SectorStartEpoch (State d);
             id_MinerID := Provider (Proposal d);
             id_PayloadCID :=
               match Scenario.cid_Parse (Label (Proposal d)) with
               | Some cc => cc.1
               | None => "unknown"
               end;
             id_PaddedSize := wrap64 (PieceSize (Proposal d)) |}.
Proof.
  split; [by vm_compute|].
  apply (X10_deal_list_entries go115_small_laws
           Scenario.EpochsInDay Scenario.StateAccountKey Scenario.cid_Parse
           Scenario.height defaultPhaseStart StatsScenario.statsAddrMap
           Scenario.knownRestoreClients StatsScenario.statsDeals
           StatsScenario.statsOrder).
  split; [decide_by_compute|by vm_compute].
Defined.

(** X11: the all-time tally of a piece cid in the statistics of a
    participant is the number of the deals of the classification order
    that reach the tally for this participant with this piece cid,
    whether they pass the gates of the phase start and of the duration or
    not; the deals counted for the piece cid are at most as many. *)
Theorem X11_all_time_tally {sorter : SliceSorter}
    (EpochsInDay : Z) (StateAccountKey : Address → option Address)
    (cid_Parse : string → option (string * string))
    (height currentPhaseStart : Z) (knownAddrMap : gmap Address string)
    (knownRestoreClients : gmap Address unit)
    (deals : gmap string MarketDeal) (order : list string)
    (projID : string) (ps : projectAggregateStats) :
  client_stats (rollup EpochsInDay StateAccountKey cid_Parse height
                  currentPhaseStart knownAddrMap knownRestoreClients deals order)
    !! projID = Some ps →
  ∀ c,
    getZ (ps_timesSeenPieceCidAllTime ps) c
    = tallyOf StateAccountKey knownAddrMap deals
        (orderedDealList height deals order) projID c ∧
    getZ (ps_timesSeenPieceCid ps) c <= getZ (ps_timesSeenPieceCidAllTime ps) c.
Proof.
  unfold rollup. simpl. rewrite lookup_fmap.
  destruct (projStats _ !! projID) as [e|] eqn:He; [|done].
  intros [= <-] c.
  cbn [finalizeProject ps_timesSeenPieceCidAllTime ps_timesSeenPieceCid].
  pose proof (allTimeTally_history EpochsInDay StateAccountKey cid_Parse
    currentPhaseStart knownAddrMap knownRestoreClients deals
    (orderedDealList height deals order) projID c) as Ht.
  pose proof (tallyInv_processDeals EpochsInDay StateAccountKey cid_Parse
    currentPhaseStart knownAddrMap knownRestoreClients deals initialState
    (orderedDealList height deals order) tallyInv_initial projID e He)
    as [_ Hcap].
  unfold allTimeTally in Ht. unfold finalState in He. rewrite He in Ht.
  split; [done|]. apply Hcap.
Qed.

Lemma X11_witness :
  getZ (ps_timesSeenPieceCid statsA) "piece1" = 2 ∧
  ∀ c,
    getZ (ps_timesSeenPieceCidAllTime statsA) c
    = tallyOf Scenario.StateAccountKey StatsScenario.statsAddrMap
        StatsScenario.statsDeals
        (orderedDealList (sorter := go115_small) Scenario.height
           StatsScenario.statsDeals StatsScenario.statsOrder) "projA" c ∧
    getZ (ps_timesSeenPieceCid statsA) c
    <= getZ (ps_timesSeenPieceCidAllTime statsA) c.
Proof.
  split; [by vm_compute|].
  apply (X11_all_time_tally (sorter := go115_small)
           Scenario.EpochsInDay Scenario.StateAccountKey Scenario.cid_Parse
           Scenario.height defaultPhaseStart StatsScenario.statsAddrMap
           Scenario.knownRestoreClients StatsScenario.statsDeals
           StatsScenario.statsOrder "projA" statsA).
  by vm_compute.
Defined.

(** X12: after the loop the cache of resolved wallets holds, for the
    clients of the deals of the classification order and for no other
    address, the wallet that the node answers; a client for which the
    node fails is not in the cache. *)
Theorem X12_resolved_wallets_cache {sorter : SliceSorter}
    (EpochsInDay : Z) (StateAccountKey : Address → option Address)
    (cid_Parse : string → option (string * string))
    (height currentPhaseStart : Z) (knownAddrMap : gmap Address string)
    (knownRestoreClients : gmap Address unit)
    (deals : gmap string MarketDeal) (order : list string) :
  let st := finalState EpochsInDay StateAccountKey cid_Parse height
              currentPhaseStart knownAddrMap knownRestoreClients deals order in
  ∀ h w,
    resolvedWallets st !! h = Some w ↔
    StateAccountKey h = Some w ∧
    ∃ x, x ∈ orderedDealList height deals order ∧
         Client (Proposal (lookupDeal deals x)) = h.
Proof.
  intros st h w. subst st. unfold finalState.
  apply (cacheInvH_processDeals EpochsInDay StateAccountKey cid_Parse
           currentPhaseStart knownAddrMap knownRestoreClients deals
           (orderedDealList height deals order) [] initialState).
  intros h' w'. simpl. rewrite lookup_empty. split; [done|].
  by intros (_ & ? & ?%elem_of_nil & _).
Qed.

(** X13: in a run that iterates every deal of the snapshot once, the
    recovery list is in the classification order and has no deal twice:
    the ids of its entries are a part of the classification order, in
    ascending order of the sort key, without repetition. *)
Theorem X13_recovery_list_order {sorter : SliceSorter}
    (laws : SliceSorterLaws sorter)
    (EpochsInDay : Z) (StateAccountKey : Address → option Address)
    (cid_Parse : string → option (string * string))
    (height currentPhaseStart : Z) (knownAddrMap : gmap Address string)
    (knownRestoreClients : gmap Address unit)
    (deals : gmap string MarketDeal) (order : list string) :
  rangeOrder deals order →
  let ids := rd_DealID <$> recovery_deallist
               (rollup EpochsInDay StateAccountKey cid_Parse height
                  currentPhaseStart knownAddrMap knownRestoreClients deals order) in
  ids `sublist_of` orderedDealList height deals order ∧
  StronglySorted (λ a b, keyLe (dealKey deals a) (dealKey deals b)) ids ∧
  NoDup ids.
Proof.
  intros Hrange ids.
  assert (Hsub : ids `sublist_of` orderedDealList height deals order).
  { subst ids. unfold rollup, finalState. simpl.
    rewrite recoveredDeals_processDeals by apply cacheOK_initial. simpl.
    apply recoveryOf_ids_sublist. }
  split; [done|]. split.
  - eapply StronglySorted_sublist; [done|]. apply (orderedDealList_Sorted laws).
  - eapply sublist_NoDup; [|exact Hsub]. by apply (orderedDealList_NoDup laws).
Qed.

Lemma X13_witness :
  let ids := rd_DealID <$> recovery_deallist
               (rollup (sorter := go115_small) Scenario.EpochsInDay
                  Scenario.StateAccountKey Scenario.cid_Parse Scenario.height
                  defaultPhaseStart Scenario.knownAddrMap
                  Scenario.knownRestoreClients RecoveryScenario.recoveryDeals
                  ["11"]) in
  ids = ["11"] ∧
  ids `sublist_of` orderedDealList (sorter := go115_small) Scenario.height
                     RecoveryScenario.recoveryDeals ["11"] ∧
  StronglySorted (λ a b, keyLe (dealKey RecoveryScenario.recoveryDeals a)
                               (dealKey RecoveryScenario.recoveryDeals b)) ids ∧
  NoDup ids.
Proof.
  split; [by vm_compute|].
  apply (X13_recovery_list_order go115_small_laws
           Scenario.EpochsInDay Scenario.StateAccountKey Scenario.cid_Parse
           Scenario.height defaultPhaseStart Scenario.knownAddrMap
           Scenario.knownRestoreClients RecoveryScenario.recoveryDeals ["11"]).
  split; [decide_by_compute|by vm_compute].
Defined.

(** X14: the recovery registry and the decoding of the labels do not
    reach the totals nor the statistics: two runs that differ in the two
    have the same totals and the same statistics of the participants;
    and two runs that differ in the recovery registry have the same deal
    lists. *)
Theorem X14_totals_independent_of_recovery {sorter : SliceSorter}
    (EpochsInDay : Z) (StateAccountKey : Address → option Address)
    (cid_Parse1 cid_Parse2 : string → option (string * string))
    (height currentPhaseStart : Z) (knownAddrMap : gmap Address string)
    (knownRestoreClients1 knownRestoreClients2 : gmap Address unit)
    (deals : gmap string MarketDeal) (order : list string) :
  let out1 := rollup EpochsInDay StateAccountKey cid_Parse1 height
                currentPhaseStart knownAddrMap knownRestoreClients1 deals order in
  let out2 := rollup EpochsInDay StateAccountKey cid_Parse2 height
                currentPhaseStart knownAddrMap knownRestoreClients2 deals order in
  let out3 := rollup EpochsInDay StateAccountKey cid_Parse1 height
                currentPhaseStart knownAddrMap knownRestoreClients2 deals order in
  basic_stats out1 = basic_stats out2 ∧
  client_stats out1 = client_stats out2 ∧
  deals_list out1 = deals_list out3.
Proof.
  intros out1 out2 out3. subst out1 out2 out3. unfold rollup, finalState. simpl.
  destruct (processDeals_independent EpochsInDay StateAccountKey
    currentPhaseStart knownAddrMap deals cid_Parse1 cid_Parse2
    knownRestoreClients1 knownRestoreClients2
    (orderedDealList height deals order) initialState initialState
    eq_refl eq_refl eq_refl) as (Hps & Hgt & _).
  destruct (processDeals_independent EpochsInDay StateAccountKey
    currentPhaseStart knownAddrMap deals cid_Parse1 cid_Parse1
    knownRestoreClients1 knownRestoreClients2
    (orderedDealList height deals order) initialState initialState
    eq_refl eq_refl eq_refl) as (_ & _ & Hdl).
  rewrite Hps, Hgt, Hdl; done.
Qed.


(** X16: in the map that [getAndParseProjectList] returns, a wallet has
    the project of the last entry of the list with its address that has
    not the tag of the workaround: later entries override earlier ones,
    and entries with the tag change nothing. *)
Theorem X16_project_list_last_entry_wins
    (address_NewFromString : string → option Address)
    (proj : list projectEntry) (knownAddrMap : gmap Address string) :
  getAndParseProjectList address_NewFromString proj = Some knownAddrMap →
  ∀ a projID,
    knownAddrMap !! a = Some projID ↔
    ∃ pre p post,
      proj = pre ++ p :: post ∧
      address_NewFromString (pe_address p) = Some a ∧
      isTagged p = false ∧
      pe_project p = projID ∧
      ∀ q, q ∈ post → address_NewFromString (pe_address q) = Some a →
           isTagged q = true.
Proof.
  unfold getAndParseProjectList.
  destruct (knownProject address_NewFromString proj ∅) as [m|] eqn:Hk; [|done].
  destruct (len m =? 0); [done|]. intros [= <-] a projID.
  rewrite (knownProject_Some _ _ _ _ Hk a projID). split.
  - intros [?|[_ Hempty]]; [done|]. by rewrite lookup_empty in Hempty.
  - by left.
Qed.

(** The list of two entries with one address, of which the second has
    not the tag: the wallet has the project of the second. *)
Lemma X16_witness :
  getAndParseProjectList RegistryScenario.address_NewFromString
    RegistryScenario.twoEntries = Some {["f1alice" := "projB"]} ∧
  (({["f1alice" := "projB"]} : gmap Address string) !! "f1alice" = Some "projB" ↔
   ∃ pre p post,
     RegistryScenario.twoEntries = pre ++ p :: post ∧
     RegistryScenario.address_NewFromString (pe_address p) = Some "f1alice" ∧
     isTagged p = false ∧
     pe_project p = "projB" ∧
     ∀ q, q ∈ post →
          RegistryScenario.address_NewFromString (pe_address q) = Some "f1alice" →
          isTagged q = true).
Proof.
  split; [by vm_compute|].
  apply (X16_project_list_last_entry_wins RegistryScenario.address_NewFromString
           RegistryScenario.twoEntries {["f1alice" := "projB"]}).
  by vm_compute.
Defined.

(** X17: [getAndParseRestore] fails exactly when an element of the
    payload does not decode to an address; otherwise the set it returns
    holds the addresses of the elements and nothing else, and it is the
    empty set, without an error, for the empty payload. *)
Theorem X17_restore_list
    (address_NewFromString : string → option Address)
    (payload : list string) :
  (getAndParseRestore address_NewFromString payload = None ↔
   ∃ s, s ∈ payload ∧ address_NewFromString s = None) ∧
  (∀ ret, getAndParseRestore address_NewFromString payload = Some ret →
          ∀ a, is_Some (ret !! a) ↔
               ∃ s, s ∈ payload ∧ address_NewFromString s = Some a) ∧
  getAndParseRestore address_NewFromString [] = Some ∅.
Proof.
  unfold getAndParseRestore. split; [|split; [|done]].
  - rewrite <- decodePayload_None.
    by destruct (decodePayload address_NewFromString payload).
  - intros ret.
    destruct (decodePayload address_NewFromString payload) as [l|] eqn:Hd; [|done].
    intros [= <-] a. rewrite restoreSet_lookup.
    apply decodePayload_Some in Hd. split.
    + intros Ha. apply list_elem_of_lookup in Ha as [i Hi].
      destruct (Forall2_lookup_r _ _ _ _ _ Hd Hi) as (s & Hs & Hsa).
      exists s. split; [|done]. by eapply list_elem_of_lookup_2.
    + intros (s & Hs & Hsa). apply list_elem_of_lookup in Hs as [i Hi].
      destruct (Forall2_lookup_l _ _ _ _ _ Hd Hi) as (a' & Ha' & Hsa').
      assert (a' = a) as -> by congruence. by eapply list_elem_of_lookup_2.
Qed.

(** X18: the totals of the competition are the sums over the statistics
    of the participants: the number of deals is the sum of their numbers
    of deals, and the bytes are the sum of their data sizes as an
    [int64]; no more deals are counted than the classification order
    has. *)
Theorem X18_totals_are_sums_over_participants {sorter : SliceSorter}
    (EpochsInDay : Z) (StateAccountKey : Address → option Address)
    (cid_Parse : string → option (string * string))
    (height currentPhaseStart : Z) (knownAddrMap : gmap Address string)
    (knownRestoreClients : gmap Address unit)
    (deals : gmap string MarketDeal) (order : list string) :
  let out := rollup EpochsInDay StateAccountKey cid_Parse height
               currentPhaseStart knownAddrMap knownRestoreClients deals order in
  TotalDeals (basic_stats out) = mapSum ps_NumDeals (client_stats out) ∧
  TotalBytes (basic_stats out) = wrap64 (mapSum ps_DataSize (client_stats out)) ∧
  0 <= TotalDeals (basic_stats out)
    <= Z.of_nat (length (orderedDealList height deals order)).
Proof.
  intros out.
  set (l := orderedDealList height deals order).
  set (st := processDeals EpochsInDay StateAccountKey cid_Parse currentPhaseStart
               knownAddrMap knownRestoreClients deals initialState l).
  set (counted := countedDeals EpochsInDay StateAccountKey cid_Parse
                    currentPhaseStart knownAddrMap deals l).
  pose proof (entriesInv_processDeals EpochsInDay StateAccountKey cid_Parse
    currentPhaseStart knownAddrMap knownRestoreClients deals l) as He.
  pose proof (listsInvH_history EpochsInDay StateAccountKey cid_Parse
    currentPhaseStart knownAddrMap knownRestoreClients deals l) as Hl.
  destruct (totalsInvH_history EpochsInDay StateAccountKey cid_Parse
    currentPhaseStart knownAddrMap knownRestoreClients deals l)
    as [Hn Hb _ _ _ _ _].
  fold st in He, Hl, Hn, Hb. fold counted in Hl, Hn, Hb.
  assert (Hall : mjoin (snd <$> map_to_list (projDealLists st)) ≡ₚ counted).
  { apply (mjoin_by_key id_ProjectID). intros k.
    by rewrite Hl, default_nonempty. }
  change (TotalDeals (basic_stats out)) with (TotalDeals (grandTotals st)).
  change (TotalBytes (basic_stats out)) with (TotalBytes (grandTotals st)).
  change (client_stats out) with (finalizeProject <$> projStats st).
  rewrite !mapSum_fmap.
  split; [|split].
  - rewrite Hn, <- Hall.
    rewrite (mapSum_by_key (ps_NumDeals ∘ finalizeProject) (λ _ : individualDeal, 1)
               eq ltac:(done) ltac:(by intros ???? -> ->)
               (projStats st) (projDealLists st)).
    + by rewrite sumZ_ones.
    + intros k. specialize (He k).
      destruct (projStats st !! k) as [e|]; [|done].
      destruct He as [_ Hk _ _ _ _ _ _ _ _]. simpl. by rewrite Hk, sumZ_ones.
  - rewrite Hb. apply wrap64_eq_mod. symmetry.
    rewrite <- (sumZ_Permutation _ _ (fmap_Permutation id_PaddedSize _ _ Hall)).
    apply (mapSum_by_key (ps_DataSize ∘ finalizeProject) id_PaddedSize
             (λ a b, a mod 2 ^ 64 = b mod 2 ^ 64) ltac:(done) eqm64_add
             (projStats st) (projDealLists st)).
    intros k. specialize (He k).
    destruct (projStats st !! k) as [e|]; [|done].
    destruct He as [_ _ Hk _ _ _ _ _ _ _]. simpl. rewrite Hk.
    apply wrap64_mod.
  - rewrite Hn. split; [lia|]. apply Nat2Z.inj_le.
    unfold counted, countedDeals.
    rewrite <- (length_fmap id_DealID), countedDeals_ids.
    apply sublist_length, countedFrom_sublist.
Qed.

(** X19: every entry of the recovery list is made of one live deal of
    the snapshot whose client resolves to a wallet of the recovery
    registry, with the sector start at or after the recovery start and
    a duration above 499 days of epochs: the entry has the wallet as
    its client address, the provider, the piece cid and the label of
    the proposal, the payload cid decoded from the label, the piece
    size of the proposal both as padded piece size and as data size,
    the start and end epochs of the proposal (not the sector start)
    and the recovery type 1. *)
Theorem X19_recovery_list_entries {sorter : SliceSorter}
    (laws : SliceSorterLaws sorter)
    (EpochsInDay : Z) (StateAccountKey : Address → option Address)
    (cid_Parse : string → option (string * string))
    (height currentPhaseStart : Z) (knownAddrMap : gmap Address string)
    (knownRestoreClients : gmap Address unit)
    (deals : gmap string MarketDeal) (order : list string)
    (r : recoveredDeal) :
  r ∈ recovery_deallist
        (rollup EpochsInDay StateAccountKey cid_Parse height
           currentPhaseStart knownAddrMap knownRestoreClients deals order) →
  ∃ d w,
    rd_DealID r ∈ order ∧
    deals !! rd_DealID r = Some d ∧
    notLive height d = false ∧
    StateAccountKey (Client (Proposal d)) = Some w ∧
    is_Some (knownRestoreClients !! w) ∧
    recoveryStart <= SectorStartEpoch (State d) ∧
    EpochsInDay * 499 < dealDuration d ∧
    r = {| rd_DealID := rd_DealID r;
           rd_ClientAddress := w;
           rd_MinerID := Provider (Proposal d);
           rd_PieceCID := PieceCID (Proposal d);
           rd_Label := Label (Proposal d);
           rd_PayloadCIDb32 :=
             match cid_Parse (Label (Proposal d)) with
             | Some cc => cc.2
             | None => "unknown"
             end;
           rd_PaddedPieceSize := PieceSize (Proposal d);
           rd_DataSize := PieceSize (Proposal d);
           rd_DealStartEpoch := StartEpoch (Proposal d);
           rd_DealEndEpoch := EndEpoch (Proposal d);
           rd_RecoveryType := 1 |}.
Proof.
  unfold rollup, finalState. simpl.
  rewrite recoveredDeals_processDeals by apply cacheOK_initial. simpl.
  rewrite list_elem_of_bind. intros (x & Hr & Hx).
  rewrite (orderedDealList_Permutation laws height deals order) in Hx.
  apply elem_of_liveIDs in Hx as [Hx Hlive].
  unfold recoveryOf in Hr.
  destruct (deals !! x) as [d|] eqn:Hd.
  2:{ unfold lookupDeal in Hlive. rewrite Hd in Hlive. discriminate. }
  unfold lookupDeal in Hr, Hlive. rewrite Hd in Hr, Hlive. simpl in Hr, Hlive.
  destruct (StateAccountKey (Client (Proposal d))) as [w|] eqn:Hw;
    [|by apply elem_of_nil in Hr].
  destruct (isRecover EpochsInDay knownRestoreClients w d) eqn:Hrec;
    [|by apply elem_of_nil in Hr].
  apply list_elem_of_singleton in Hr. subst r. simpl.
  unfold isRecover in Hrec.
  apply andb_prop in Hrec as [Hrec Hdur]. apply andb_prop in Hrec as [Hreg Hstart].
  apply bool_decide_eq_true in Hreg.
  apply Z.leb_le in Hstart. apply Z.ltb_lt in Hdur.
  exists d, w. repeat (split; [done|]).
  unfold mkRecoveredDeal, payloadCids. f_equal. by destruct (cid_Parse _).
Qed.

(** The deal of 500 days of a wallet of the recovery registry. *)
Lemma X19_witness :
  let out := rollup (sorter := go115_small) Scenario.EpochsInDay
               Scenario.StateAccountKey Scenario.cid_Parse Scenario.height
               defaultPhaseStart Scenario.knownAddrMap
               Scenario.knownRestoreClients RecoveryScenario.recoveryDeals
               ["11"] in
  ∃ r, recovery_deallist out = [r] ∧
  ∃ d w,
    rd_DealID r ∈ ["11"] ∧
    RecoveryScenario.recoveryDeals !! rd_DealID r = Some d ∧
    notLive Scenario.height d = false ∧
    Scenario.StateAccountKey (Client (Proposal d)) = Some w ∧
    is_Some (Scenario.knownRestoreClients !! w) ∧
    recoveryStart <= SectorStartEpoch (State d) ∧
    Scenario.EpochsInDay * 499 < dealDuration d ∧
    r = {| rd_DealID := rd_DealID r;
           rd_ClientAddress := w;
           rd_MinerID := Provider (Proposal d);
           rd_PieceCID := PieceCID (Proposal d);
           rd_Label := Label (Proposal d);
           rd_PayloadCIDb32 :=
             match Scenario.cid_Parse (Label (Proposal d)) with
             | Some cc => cc.2
             | None => "unknown"
             end;
           rd_PaddedPieceSize := PieceSize (Proposal d);
           rd_DataSize := PieceSize (Proposal d);
           rd_DealStartEpoch := StartEpoch (Proposal d);
           rd_DealEndEpoch := EndEpoch (Proposal d);
           rd_RecoveryType := 1 |}.
Proof.
  eexists. split; [by vm_compute|].
  apply (X19_recovery_list_entries go115_small_laws
           Scenario.EpochsInDay Scenario.StateAccountKey Scenario.cid_Parse
           Scenario.height defaultPhaseStart Scenario.knownAddrMap
           Scenario.knownRestoreClients RecoveryScenario.recoveryDeals ["11"]).
  vm_compute. left.
Defined.

(** ** A later phase start *)

Lemma sublist_filter_mono {A : Type} (P : A → Prop) `{∀ x, Decision (P x)}
    (l1 l2 : list A) :
  l1 `sublist_of` l2 → filter P l1 `sublist_of` filter P l2.
Proof.
  induction 1 as [|x l1 l2 _ IH|x l1 l2 _ IH]; [done| |].
  - rewrite !filter_cons. case_decide; [by apply sublist_skip|done].
  - rewrite filter_cons. case_decide; [by apply sublist_cons|done].
Qed.

Lemma sublist_omap_mono {A B : Type} (f : A → option B) (l1 l2 : list A) :
  l1 `sublist_of` l2 → omap f l1 `sublist_of` omap f l2.
Proof.
  induction 1 as [|x l1 l2 _ IH|x l1 l2 _ IH]; simpl; [done| |].
  - destruct (f x); [by apply sublist_skip|done].
  - destruct (f x); [by apply sublist_cons|done].
Qed.

Lemma distinct_Permutation {A : Type} (key : A → string) (l l' : list A) :
  l ≡ₚ l' → distinct key l = distinct key l'.
Proof.
  intros H. unfold distinct. do 2 f_equal.
  apply set_eq. intros k. rewrite !elem_of_list_to_set. by rewrite H.
Qed.

Lemma distinct_mono {A : Type} (key : A → string) (l l' : list A) :
  (∀ x, x ∈ l → x ∈ l') → distinct key l <= distinct key l'.
Proof.
  intros H. unfold distinct. apply Nat2Z.inj_le, subseteq_size.
  intros k. rewrite !elem_of_list_to_set, !list_elem_of_fmap.
  intros (x & -> & Hx). exists x. split; [done|]. by apply H.
Qed.

Section PhaseStart.

Variable EpochsInDay : Z.
Variable StateAccountKey : Address → option Address.
Variable cid_Parse : string → option (string * string).
Variable knownAddrMap : gmap Address string.
Variable deals : gmap string MarketDeal.
Variables phase1 phase2 : Z.
Hypothesis Hphase : phase1 <= phase2.

Lemma pastGates_mono x :
  pastGates EpochsInDay phase2 deals x = true →
  pastGates EpochsInDay phase1 deals x = true.
Proof.
  unfold pastGates. simpl. rewrite !andb_true_iff, !Z.leb_le. lia.
Qed.

Lemma countedAfter_mono pre x :
  countedAfter EpochsInDay StateAccountKey phase2 knownAddrMap deals pre x = true →
  countedAfter EpochsInDay StateAccountKey phase1 knownAddrMap deals pre x = true.
Proof.
  unfold countedAfter.
  destruct (matchOf StateAccountKey knownAddrMap deals x) as [[w p]|]; [|done].
  rewrite !andb_true_iff. intros [Hg Ht]. split; [|done]. by apply pastGates_mono.
Qed.

Lemma countedFrom_mono pre l :
  countedFrom EpochsInDay StateAccountKey phase2 knownAddrMap deals pre l
  `sublist_of`
  countedFrom EpochsInDay StateAccountKey phase1 knownAddrMap deals pre l.
Proof.
  revert pre. induction l as [|x l IH]; intros pre; simpl; [done|].
  destruct (countedAfter _ _ phase2 _ _ pre x) eqn:E2.
  - rewrite (countedAfter_mono pre x E2). simpl. apply sublist_skip, IH.
  - simpl. apply sublist_inserts_l, IH.
Qed.

Lemma countedDeals_mono l :
  countedDeals EpochsInDay StateAccountKey cid_Parse phase2 knownAddrMap deals l
  `sublist_of`
  countedDeals EpochsInDay StateAccountKey cid_Parse phase1 knownAddrMap deals l.
Proof. unfold countedDeals. apply sublist_omap_mono, countedFrom_mono. Qed.

Lemma markedProjects_mono l p :
  p ∈ markedProjects EpochsInDay StateAccountKey phase2 knownAddrMap deals l →
  p ∈ markedProjects EpochsInDay StateAccountKey phase1 knownAddrMap deals l.
Proof.
  unfold markedProjects. rewrite !list_elem_of_omap.
  intros (y & Hy & Hp). exists y. split; [done|].
  destruct (pastGates _ phase2 _ y) eqn:E; [|done].
  by rewrite (pastGates_mono y E).
Qed.

End PhaseStart.

(** X20: moving the phase start later never adds a deal. Of two runs on
    the same snapshot that differ in the phase start only, the one with
    the later phase start has, for every participant, a deal list whose
    entries are entries of the other run's list, and no more deals in
    the participant's statistics; its total deals, Filecoin Plus deals
    and unique projects, clients, providers and piece cids are at most
    those of the other run; and the two runs have statistics for the
    same participants. *)
Theorem X20_later_phase_start_counts_fewer {sorter : SliceSorter}
    (laws : SliceSorterLaws sorter)
    (EpochsInDay : Z) (StateAccountKey : Address → option Address)
    (cid_Parse : string → option (string * string))
    (height phase1 phase2 : Z) (knownAddrMap : gmap Address string)
    (knownRestoreClients : gmap Address unit)
    (deals : gmap string MarketDeal) (order : list string) :
  phase1 <= phase2 →
  let out1 := rollup EpochsInDay StateAccountKey cid_Parse height
                phase1 knownAddrMap knownRestoreClients deals order in
  let out2 := rollup EpochsInDay StateAccountKey cid_Parse height
                phase2 knownAddrMap knownRestoreClients deals order in
  (∀ p e, e ∈ default [] (deals_list out2 !! p) →
          e ∈ default [] (deals_list out1 !! p)) ∧
  (∀ p, is_Some (client_stats out2 !! p) ↔ is_Some (client_stats out1 !! p)) ∧
  (∀ p ps1 ps2,
     client_stats out1 !! p = Some ps1 → client_stats out2 !! p = Some ps2 →
     ps_NumDeals ps2 <= ps_NumDeals ps1) ∧
  TotalDeals (basic_stats out2) <= TotalDeals (basic_stats out1) ∧
  FilplusTotalDeals (basic_stats out2) <= FilplusTotalDeals (basic_stats out1) ∧
  UniqueProjects (basic_stats out2) <= UniqueProjects (basic_stats out1) ∧
  UniqueClients (basic_stats out2) <= UniqueClients (basic_stats out1) ∧
  UniqueProviders (basic_stats out2) <= UniqueProviders (basic_stats out1) ∧
  UniqueCids (basic_stats out2) <= UniqueCids (basic_stats out1).
Proof.
  intros Hphase out1 out2.
  set (l := orderedDealList height deals order).
  set (counted1 := countedDeals EpochsInDay StateAccountKey cid_Parse phase1
                     knownAddrMap deals l).
  set (counted2 := countedDeals EpochsInDay StateAccountKey cid_Parse phase2
                     knownAddrMap deals l).
  assert (Hsub : counted2 `sublist_of` counted1)
    by (by apply countedDeals_mono).
  assert (Hin : ∀ e, e ∈ counted2 → e ∈ counted1).
  { intros e. by apply sublist_subseteq. }
  pose proof (allListed_counted laws EpochsInDay StateAccountKey cid_Parse
    height phase1 knownAddrMap knownRestoreClients deals order) as Hall1.
  pose proof (allListed_counted laws EpochsInDay StateAccountKey cid_Parse
    height phase2 knownAddrMap knownRestoreClients deals order) as Hall2.
  fold out1 l counted1 in Hall1. fold out2 l counted2 in Hall2.
  pose proof (deals_list_counted laws EpochsInDay StateAccountKey cid_Parse
    height phase1 knownAddrMap knownRestoreClients deals order) as Hdl1.
  pose proof (deals_list_counted laws EpochsInDay StateAccountKey cid_Parse
    height phase2 knownAddrMap knownRestoreClients deals order) as Hdl2.
  fold out1 l counted1 in Hdl1. fold out2 l counted2 in Hdl2.
  destruct (basic_stats_totals laws EpochsInDay StateAccountKey cid_Parse height
    phase1 knownAddrMap knownRestoreClients deals order)
    as [Hn1 _ Hf1 _ Hc1 Hp1 Hcid1].
  destruct (basic_stats_totals laws EpochsInDay StateAccountKey cid_Parse height
    phase2 knownAddrMap knownRestoreClients deals order)
    as [Hn2 _ Hf2 _ Hc2 Hp2 Hcid2].
  fold out1 in Hn1, Hf1, Hc1, Hp1, Hcid1. fold out2 in Hn2, Hf2, Hc2, Hp2, Hcid2.
  destruct (projectsInvH_history EpochsInDay StateAccountKey cid_Parse
    phase1 knownAddrMap knownRestoreClients deals l) as [HD1 HS1].
  destruct (projectsInvH_history EpochsInDay StateAccountKey cid_Parse
    phase2 knownAddrMap knownRestoreClients deals l) as [HD2 HS2].
  set (st1 := finalState EpochsInDay StateAccountKey cid_Parse height phase1
                knownAddrMap knownRestoreClients deals order) in *.
  set (st2 := finalState EpochsInDay StateAccountKey cid_Parse height phase2
                knownAddrMap knownRestoreClients deals order) in *.
  assert (Hstats : ∀ p,
    is_Some (client_stats out2 !! p) ↔ is_Some (client_stats out1 !! p)).
  { intros p.
    assert (H1 : is_Some (client_stats out1 !! p)
                 ↔ p ∈ matchedProjects StateAccountKey knownAddrMap deals l).
    { rewrite <- HD1. unfold out1, rollup. simpl.
      by rewrite lookup_fmap, fmap_is_Some. }
    assert (H2 : is_Some (client_stats out2 !! p)
                 ↔ p ∈ matchedProjects StateAccountKey knownAddrMap deals l).
    { rewrite <- HD2. unfold out2, rollup. simpl.
      by rewrite lookup_fmap, fmap_is_Some. }
    by rewrite H1, H2. }
  split.
  { intros p e. rewrite Hdl1, Hdl2, !list_elem_of_filter.
    intros [? ?]. split; [done|]. by apply Hin. }
  split; [exact Hstats|]. split.
  { intros p ps1 ps2 H1 H2.
    apply (client_stats_entry laws) in H1 as (e1 & _ & -> & [_ Hnum1 _ _ _ _ _ _ _ _]).
    apply (client_stats_entry laws) in H2 as (e2 & _ & -> & [_ Hnum2 _ _ _ _ _ _ _ _]).
    fold out1 in Hnum1. fold out2 in Hnum2.
    change (ps_NumDeals (finalizeProject e1)) with (ps_NumDeals e1).
    change (ps_NumDeals (finalizeProject e2)) with (ps_NumDeals e2).
    rewrite Hnum1, Hnum2, Hdl1, Hdl2.
    apply Nat2Z.inj_le, sublist_length. by apply sublist_filter_mono. }
  split.
  { change (TotalDeals (basic_stats out1)) with (TotalDeals (grandTotals st1)).
    change (TotalDeals (basic_stats out2)) with (TotalDeals (grandTotals st2)).
    rewrite Hn1, Hn2, Hall1, Hall2. by apply Nat2Z.inj_le, sublist_length. }
  split.
  { change (FilplusTotalDeals (basic_stats out1))
      with (FilplusTotalDeals (grandTotals st1)).
    change (FilplusTotalDeals (basic_stats out2))
      with (FilplusTotalDeals (grandTotals st2)).
    rewrite Hf1, Hf2, Hall1, Hall2.
    apply Nat2Z.inj_le, sublist_length. by apply sublist_filter_mono. }
  split.
  { change (UniqueProjects (basic_stats out1))
      with (len (seenProject (grandTotals st1))).
    change (UniqueProjects (basic_stats out2))
      with (len (seenProject (grandTotals st2))).
    rewrite (size_by_key id (seenProject (grandTotals st1))
               (markedProjects EpochsInDay StateAccountKey phase1 knownAddrMap deals l)),
            (size_by_key id (seenProject (grandTotals st2))
               (markedProjects EpochsInDay StateAccountKey phase2 knownAddrMap deals l)).
    - apply distinct_mono. intros p. by apply markedProjects_mono.
    - intros p. unfold st2, finalState. fold l. rewrite HS2. apply keysOf_is_Some.
    - intros p. unfold st1, finalState. fold l. rewrite HS1. apply keysOf_is_Some. }
  split; [|split].
  - change (UniqueClients (basic_stats out1))
      with (len (seenClient (grandTotals st1))).
    change (UniqueClients (basic_stats out2))
      with (len (seenClient (grandTotals st2))).
    rewrite (size_by_key id_Client (seenClient (grandTotals st1))
               (allListed (deals_list out1))),
            (size_by_key id_Client (seenClient (grandTotals st2))
               (allListed (deals_list out2))).
    + rewrite (distinct_Permutation _ _ _ Hall1), (distinct_Permutation _ _ _ Hall2).
      apply distinct_mono, Hin.
    + intros k. rewrite Hc2. apply keysOf_is_Some.
    + intros k. rewrite Hc1. apply keysOf_is_Some.
  - change (UniqueProviders (basic_stats out1))
      with (len (seenProvider (grandTotals st1))).
    change (UniqueProviders (basic_stats out2))
      with (len (seenProvider (grandTotals st2))).
    rewrite (size_by_key id_MinerID (seenProvider (grandTotals st1))
               (allListed (deals_list out1))),
            (size_by_key id_MinerID (seenProvider (grandTotals st2))
               (allListed (deals_list out2))).
    + rewrite (distinct_Permutation _ _ _ Hall1), (distinct_Permutation _ _ _ Hall2).
      apply distinct_mono, Hin.
    + intros k. rewrite Hp2. apply keysOf_is_Some.
    + intros k. rewrite Hp1. apply keysOf_is_Some.
  - change (UniqueCids (basic_stats out1))
      with (len (seenPieceCid (grandTotals st1))).
    change (UniqueCids (basic_stats out2))
      with (len (seenPieceCid (grandTotals st2))).
    rewrite (size_by_key (pieceOf deals) (seenPieceCid (grandTotals st1))
               (allListed (deals_list out1))),
            (size_by_key (pieceOf deals) (seenPieceCid (grandTotals st2))
               (allListed (deals_list out2))).
    + rewrite (distinct_Permutation _ _ _ Hall1), (distinct_Permutation _ _ _ Hall2).
      apply distinct_mono, Hin.
    + intros k. rewrite Hcid2. apply keysOf_is_Some.
    + intros k. rewrite Hcid1. apply keysOf_is_Some.
Qed.

(** The phase start moved from the default to the sector start of the
    third deal: the first two deals are no longer counted. *)
Lemma X20_witness :
  let out1 := rollup (sorter := go115_small) Scenario.EpochsInDay
                Scenario.StateAccountKey Scenario.cid_Parse Scenario.height
                defaultPhaseStart StatsScenario.statsAddrMap
                Scenario.knownRestoreClients StatsScenario.statsDeals
                StatsScenario.statsOrder in
  let out2 := rollup (sorter := go115_small) Scenario.EpochsInDay
                Scenario.StateAccountKey Scenario.cid_Parse Scenario.height
                1700003 StatsScenario.statsAddrMap
                Scenario.knownRestoreClients StatsScenario.statsDeals
                StatsScenario.statsOrder in
  (TotalDeals (basic_stats out1) = 4 ∧ TotalDeals (basic_stats out2) = 2) ∧
  (∀ p e, e ∈ default [] (deals_list out2 !! p) →
          e ∈ default [] (deals_list out1 !! p)) ∧
  (∀ p, is_Some (client_stats out2 !! p) ↔ is_Some (client_stats out1 !! p)) ∧
  (∀ p ps1 ps2,
     client_stats out1 !! p = Some ps1 → client_stats out2 !! p = Some ps2 →
     ps_NumDeals ps2 <= ps_NumDeals ps1) ∧
  TotalDeals (basic_stats out2) <= TotalDeals (basic_stats out1) ∧
  FilplusTotalDeals (basic_stats out2) <= FilplusTotalDeals (basic_stats out1) ∧
  UniqueProjects (basic_stats out2) <= UniqueProjects (basic_stats out1) ∧
  UniqueClients (basic_stats out2) <= UniqueClients (basic_stats out1) ∧
  UniqueProviders (basic_stats out2) <= UniqueProviders (basic_stats out1) ∧
  UniqueCids (basic_stats out2) <= UniqueCids (basic_stats out1).
Proof.
  split; [by vm_compute|].
  apply (X20_later_phase_start_counts_fewer go115_small_laws
           Scenario.EpochsInDay Scenario.StateAccountKey Scenario.cid_Parse
           Scenario.height defaultPhaseStart 1700003 StatsScenario.statsAddrMap
           Scenario.knownRestoreClients StatsScenario.statsDeals
           StatsScenario.statsOrder).
  by vm_compute.
Defined.

(** ** One participant among the others *)

Section Isolation.

Variable EpochsInDay : Z.
Variable StateAccountKey : Address → option Address.
Variable cid_Parse : string → option (string * string).
Variable currentPhaseStart : Z.
Variable knownRestoreClients : gmap Address unit.
Variable deals : gmap string MarketDeal.
Variable P : string.

(** An iteration for a wallet that is not of the participant [P] leaves
    the statistics and the deal list of [P] as they are. *)
Lemma processResolved_other knownAddrMap st dealID w pc pc32 d :
  knownAddrMap !! w ≠ Some P →
  let st' := processResolved EpochsInDay currentPhaseStart knownAddrMap
               knownRestoreClients st dealID w pc pc32 d in
  projStats st' !! P = projStats st !! P ∧
  projDealLists st' !! P = projDealLists st !! P.
Proof.
  intros Hk st'. subst st'.
  destruct (processResolved_effect EpochsInDay currentPhaseStart knownAddrMap
    knownRestoreClients st dealID w pc pc32 d)
    as [(_ & -> & -> & _)|(projID & _ & Hp & H)]; [done|].
  assert (projID ≠ P) as Hne by congruence.
  destruct H as [(_ & -> & -> & _)|[(_ & _ & _ & -> & -> & _)|(_ & _ & _ & -> & -> & _)]];
    by rewrite ?lookup_insert_ne.
Qed.

Variables knownAddrMap1 knownAddrMap2 : gmap Address string.
Hypothesis Hagree : ∀ w, knownAddrMap1 !! w = Some P ↔ knownAddrMap2 !! w = Some P.

Lemma processResolved_isolated st1 st2 dealID w pc pc32 d :
  projStats st1 !! P = projStats st2 !! P →
  projDealLists st1 !! P = projDealLists st2 !! P →
  let r1 := processResolved EpochsInDay currentPhaseStart knownAddrMap1
              knownRestoreClients st1 dealID w pc pc32 d in
  let r2 := processResolved EpochsInDay currentPhaseStart knownAddrMap2
              knownRestoreClients st2 dealID w pc pc32 d in
  projStats r1 !! P = projStats r2 !! P ∧
  projDealLists r1 !! P = projDealLists r2 !! P.
Proof.
  intros Hps Hdl r1 r2. subst r1 r2.
  destruct (decide (knownAddrMap1 !! w = Some P)) as [H1|H1].
  2:{ assert (H2 : knownAddrMap2 !! w ≠ Some P) by (by rewrite <- Hagree).
      destruct (processResolved_other knownAddrMap1 st1 dealID w pc pc32 d H1)
        as [-> ->].
      destruct (processResolved_other knownAddrMap2 st2 dealID w pc pc32 d H2)
        as [-> ->].
      done. }
  assert (H2 : knownAddrMap2 !! w = Some P) by (by apply Hagree).
  assert (He : entryOf st1 P = entryOf st2 P) by (unfold entryOf; by rewrite Hps).
  assert (Ht : ∀ c, allTimeTally st1 P c = allTimeTally st2 P c)
    by (intros c; unfold allTimeTally; by rewrite Hps).
  destruct (processResolved_effect EpochsInDay currentPhaseStart knownAddrMap1
    knownRestoreClients st1 dealID w pc pc32 d)
    as [([Hw1|Hn1] & E1 & E1' & _)|(p1 & Hw1 & Hp1 & F1)];
  destruct (processResolved_effect EpochsInDay currentPhaseStart knownAddrMap2
    knownRestoreClients st2 dealID w pc pc32 d)
    as [([Hw2|Hn2] & E2 & E2' & _)|(p2 & Hw2 & Hp2 & F2)];
    try congruence.
  { by rewrite E1, E1', E2, E2'. }
  assert (p1 = P) as -> by congruence. assert (p2 = P) as -> by congruence.
  simpl in F1, F2.
  rewrite He, Ht in F1.
  destruct F1 as [([?|?] & -> & -> & _)|[(? & ? & ? & -> & -> & _)|(? & ? & ? & -> & -> & _)]];
  destruct F2 as [([?|?] & -> & -> & _)|[(? & ? & ? & -> & -> & _)|(? & ? & ? & -> & -> & _)]];
    try lia; by rewrite ?lookup_insert_eq, ?Hdl.
Qed.

Lemma processDeals_isolated l st1 st2 :
  resolvedWallets st1 = resolvedWallets st2 →
  projStats st1 !! P = projStats st2 !! P →
  projDealLists st1 !! P = projDealLists st2 !! P →
  let r1 := processDeals EpochsInDay StateAccountKey cid_Parse currentPhaseStart
              knownAddrMap1 knownRestoreClients deals st1 l in
  let r2 := processDeals EpochsInDay StateAccountKey cid_Parse currentPhaseStart
              knownAddrMap2 knownRestoreClients deals st2 l in
  projStats r1 !! P = projStats r2 !! P ∧
  projDealLists r1 !! P = projDealLists r2 !! P.
Proof.
  revert st1 st2. induction l as [|x l IH]; intros st1 st2 Hrw Hps Hdl; simpl.
  { done. }
  set (d := lookupDeal deals x).
  assert (Hstep :
    let s1 := processDeal EpochsInDay StateAccountKey cid_Parse currentPhaseStart
                knownAddrMap1 knownRestoreClients deals st1 x in
    let s2 := processDeal EpochsInDay StateAccountKey cid_Parse currentPhaseStart
                knownAddrMap2 knownRestoreClients deals st2 x in
    resolvedWallets s1 = resolvedWallets s2 ∧
    projStats s1 !! P = projStats s2 !! P ∧
    projDealLists s1 !! P = projDealLists s2 !! P).
  { unfold processDeal. fold d.
    destruct (payloadCids cid_Parse d) as [pc pc'].
    unfold resolveClient. rewrite Hrw.
    destruct (resolvedWallets st2 !! Client (Proposal d)) as [a|].
    - rewrite !processResolved_resolvedWallets.
      split; [done|].
      exact (processResolved_isolated st1 st2 x a pc pc' d Hps Hdl).
    - destruct (StateAccountKey (Client (Proposal d))) as [a|]; [|done].
      rewrite !processResolved_resolvedWallets. simpl.
      split; [done|].
      exact (processResolved_isolated
               (withResolvedWallets st1 _) (withResolvedWallets st2 _)
               x a pc pc' d Hps Hdl). }
  destruct Hstep as (Hrw' & Hps' & Hdl').
  exact (IH _ _ Hrw' Hps' Hdl').
Qed.

End Isolation.

(** X21: the statistics and the deal list of a participant depend on the
    wallets of this participant only. Two runs on the same snapshot with
    two participant registries that give the same wallets to a
    participant have the same statistics and the same deal list for it,
    whatever the two registries say of the other wallets. *)
Theorem X21_participant_isolated {sorter : SliceSorter}
    (EpochsInDay : Z) (StateAccountKey : Address → option Address)
    (cid_Parse : string → option (string * string))
    (height currentPhaseStart : Z)
    (knownAddrMap1 knownAddrMap2 : gmap Address string)
    (knownRestoreClients : gmap Address unit)
    (deals : gmap string MarketDeal) (order : list string)
    (projID : string) :
  (∀ w, knownAddrMap1 !! w = Some projID ↔ knownAddrMap2 !! w = Some projID) →
  let out1 := rollup EpochsInDay StateAccountKey cid_Parse height
                currentPhaseStart knownAddrMap1 knownRestoreClients deals order in
  let out2 := rollup EpochsInDay StateAccountKey cid_Parse height
                currentPhaseStart knownAddrMap2 knownRestoreClients deals order in
  client_stats out1 !! projID = client_stats out2 !! projID ∧
  deals_list out1 !! projID = deals_list out2 !! projID.
Proof.
  intros Hagree out1 out2.
  destruct (processDeals_isolated EpochsInDay StateAccountKey cid_Parse
    currentPhaseStart knownRestoreClients deals projID knownAddrMap1 knownAddrMap2
    Hagree (orderedDealList height deals order) initialState initialState)
    as [Hps Hdl]; [done..|].
  unfold out1, out2, rollup, finalState. simpl.
  rewrite !lookup_fmap, Hps, Hdl. done.
Qed.

(** The registry of the two participants and a registry in which the
    wallet of the second one is gone. *)
Lemma X21_witness :
  let out1 := rollup (sorter := go115_small) Scenario.EpochsInDay
                Scenario.StateAccountKey Scenario.cid_Parse Scenario.height
                defaultPhaseStart StatsScenario.statsAddrMap
                Scenario.knownRestoreClients StatsScenario.statsDeals
                StatsScenario.statsOrder in
  let out2 := rollup (sorter := go115_small) Scenario.EpochsInDay
                Scenario.StateAccountKey Scenario.cid_Parse Scenario.height
                defaultPhaseStart {["f1alice" := "projA"]}
                Scenario.knownRestoreClients StatsScenario.statsDeals
                StatsScenario.statsOrder in
  (deals_list out1 !! "projB" ≠ None ∧ deals_list out2 !! "projB" = None) ∧
  client_stats out1 !! "projA" = client_stats out2 !! "projA" ∧
  deals_list out1 !! "projA" = deals_list out2 !! "projA".
Proof.
  split; [split; [by vm_compute|by vm_compute]|].
  apply (X21_participant_isolated (sorter := go115_small)
           Scenario.EpochsInDay Scenario.StateAccountKey Scenario.cid_Parse
           Scenario.height defaultPhaseStart StatsScenario.statsAddrMap
           {["f1alice" := "projA"]}
           Scenario.knownRestoreClients StatsScenario.statsDeals
           StatsScenario.statsOrder "projA").
  intros w. unfold StatsScenario.statsAddrMap.
  destruct (decide (w = "f1alice")) as [->|Hw].
  - by vm_compute.
  - rewrite lookup_insert_ne, (lookup_singleton_ne "f1alice") by done.
    destruct (decide (w = "f1bob")) as [->|Hb].
    + by vm_compute.
    + by rewrite lookup_singleton_ne.
Defined.

(** ** The wallets of a participant *)

Lemma filter_key_notin {A : Type} (key : A → string) (l : list A) (k : string) :
  k ∉ key <$> l → filter (λ x, key x = k) l = [].
Proof.
  induction l as [|x l IH]; [done|].
  rewrite fmap_cons, not_elem_of_cons. intros [Hx Hl].
  rewrite filter_cons, decide_False by done. by apply IH.
Qed.

(** X22: the statistics of a participant are the sums over its wallets:
    its number of deals is the sum of the numbers of deals of the
    wallets of its statistics, and its data size is the sum of their
    data sizes as an [int64]. Every wallet of its statistics carries
    its own address, is a wallet that the registry gives to this
    participant, and has a deal counted. *)
Theorem X22_participant_is_sum_of_wallets {sorter : SliceSorter}
    (EpochsInDay : Z) (StateAccountKey : Address → option Address)
    (cid_Parse : string → option (string * string))
    (height currentPhaseStart : Z) (knownAddrMap : gmap Address string)
    (knownRestoreClients : gmap Address unit)
    (deals : gmap string MarketDeal) (order : list string)
    (projID : string) (ps : projectAggregateStats) :
  client_stats (rollup EpochsInDay StateAccountKey cid_Parse height
                  currentPhaseStart knownAddrMap knownRestoreClients deals order)
    !! projID = Some ps →
  ps_NumDeals ps = mapSum cs_NumDeals (ps_ClientStats ps) ∧
  ps_DataSize ps = wrap64 (mapSum cs_DataSize (ps_ClientStats ps)) ∧
  ∀ w cs, ps_ClientStats ps !! w = Some cs →
          cs_Client cs = w ∧ knownAddrMap !! w = Some projID ∧
          0 < cs_NumDeals cs.
Proof.
  set (l := orderedDealList height deals order).
  set (st := processDeals EpochsInDay StateAccountKey cid_Parse currentPhaseStart
               knownAddrMap knownRestoreClients deals initialState l).
  set (counted := countedDeals EpochsInDay StateAccountKey cid_Parse
                    currentPhaseStart knownAddrMap deals l).
  change (client_stats (rollup EpochsInDay StateAccountKey cid_Parse height
            currentPhaseStart knownAddrMap knownRestoreClients deals order))
    with (finalizeProject <$> projStats st).
  rewrite lookup_fmap. intros Hps.
  destruct (projStats st !! projID) as [e|] eqn:He; [|done].
  injection Hps as <-.
  pose proof (entriesInv_processDeals EpochsInDay StateAccountKey cid_Parse
    currentPhaseStart knownAddrMap knownRestoreClients deals l projID) as Hinv.
  pose proof (listsInvH_history EpochsInDay StateAccountKey cid_Parse
    currentPhaseStart knownAddrMap knownRestoreClients deals l projID) as Hl.
  fold st in Hinv, Hl. fold counted in Hl. rewrite He in Hinv.
  rewrite Hl, default_nonempty in Hinv.
  set (dl := filter (λ x, id_ProjectID x = projID) counted) in *.
  destruct Hinv as [_ Hn Hd _ _ Hcs _ _ _ _].
  set (m := ps_ClientStats e) in *.
  set (g := map_imap (λ w (_ : clientAggregateStats),
                        Some (filter (λ x, id_Client x = w) dl)) m).
  assert (Hg : ∀ k, g !! k = (λ _, filter (λ x, id_Client x = k) dl) <$> m !! k).
  { intros k. unfold g. rewrite map_lookup_imap. by destruct (m !! k). }
  assert (Hall : mjoin (snd <$> map_to_list g) ≡ₚ dl).
  { apply (mjoin_by_key id_Client). intros k. rewrite Hg.
    specialize (Hcs k). destruct (m !! k) as [cs|]; simpl; [done|].
    by rewrite filter_key_notin. }
  change (ps_NumDeals (finalizeProject e)) with (ps_NumDeals e).
  change (ps_DataSize (finalizeProject e)) with (ps_DataSize e).
  change (ps_ClientStats (finalizeProject e)) with (finalizeClient <$> m).
  rewrite !mapSum_fmap.
  split; [|split].
  - rewrite Hn, <- sumZ_ones, <- (sumZ_Permutation _ _ (fmap_Permutation _ _ _ Hall)).
    symmetry.
    apply (mapSum_by_key (cs_NumDeals ∘ finalizeClient) (λ _ : individualDeal, 1)
             eq ltac:(done) ltac:(by intros ???? -> ->) m g).
    intros k. rewrite Hg. specialize (Hcs k).
    destruct (m !! k) as [cs|]; simpl; [|done].
    destruct Hcs as [_ [_ Hk _ _ _ _ _]]. by rewrite Hk, sumZ_ones.
  - rewrite Hd. apply wrap64_eq_mod. symmetry.
    rewrite <- (sumZ_Permutation _ _ (fmap_Permutation id_PaddedSize _ _ Hall)).
    apply (mapSum_by_key (cs_DataSize ∘ finalizeClient) id_PaddedSize
             (λ a b, a mod 2 ^ 64 = b mod 2 ^ 64) ltac:(done) eqm64_add m g).
    intros k. rewrite Hg. specialize (Hcs k).
    destruct (m !! k) as [cs|]; simpl; [|done].
    destruct Hcs as [_ [_ _ Hk _ _ _ _]]. rewrite Hk. apply wrap64_mod.
  - intros w cs. rewrite lookup_fmap. specialize (Hcs w).
    destruct (m !! w) as [cs0|]; [|done]. intros [= <-].
    destruct Hcs as [Hw [Hc Hk _ _ _ _ _]].
    apply list_elem_of_fmap in Hw as (x & Hxw & Hx).
    assert (Hxf : x ∈ filter (λ y, id_Client y = w) dl).
    { by apply list_elem_of_filter. }
    apply list_elem_of_filter in Hx as [Hxp Hx].
    apply elem_of_countedDeals in Hx as (_ & _ & w' & p' & Hm & Hxe).
    split; [exact Hc|]. split.
    + assert (w' = w) as -> by (rewrite Hxw, Hxe; done).
      assert (p' = projID) as -> by (rewrite <- Hxp, Hxe; done).
      unfold matchOf in Hm. repeat case_match; congruence.
    + change (cs_NumDeals (finalizeClient cs0)) with (cs_NumDeals cs0).
      rewrite Hk. destruct (filter _ dl); [by apply elem_of_nil in Hxf|].
      simpl. lia.
Qed.

Lemma X22_witness :
  (ps_NumDeals statsA = 3 ∧ ps_DataSize statsA = 4294967296) ∧
  ps_NumDeals statsA = mapSum cs_NumDeals (ps_ClientStats statsA) ∧
  ps_DataSize statsA = wrap64 (mapSum cs_DataSize (ps_ClientStats statsA)) ∧
  ∀ w cs, ps_ClientStats statsA !! w = Some cs →
          cs_Client cs = w ∧ StatsScenario.statsAddrMap !! w = Some "projA" ∧
          0 < cs_NumDeals cs.
Proof.
  split; [by vm_compute|].
  apply (X22_participant_is_sum_of_wallets (sorter := go115_small)
           Scenario.EpochsInDay Scenario.StateAccountKey Scenario.cid_Parse
           Scenario.height defaultPhaseStart StatsScenario.statsAddrMap
           Scenario.knownRestoreClients StatsScenario.statsDeals
           StatsScenario.statsOrder "projA" statsA).
  by vm_compute.
Defined.

(** ** Sizes that do not overflow *)

Lemma sumZ_nonneg (l : list Z) : Forall (λ z, 0 <= z) l → 0 <= sumZ l.
Proof. unfold sumZ. induction 1; simpl; lia. Qed.

Lemma sumZ_sublist_le (l1 l2 : list Z) :
  Forall (λ z, 0 <= z) l2 → l1 `sublist_of` l2 → sumZ l1 <= sumZ l2.
Proof.
  intros Hpos Hsub. unfold sumZ.
  induction Hsub as [|x l1 l2 _ IH|x l1 l2 _ IH]; simpl; [done| |].
  - apply Forall_cons in Hpos as [_ Hpos]. specialize (IH Hpos). lia.
  - apply Forall_cons in Hpos as [Hx Hpos]. specialize (IH Hpos). lia.
Qed.

Lemma sumZ_elem_le (l : list Z) (z : Z) :
  Forall (λ z, 0 <= z) l → z ∈ l → z <= sumZ l.
Proof.
  intros Hpos Hz. unfold sumZ.
  induction Hpos as [|x l Hx Hpos IH]; [by apply elem_of_nil in Hz|].
  simpl. pose proof (sumZ_nonneg l Hpos) as Hl. unfold sumZ in Hl.
  apply elem_of_cons in Hz as [->|Hz]; [lia|]. specialize (IH Hz). lia.
Qed.

(** X23: sizes that do not overflow. When the piece sizes of the deals
    of the classification order are not negative and add up to less
    than 2^63, the total bytes are the sum of the data sizes of the
    participants, without a wrap-around; the Filecoin Plus bytes are at
    most the total bytes, which are at most the sum of the piece sizes
    of the classification order; and for every participant the largest
    data size stored with one provider is at most its data size, which
    is at most the total bytes. *)
Theorem X23_sizes_without_overflow {sorter : SliceSorter}
    (EpochsInDay : Z) (StateAccountKey : Address → option Address)
    (cid_Parse : string → option (string * string))
    (height currentPhaseStart : Z) (knownAddrMap : gmap Address string)
    (knownRestoreClients : gmap Address unit)
    (deals : gmap string MarketDeal) (order : list string) :
  let l := orderedDealList height deals order in
  let sizeOf x := PieceSize (Proposal (lookupDeal deals x)) in
  (∀ x, x ∈ l → 0 <= sizeOf x) →
  sumZ (sizeOf <$> l) < 2 ^ 63 →
  let out := rollup EpochsInDay StateAccountKey cid_Parse height
               currentPhaseStart knownAddrMap knownRestoreClients deals order in
  TotalBytes (basic_stats out) = mapSum ps_DataSize (client_stats out) ∧
  0 <= FilplusTotalBytes (basic_stats out) <= TotalBytes (basic_stats out) ∧
  TotalBytes (basic_stats out) <= sumZ (sizeOf <$> l) ∧
  ∀ p ps, client_stats out !! p = Some ps →
          0 <= ps_DataSizeMaxProvider ps <= ps_DataSize ps ∧
          ps_DataSize ps <= TotalBytes (basic_stats out).
Proof.
  intros l sizeOf Hpos Hsum out.
  set (st := processDeals EpochsInDay StateAccountKey cid_Parse currentPhaseStart
               knownAddrMap knownRestoreClients deals initialState l).
  set (counted := countedDeals EpochsInDay StateAccountKey cid_Parse
                    currentPhaseStart knownAddrMap deals l).
  pose proof (entriesInv_processDeals EpochsInDay StateAccountKey cid_Parse
    currentPhaseStart knownAddrMap knownRestoreClients deals l) as He.
  pose proof (listsInvH_history EpochsInDay StateAccountKey cid_Parse
    currentPhaseStart knownAddrMap knownRestoreClients deals l) as Hl.
  destruct (totalsInvH_history EpochsInDay StateAccountKey cid_Parse
    currentPhaseStart knownAddrMap knownRestoreClients deals l)
    as [_ Hb _ Hfb _ _ _].
  fold st in He, Hl, Hb, Hfb. fold counted in Hl, Hb, Hfb.
  (* the sizes of the classification order *)
  assert (HposL : Forall (λ z, 0 <= z) (sizeOf <$> l)).
  { apply Forall_fmap, Forall_forall. intros x Hx. by apply Hpos. }
  (* the sizes of the counted deals are those of their deals *)
  assert (Hsize : id_PaddedSize <$> counted
                  = sizeOf <$> countedFrom EpochsInDay StateAccountKey
                                 currentPhaseStart knownAddrMap deals [] l).
  { unfold counted. rewrite <- countedDeals_ids with (cid_Parse := cid_Parse).
    rewrite <- list_fmap_compose. apply Forall_fmap_ext, Forall_forall.
    intros e Hin.
    apply elem_of_countedDeals in Hin as (Hid & _ & w & p & _ & ->).
    simpl. unfold int64_of_uint64. apply wrap64_id.
    assert (sizeOf (id_DealID
              (mkIndividualDeal (id_DealID e) p w
                 (payloadCids cid_Parse (lookupDeal deals (id_DealID e))).1
                 (lookupDeal deals (id_DealID e)))) <= sumZ (sizeOf <$> l)) as Hle.
    { apply sumZ_elem_le; [done|]. apply list_elem_of_fmap. eauto. }
    simpl in Hle. specialize (Hpos _ Hid). unfold in_int64. fold (sizeOf (id_DealID e)).
    lia. }
  assert (HposC : Forall (λ z, 0 <= z) (id_PaddedSize <$> counted)).
  { rewrite Hsize. apply Forall_fmap, Forall_forall. intros x Hx. apply Hpos.
    eapply sublist_subseteq; [apply countedFrom_sublist|done]. }
  assert (HsumC : sumZ (id_PaddedSize <$> counted) <= sumZ (sizeOf <$> l)).
  { rewrite Hsize. apply sumZ_sublist_le; [done|].
    apply fmap_sublist, countedFrom_sublist. }
  (* the sum over a part of the counted deals *)
  assert (Hpart : ∀ s, s `sublist_of` counted →
            0 <= sumZ (id_PaddedSize <$> s) <= sumZ (id_PaddedSize <$> counted) ∧
            wrap64 (sumZ (id_PaddedSize <$> s)) = sumZ (id_PaddedSize <$> s)).
  { intros s Hs.
    assert (Hs' : id_PaddedSize <$> s `sublist_of` id_PaddedSize <$> counted)
      by (by apply fmap_sublist).
    assert (0 <= sumZ (id_PaddedSize <$> s)).
    { apply sumZ_nonneg, Forall_forall. intros z Hz.
      apply (proj1 (Forall_forall _ _) HposC). by eapply sublist_subseteq. }
    pose proof (sumZ_sublist_le _ _ HposC Hs').
    split; [lia|]. apply wrap64_id. unfold in_int64. lia. }
  destruct (Hpart counted) as [_ HwC]; [done|].
  assert (Htot : TotalBytes (grandTotals st) = sumZ (id_PaddedSize <$> counted))
    by (by rewrite Hb, HwC).
  assert (Hentry : ∀ p e, projStats st !! p = Some e →
            ps_DataSize e
            = sumZ (id_PaddedSize <$> filter (λ x, id_ProjectID x = p) counted) ∧
            entryAgrees deals p e (filter (λ x, id_ProjectID x = p) counted)).
  { intros p e Hp. specialize (He p). rewrite Hp, Hl, default_nonempty in He.
    split; [|done]. destruct He as [_ _ Hd _ _ _ _ _ _ _].
    rewrite Hd. apply Hpart, sublist_filter. }
  assert (Hall : mjoin (snd <$> map_to_list (projDealLists st)) ≡ₚ counted).
  { apply (mjoin_by_key id_ProjectID). intros k.
    by rewrite Hl, default_nonempty. }
  change (TotalBytes (basic_stats out)) with (TotalBytes (grandTotals st)).
  change (FilplusTotalBytes (basic_stats out))
    with (FilplusTotalBytes (grandTotals st)).
  change (client_stats out) with (finalizeProject <$> projStats st).
  split; [|split; [|split]].
  - rewrite mapSum_fmap, Htot.
    rewrite <- (sumZ_Permutation _ _ (fmap_Permutation id_PaddedSize _ _ Hall)).
    symmetry.
    apply (mapSum_by_key (ps_DataSize ∘ finalizeProject) id_PaddedSize
             eq ltac:(done) ltac:(by intros ???? -> ->)
             (projStats st) (projDealLists st)).
    intros k. pose proof (He k) as Hk.
    destruct (projStats st !! k) as [e|] eqn:E; [|done].
    destruct (Hentry k e E) as [Hd _].
    change ((ps_DataSize ∘ finalizeProject) e) with (ps_DataSize e).
    by rewrite Hd, Hl, default_nonempty.
  - rewrite Hfb, Htot.
    destruct (Hpart (filter (λ x, verifiedOf deals x = true) counted))
      as [? ->]; [apply sublist_filter|]. lia.
  - by rewrite Htot.
  - intros p ps. rewrite lookup_fmap.
    destruct (projStats st !! p) as [e|] eqn:E; [|done]. intros [= <-].
    destruct (Hentry p e E) as [Hd [_ _ _ Hprov _ _ _ _ _ Hm]].
    cbn [finalizeProject ps_DataSize ps_DataSizeMaxProvider].
    rewrite Hm, Hd, Htot.
    set (dl := filter (λ x, id_ProjectID x = p) counted) in *.
    destruct (Hpart dl) as [Hdl _]; [apply sublist_filter|].
    split; [|lia].
    destruct (maxOver_spec 0 (ps_dataPerProvider e)) as (H0 & _ & Hatt).
    split; [done|].
    destruct Hatt as [->|(k & Hk)]; [lia|].
    rewrite Hprov in Hk. unfold sumBy in Hk. case_decide; [|done].
    injection Hk as Hk. rewrite <- Hk.
    assert (Hsub : filter (λ x, id_MinerID x = k) dl `sublist_of` counted).
    { etrans; apply sublist_filter. }
    destruct (Hpart _ Hsub) as [_ ->].
    apply sumZ_sublist_le.
    + apply Forall_forall. intros z Hz.
      apply (proj1 (Forall_forall _ _) HposC).
      eapply sublist_subseteq; [|done].
      apply fmap_sublist, sublist_filter.
    + apply fmap_sublist, sublist_filter.
Qed.

Lemma X23_witness :
  let out := rollup (sorter := go115_small) Scenario.EpochsInDay
               Scenario.StateAccountKey Scenario.cid_Parse Scenario.height
               defaultPhaseStart StatsScenario.statsAddrMap
               Scenario.knownRestoreClients StatsScenario.statsDeals
               StatsScenario.statsOrder in
  let l := orderedDealList (sorter := go115_small) Scenario.height
             StatsScenario.statsDeals StatsScenario.statsOrder in
  let sizeOf x := PieceSize (Proposal (lookupDeal StatsScenario.statsDeals x)) in
  TotalBytes (basic_stats out) = 8589934592 ∧
  TotalBytes (basic_stats out) = mapSum ps_DataSize (client_stats out) ∧
  0 <= FilplusTotalBytes (basic_stats out) <= TotalBytes (basic_stats out) ∧
  TotalBytes (basic_stats out) <= sumZ (sizeOf <$> l) ∧
  ∀ p ps, client_stats out !! p = Some ps →
          0 <= ps_DataSizeMaxProvider ps <= ps_DataSize ps ∧
          ps_DataSize ps <= TotalBytes (basic_stats out).
Proof.
  split; [by vm_compute|].
  apply (X23_sizes_without_overflow (sorter := go115_small)
           Scenario.EpochsInDay Scenario.StateAccountKey Scenario.cid_Parse
           Scenario.height defaultPhaseStart StatsScenario.statsAddrMap
           Scenario.knownRestoreClients StatsScenario.statsDeals
           StatsScenario.statsOrder).
  - intros x Hx. vm_compute in Hx.
    repeat (apply elem_of_cons in Hx as [->|Hx]; [by vm_compute|]).
    by apply elem_of_nil in Hx.
  - by vm_compute.
Defined.
